(** Benchmark scripts of the two labs: the Fibonacci algorithms of
    [Lab1/scripts/generate_results.py], the sorting algorithms of
    [Lab2/scripts/generate_results.py], and the timing and reporting harness
    both scripts share.  The first part embeds the programs, the second
    states what they are meant to do, the third proves it. *)

From Stdlib Require Import ZArith List Lia String Ascii.
From stdpp Require Import base numbers option list gmap strings sorting pretty.

(** * Shared control-flow combinators *)

(** A [for] loop whose body may raise: the state is threaded through the
    items in order and the first failure aborts the loop. *)
Fixpoint for_loop {S A : Type} (body : S → A → option S) (s : S) (items : list A)
  : option S :=
  match items with
  | [] => Some s
  | x :: items' =>
      match body s x with
      | Some s' => for_loop body s' items'
      | None => None
      end
  end.

(** Python's [a // b] on integers: floor division, [ZeroDivisionError] when
    the divisor is zero. *)
Definition floordiv (a b : Z) : option Z :=
  if (b =? 0)%Z then None else Some (a / b)%Z.

(** * The runtime the scripts rely on *)

(** Floating-point values, the clock, the random generator, number formatting
    and the plotting library are not part of the repository.  They are taken
    as parameters: [perf_counter k] is the [k]-th reading of
    [time.perf_counter()], [randint k a b] the [k]-th draw of
    [random.randint(a, b)] after [random.seed(42)]. *)
Class Runtime : Type := {
  pyfloat : Type;
  float_sub : pyfloat → pyfloat → pyfloat;
  float_ltb : pyfloat → pyfloat → bool;
  float_zero : pyfloat;
  perf_counter : nat → pyfloat;
  repr_float : pyfloat → string;
  format_6f : pyfloat → string;
  str_title : string → string;
  randint : nat → Z → Z → Z;
  png_single : string → string → list (Z * pyfloat) → string;
  png_comparison : string → list (string * list (Z * pyfloat)) → string;
  format_progress : string → Z → pyfloat → string;
}.

(** [x >= 0] on floats. *)
Definition float_nonneg `{Runtime} (x : pyfloat) : Prop :=
  float_ltb x float_zero = false.

(** * Python list objects *)

(** Lists are mutable objects: a store maps the identity of every live list
    object to its current contents.  Indices are the non-negative ones the
    programs use; an index outside the list raises [IndexError]. *)
Definition loc := nat.
Abbreviation store := (gmap loc (list Z)).

(** Creation of a new list object ([arr[:]], a comprehension, [a + b], [[]]). *)
Definition alloc (l : list Z) (σ : store) : loc * store :=
  let a := fresh (dom σ) in (a, <[a := l]> σ).

(** [l[i]] and [l[i] = x]. *)
Definition list_get (l : list Z) (i : nat) : option Z := l !! i.
Definition list_set (l : list Z) (i : nat) (x : Z) : option (list Z) :=
  if (i <? length l)%nat then Some (<[i := x]> l) else None.

(** * Files *)

(** The part of the file system the scripts touch: the directories that
    exist and the contents of the regular files, both by path name. *)
Record fsys : Type := Fsys { dirs : gset string; files : gmap string string }.

Definition LF : string := String "010"%char EmptyString.
Definition CRLF : string := String "013"%char LF.
Definition DQUOTE : string := String "034"%char EmptyString.

Fixpoint str_exists (p : ascii → bool) (s : string) : bool :=
  match s with
  | EmptyString => false
  | String c s' => p c || str_exists p s'
  end.

Definition starts_with (c : ascii) (s : string) : bool :=
  match s with
  | EmptyString => false
  | String c' _ => Ascii.eqb c' c
  end.

Fixpoint ends_with (c : ascii) (s : string) : bool :=
  match s with
  | EmptyString => false
  | String c' EmptyString => Ascii.eqb c' c
  | String _ s' => ends_with c s'
  end.

Definition str_empty (s : string) : bool :=
  match s with EmptyString => true | String _ _ => false end.

(** [os.path.join(a, b)] (POSIX). *)
Definition path_join (a b : string) : string :=
  if starts_with "/" b then b
  else if str_empty a || ends_with "/" a then a +:+ b
  else a +:+ "/" +:+ b.

(** [p[:p.rfind('/') + 1]]. *)
Fixpoint upto_last_slash (p : string) : string :=
  match p with
  | EmptyString => EmptyString
  | String c p' =>
      let h := upto_last_slash p' in
      if negb (str_empty h) || Ascii.eqb c "/" then String c h else EmptyString
  end.

(** [s.rstrip('/')]. *)
Fixpoint rstrip_slash (s : string) : string :=
  match s with
  | EmptyString => EmptyString
  | String c s' =>
      let r := rstrip_slash s' in
      if str_empty r && Ascii.eqb c "/" then EmptyString else String c r
  end.

(** [os.path.dirname(p)] (POSIX). *)
Definition dirname (p : string) : string :=
  let head := upto_last_slash p in
  if str_empty (rstrip_slash head) then head else rstrip_slash head.

(** [os.makedirs(name, exist_ok=True)] for a single path component. *)
Definition makedirs (name : string) (fs : fsys) : option fsys :=
  if decide (is_Some (files fs !! name)) then None
  else Some (Fsys ({[name]} ∪ dirs fs) (files fs)).

(** [open(path, "w")]: the parent directory must exist and [path] must not
    be a directory; the file is created or truncated. *)
Definition can_open (path : string) (fs : fsys) : Prop :=
  (dirname path = EmptyString ∨ dirname path ∈ dirs fs) ∧ path ∉ dirs fs.

Definition open_w (path : string) (fs : fsys) : option fsys :=
  if decide (can_open path fs)
  then Some (Fsys (dirs fs) (<[path := EmptyString]> (files fs)))
  else None.

(** [handle.write(s)] on the file opened at [path]. *)
Definition fwrite (path : string) (s : string) (fs : fsys) : option fsys :=
  c ← files fs !! path;
  Some (Fsys (dirs fs) (<[path := c +:+ s]> (files fs))).

(** [csv.writer(handle).writerow(fields)] with the default dialect: fields
    are joined by commas, a field holding a comma, a quote or a line break
    is quoted, and the row ends in CR LF. *)
Definition csv_special (c : ascii) : bool :=
  Ascii.eqb c "," || Ascii.eqb c "034" || Ascii.eqb c "013" || Ascii.eqb c "010".

Fixpoint csv_escape (s : string) : string :=
  match s with
  | EmptyString => EmptyString
  | String c s' =>
      if Ascii.eqb c "034" then String c (String c (csv_escape s'))
      else String c (csv_escape s')
  end.

Definition csv_field (s : string) : string :=
  if str_exists csv_special s then DQUOTE +:+ csv_escape s +:+ DQUOTE else s.

Fixpoint csv_join (fields : list string) : string :=
  match fields with
  | [] => EmptyString
  | [f] => f
  | f :: fields' => f +:+ "," +:+ csv_join fields'
  end.

Definition csv_row (fields : list string) : string :=
  csv_join (csv_field <$> fields) +:+ CRLF.

(** [s.replace("_", " ")]. *)
Fixpoint replace_underscores (s : string) : string :=
  match s with
  | EmptyString => EmptyString
  | String c s' =>
      String (if Ascii.eqb c "_" then " "%char else c) (replace_underscores s')
  end.

(** ** The export functions, identical in both scripts *)
Section export.
Context `{Runtime}.

Definition ensure_dirs (fs : fsys) : option fsys :=
  fs ← makedirs "results" fs;
  makedirs "figures" fs.

Definition write_csv (name : string) (rows : list (Z * pyfloat)) (fs : fsys)
  : option fsys :=
  let path := path_join "results" (name +:+ ".csv") in
  fs ← open_w path fs;
  fs ← fwrite path (csv_row ["n"; "time_s"]) fs;
  for_loop
    (λ fs '(n, t), fwrite path (csv_row [pretty n; repr_float t]) fs)
    fs rows.

Definition write_table (name : string) (rows : list (Z * pyfloat)) (fs : fsys)
  : option fsys :=
  let path := path_join "results" (name +:+ "_table.tex") in
  fs ← open_w path fs;
  fs ← fwrite path ("\begin{table}[H]" +:+ LF) fs;
  fs ← fwrite path ("\centering" +:+ LF) fs;
  fs ← fwrite path
         ("\caption{" +:+ str_title (replace_underscores name) +:+ " Results}" +:+ LF) fs;
  fs ← fwrite path ("\begin{tabular}{rr}" +:+ LF) fs;
  fs ← fwrite path ("\toprule" +:+ LF) fs;
  fs ← fwrite path ("n & time (s)\\" +:+ LF) fs;
  fs ← fwrite path ("\midrule" +:+ LF) fs;
  fs ← for_loop
         (λ fs '(n, t),
            fwrite path (pretty n +:+ " & " +:+ format_6f t +:+ "\\" +:+ LF) fs)
         fs rows;
  fs ← fwrite path ("\bottomrule" +:+ LF) fs;
  fs ← fwrite path ("\end{tabular}" +:+ LF) fs;
  fwrite path ("\end{table}" +:+ LF) fs.

(** [plt.savefig(path)]: the image is written in one piece. *)
Definition savefig (path : string) (png : string) (fs : fsys) : option fsys :=
  fs ← open_w path fs;
  fwrite path png fs.

Definition plot_single (xlabel name title : string) (rows : list (Z * pyfloat))
  (fs : fsys) : option fsys :=
  savefig (path_join "figures" (name +:+ ".png")) (png_single xlabel title rows) fs.

Definition plot_comparison (heading : string)
  (all_results : list (string * string * list (Z * pyfloat))) (fs : fsys)
  : option fsys :=
  savefig (path_join "figures" "comparison.png")
    (png_comparison heading ((λ '(_, title, rows), (title, rows)) <$> all_results)) fs.

(** The update of [best] at the end of one trial of [time_run]. *)
Definition update_best (best : option pyfloat) (elapsed : pyfloat) : option pyfloat :=
  match best with
  | None => Some elapsed
  | Some b => if float_ltb elapsed b then Some elapsed else Some b
  end.

End export.

(** * Lab1: Fibonacci algorithms *)
Module Lab1.
Local Open Scope Z_scope.

Definition SMALL_INPUTS : list Z :=
  [5; 7; 10; 12; 15; 17; 20; 22; 25; 27; 30; 32; 35; 37; 40; 42; 45].
Definition LARGE_INPUTS : list Z :=
  [501; 631; 794; 1000; 1259; 1585; 1995; 2512; 3162; 3981; 5012; 6310;
   7943; 10000; 12589; 15849].
Definition INPUT_SIZES : list Z := SMALL_INPUTS ++ LARGE_INPUTS.
Definition REPEATS : nat := 3.

(** [fib_iterative]: [range(n)] is empty for [n <= 0]. *)
Definition fib_iterative (n : Z) : Z :=
  fst (Nat.iter (Z.to_nat n) (λ '(a, b), (b, a + b)) (0, 1)).

(** [fib_memoized]: the [while stack] loop.  The Python list [stack] is kept
    with its last element (the one [pop] removes, where [append] adds) at the
    head.  [fuel] bounds the number of executions of the loop body. *)
Fixpoint memo_loop (fuel : nat) (memo : gmap Z Z) (stack : list Z)
  : option (gmap Z Z) :=
  match stack with
  | [] => Some memo
  | k :: stack =>
      match fuel with
      | O => None
      | S fuel =>
          if decide (is_Some (memo !! k)) then memo_loop fuel memo stack
          else
            let k1 := k - 1 in
            let k2 := k - 2 in
            match memo !! k1, memo !! k2 with
            | Some v1, Some v2 => memo_loop fuel (<[k := v1 + v2]> memo) stack
            | o1, o2 =>
                let stack := k :: stack in
                let stack := if o1 is None then k1 :: stack else stack in
                let stack := if o2 is None then k2 :: stack else stack in
                memo_loop fuel memo stack
            end
      end
  end.

Definition fib_memoized (fuel : nat) (n : Z) : option Z :=
  if n <? 2 then Some n
  else
    memo ← memo_loop fuel {[0 := 0; 1 := 1]} [n];
    memo !! n.

(** [fib_fast_doubling]: [fuel] bounds the recursion depth of [solve]. *)
Fixpoint solve (fuel : nat) (k : Z) : option (Z * Z) :=
  match fuel with
  | O => None
  | S fuel =>
      if k =? 0 then Some (0, 1)
      else
        '(a, b) ← solve fuel (k / 2);
        let c := a * (2 * b - a) in
        let d := a * a + b * b in
        if k mod 2 =? 0 then Some (c, d) else Some (d, c + d)
  end.

Definition fib_fast_doubling (fuel : nat) (n : Z) : option Z :=
  fst <$> solve fuel n.

(** [fib_binomial]: the loop state is [(term, total)]. *)
Definition binomial_body (n max_k : Z) (st : Z * Z) (k : Z) : option (Z * Z) :=
  let '(term, total) := st in
  let total := total + term in
  if k <? max_k then
    let numerator := (n - 2 * k - 1) * (n - 2 * k - 2) in
    let denominator := (k + 1) * (n - k - 1) in
    term ← floordiv (term * numerator) denominator;
    Some (term, total)
  else Some (term, total).

Definition fib_binomial (n : Z) : option Z :=
  if n =? 0 then Some 0
  else
    let max_k := (n - 1) / 2 in
    snd <$> for_loop (binomial_body n max_k) (1, 0) (seqZ 0 (max_k + 1)).

(** [fib_matrix_fast]: 2x2 integer matrices [[m00, m01], [m10, m11]]. *)
Record mat2 : Type := Mat2 { m00 : Z; m01 : Z; m10 : Z; m11 : Z }.

Definition mat_mul (a b : mat2) : mat2 :=
  Mat2 (m00 a * m00 b + m01 a * m10 b) (m00 a * m01 b + m01 a * m11 b)
       (m10 a * m00 b + m11 a * m10 b) (m10 a * m01 b + m11 a * m11 b).

(** The [while p > 0] loop of [mat_pow]; [fuel] bounds its iterations. *)
Fixpoint mat_pow_loop (fuel : nat) (result base : mat2) (p : Z) : option mat2 :=
  if p >? 0 then
    match fuel with
    | O => None
    | S fuel =>
        let result :=
          if negb (Z.land p 1 =? 0) then mat_mul result base else result in
        let base := mat_mul base base in
        mat_pow_loop fuel result base (Z.shiftr p 1)
    end
  else Some result.

Definition mat_pow (fuel : nat) (p : Z) : option mat2 :=
  mat_pow_loop fuel (Mat2 1 0 0 1) (Mat2 1 1 1 0) p.

Definition fib_matrix_fast (fuel : nat) (n : Z) : option Z :=
  if n =? 0 then Some 0 else m01 <$> mat_pow fuel n.

(** The registry, in the order of the dictionary literal.  Every entry takes
    the fuel of its loops first. *)
Definition ALGORITHMS : list (string * (string * (nat → Z → option Z))) :=
  [ ("iterative", ("Iterative Linear", λ _ n, Some (fib_iterative n)));
    ("memoized", ("Memoized Recursion", fib_memoized));
    ("fast_doubling", ("Fast Doubling", fib_fast_doubling));
    ("binomial", ("Binomial Sum", λ _ n, fib_binomial n));
    ("matrix_fast", ("Fast Matrix Exponentiation", fib_matrix_fast)) ]%string.

Section harness.
Context `{Runtime}.

(** What a run of the script can observe or change: the number of clock
    readings taken, the arguments of the algorithm calls made so far, and
    the files. *)
Record world : Type := World { clock : nat; calls : list Z; fs : fsys }.

Definition now (w : world) : pyfloat * world :=
  (perf_counter (clock w), World (S (clock w)) (calls w) (fs w)).

(** One trial of [time_run]; the loop state is [(best, world)]. *)
Definition time_trial (fn : Z → option Z) (n : Z)
  (st : option pyfloat * world) (_ : nat) : option (option pyfloat * world) :=
  let '(best, w) := st in
  let '(start, w) := now w in
  _ ← fn n;
  let w := World (clock w) (calls w ++ [n]) (fs w) in
  let '(stop, w) := now w in
  let elapsed := float_sub stop start in
  Some (update_best best elapsed, w).

Definition time_run (fn : Z → option Z) (n : Z) (w : world)
  : option (option pyfloat * world) :=
  for_loop (time_trial fn n) (None, w) (seq 0 REPEATS).

Definition with_fs (f : fsys → option fsys) (w : world) : option world :=
  fs' ← f (fs w); Some (World (clock w) (calls w) fs').

(** The inner loop of [main]: one row per input size.  [elapsed] is [None]
    only if [REPEATS] is zero; the formatting of such a row would raise. *)
Definition measure_sizes (fn : Z → option Z)
  (st : list (Z * pyfloat) * world) (n : Z) : option (list (Z * pyfloat) * world) :=
  let '(rows, w) := st in
  '(elapsed, w) ← time_run fn n w;
  elapsed ← elapsed;
  Some (rows ++ [(n, elapsed)], w).

Definition main_body (fuel : nat)
  (st : list (string * string * list (Z * pyfloat)) * world)
  (entry : string * (string * (nat → Z → option Z)))
  : option (list (string * string * list (Z * pyfloat)) * world) :=
  let '(all_results, w) := st in
  let '(key, (title, fn)) := entry in
  '(rows, w) ← for_loop (measure_sizes (fn fuel)) ([], w) INPUT_SIZES;
  w ← with_fs (write_csv key rows) w;
  w ← with_fs (write_table key rows) w;
  w ← with_fs (plot_single "n" key title rows) w;
  Some (all_results ++ [(key, title, rows)], w).

(** [main]; the list [all_results] it builds is returned for inspection. *)
Definition main (fuel : nat) (w : world)
  : option (list (string * string * list (Z * pyfloat)) * world) :=
  w ← with_fs ensure_dirs w;
  '(all_results, w) ← for_loop (main_body fuel) ([], w) ALGORITHMS;
  w ← with_fs (plot_comparison "Fibonacci Algorithm Comparison" all_results) w;
  Some (all_results, w).

End harness.

End Lab1.

(** * Lab2: sorting algorithms *)
Module Lab2.

Definition SMALL_INPUTS : list Z := [100; 500; 1000; 2000; 5000; 10000]%Z.
Definition LARGE_INPUTS : list Z := [20000; 30000; 50000; 75000; 100000]%Z.
Definition INPUT_SIZES : list Z := SMALL_INPUTS ++ LARGE_INPUTS.
Definition REPEATS : nat := 3.

(** [quicksort]: [fuel] bounds the recursion depth.  The three comprehensions
    and the final concatenation create new objects; a list of length at most
    one is returned as it is (the same object). *)
Fixpoint quicksort (fuel : nat) (arr : loc) (σ : store) : option (loc * store) :=
  match fuel with
  | O => None
  | S fuel =>
      a ← σ !! arr;
      if (length a <=? 1)%nat then Some (arr, σ)
      else
        pivot ← list_get a (length a / 2);
        let '(left_, σ) := alloc (filter (λ x, x < pivot)%Z a) σ in
        let '(middle, σ) := alloc (filter (λ x, x = pivot) a) σ in
        let '(right_, σ) := alloc (filter (λ x, x > pivot)%Z a) σ in
        '(sl, σ) ← quicksort fuel left_ σ;
        '(sr, σ) ← quicksort fuel right_ σ;
        l1 ← σ !! sl;
        l2 ← σ !! middle;
        l3 ← σ !! sr;
        Some (alloc ((l1 ++ l2) ++ l3) σ)
  end.

(** [_merge] reads its two arguments and fills a new list; the loop state is
    [(result, i, j)].  [fuel] bounds the iterations of the [while] loop. *)
Fixpoint merge_loop (fuel : nat) (left right result : list Z) (i j : nat)
  : option (list Z * nat * nat) :=
  if (i <? length left)%nat && (j <? length right)%nat then
    match fuel with
    | O => None
    | S fuel =>
        x ← list_get left i;
        y ← list_get right j;
        if (x <=? y)%Z then merge_loop fuel left right (result ++ [x]) (S i) j
        else merge_loop fuel left right (result ++ [y]) i (S j)
    end
  else Some (result, i, j).

Definition _merge (fuel : nat) (left right : list Z) : option (list Z) :=
  '(result, i, j) ← merge_loop fuel left right [] 0 0;
  let result := result ++ drop i left in
  let result := result ++ drop j right in
  Some result.

(** [merge_sort]: the two slices and the merged result are new objects. *)
Fixpoint merge_sort (fuel : nat) (arr : loc) (σ : store) : option (loc * store) :=
  match fuel with
  | O => None
  | S fuel =>
      a ← σ !! arr;
      if (length a <=? 1)%nat then Some (arr, σ)
      else
        let mid := (length a / 2)%nat in
        let '(lo, σ) := alloc (take mid a) σ in
        '(left_, σ) ← merge_sort fuel lo σ;
        a ← σ !! arr;
        let '(hi, σ) := alloc (drop mid a) σ in
        '(right_, σ) ← merge_sort fuel hi σ;
        l ← σ !! left_;
        r ← σ !! right_;
        merged ← _merge fuel l r;
        Some (alloc merged σ)
  end.

(** [_heapify] works in place on the list it is given: the function maps
    the contents before the call to the contents after it.  [fuel] bounds
    the iterations of the [while True] loop. *)
Fixpoint _heapify (fuel : nat) (arr : list Z) (n i : nat) : option (list Z) :=
  match fuel with
  | O => None
  | S fuel =>
      let largest := i in
      let left := (2 * i + 1)%nat in
      let right := (2 * i + 2)%nat in
      largest ←
        (if (left <? n)%nat then
           x ← list_get arr left; y ← list_get arr largest;
           Some (if (x >? y)%Z then left else largest)
         else Some largest);
      largest ←
        (if (right <? n)%nat then
           x ← list_get arr right; y ← list_get arr largest;
           Some (if (x >? y)%Z then right else largest)
         else Some largest);
      if (largest =? i)%nat then Some arr
      else
        x ← list_get arr largest;
        y ← list_get arr i;
        arr ← list_set arr i x;
        arr ← list_set arr largest y;
        _heapify fuel arr n largest
  end.

(** The two loops of [heapsort] on the contents of the copied list. *)
Definition heapsort_build (fuel : nat) (n : nat) (arr : list Z) : option (list Z) :=
  for_loop (λ arr i, _heapify fuel arr n i) arr (rev (seq 0 (n / 2))).

Definition heapsort_extract (fuel : nat) (n : nat) (arr : list Z) : option (list Z) :=
  for_loop
    (λ arr i,
       x ← list_get arr i;
       y ← list_get arr 0;
       arr ← list_set arr 0 x;
       arr ← list_set arr i y;
       _heapify fuel arr i 0)
    arr (rev (seq 1 (n - 1))).

(** [heapsort]: [arr = arr[:]] makes the copy the loops then work on. *)
Definition heapsort (fuel : nat) (arr : loc) (σ : store) : option (loc * store) :=
  a ← σ !! arr;
  let '(arr, σ) := alloc a σ in
  a ← σ !! arr;
  let n := length a in
  a ← heapsort_build fuel n a;
  a ← heapsort_extract fuel n a;
  Some (arr, <[arr := a]> σ).

(** [shell_sort]: the inner [while] loop shifts larger entries up by [gap];
    its state is [(arr, j)]. *)
Fixpoint shell_shift (fuel : nat) (arr : list Z) (gap : nat) (temp : Z) (j : nat)
  : option (list Z * nat) :=
  if (gap <=? j)%nat then
    x ← list_get arr (j - gap);
    if (x >? temp)%Z then
      match fuel with
      | O => None
      | S fuel =>
          y ← list_get arr (j - gap);
          arr ← list_set arr j y;
          shell_shift fuel arr gap temp (j - gap)
      end
    else Some (arr, j)
  else Some (arr, j).

(** The body of [for i in range(gap, n)]. *)
Definition shell_insert (fuel : nat) (gap : nat) (arr : list Z) (i : nat)
  : option (list Z) :=
  temp ← list_get arr i;
  '(arr, j) ← shell_shift fuel arr gap temp i;
  list_set arr j temp.

(** The [while gap > 0] loop; [fuel] bounds its iterations and [inner] those
    of each inner [while] loop. *)
Fixpoint shell_gaps (fuel inner : nat) (n gap : nat) (arr : list Z)
  : option (list Z) :=
  if (0 <? gap)%nat then
    match fuel with
    | O => None
    | S fuel =>
        arr ← for_loop (shell_insert inner gap) arr (seq gap (n - gap));
        shell_gaps fuel inner n (gap / 2) arr
    end
  else Some arr.

Definition shell_sort (fuel : nat) (arr : loc) (σ : store) : option (loc * store) :=
  a ← σ !! arr;
  let '(arr, σ) := alloc a σ in
  a ← σ !! arr;
  let n := length a in
  let gap := (n / 2)%nat in
  a ← shell_gaps fuel fuel n gap a;
  Some (arr, <[arr := a]> σ).

(** The registry, in the order of the dictionary literal. *)
Definition ALGORITHMS
  : list (string * (string * (nat → loc → store → option (loc * store)))) :=
  [ ("quicksort", ("QuickSort", quicksort));
    ("mergesort", ("MergeSort", merge_sort));
    ("heapsort", ("HeapSort", heapsort));
    ("shellsort", ("ShellSort", shell_sort)) ]%string.

Section harness.
Context `{Runtime}.

(** What a run of the script can observe or change: the list objects, the
    number of clock readings and of random draws taken, the algorithm calls
    made so far (the object passed and its contents at the call), the files
    and the lines printed. *)
Record world : Type := World {
  objs : store;
  clock : nat;
  rng : nat;
  calls : list (loc * list Z);
  fs : fsys;
  stdout : list string;
}.

Definition now (w : world) : pyfloat * world :=
  (perf_counter (clock w),
   World (objs w) (S (clock w)) (rng w) (calls w) (fs w) (stdout w)).

Definition with_objs (σ : store) (w : world) : world :=
  World σ (clock w) (rng w) (calls w) (fs w) (stdout w).

Definition with_fs (f : fsys → option fsys) (w : world) : option world :=
  fs' ← f (fs w);
  Some (World (objs w) (clock w) (rng w) (calls w) fs' (stdout w)).

Definition print (line : string) (w : world) : world :=
  World (objs w) (clock w) (rng w) (calls w) (fs w) (stdout w ++ [line]).

(** [generate_random_array(n)]: [n] draws from [0 .. 10 * n]. *)
Definition generate_random_array (n : Z) (w : world) : loc * world :=
  let k := rng w in
  let l := (λ i, randint (k + i) 0 (10 * n)) <$> seq 0 (Z.to_nat n) in
  let '(a, σ) := alloc l (objs w) in
  (a, World σ (clock w) (k + Z.to_nat n) (calls w) (fs w) (stdout w)).

(** One trial of [time_run]: the algorithm receives a copy. *)
Definition time_trial (fn : loc → store → option (loc * store)) (arr : loc)
  (st : option pyfloat * world) (_ : nat) : option (option pyfloat * world) :=
  let '(best, w) := st in
  a ← objs w !! arr;
  let '(data, σ) := alloc a (objs w) in
  let w := with_objs σ w in
  let '(start, w) := now w in
  d ← objs w !! data;
  '(_, σ) ← fn data (objs w);
  let w := World σ (clock w) (rng w) (calls w ++ [(data, d)]) (fs w) (stdout w) in
  let '(stop, w) := now w in
  let elapsed := float_sub stop start in
  Some (update_best best elapsed, w).

Definition time_run (fn : loc → store → option (loc * store)) (arr : loc)
  (w : world) : option (option pyfloat * world) :=
  for_loop (time_trial fn arr) (None, w) (seq 0 REPEATS).

(** The comprehension that fills [arrays]. *)
Definition make_arrays (st : gmap Z loc * world) (n : Z)
  : option (gmap Z loc * world) :=
  let '(arrays, w) := st in
  let '(a, w) := generate_random_array n w in
  Some (<[n := a]> arrays, w).

(** The inner loop of [main]: one row per input size.  [elapsed] is [None]
    only if [REPEATS] is zero; the formatting of such a row would raise. *)
Definition measure_sizes (title : string)
  (fn : loc → store → option (loc * store)) (arrays : gmap Z loc)
  (st : list (Z * pyfloat) * world) (n : Z) : option (list (Z * pyfloat) * world) :=
  let '(rows, w) := st in
  arr ← arrays !! n;
  '(elapsed, w) ← time_run fn arr w;
  elapsed ← elapsed;
  let w := print (format_progress title n elapsed) w in
  Some (rows ++ [(n, elapsed)], w).

Definition main_body (fuel : nat) (arrays : gmap Z loc)
  (st : list (string * string * list (Z * pyfloat)) * world)
  (entry : string * (string * (nat → loc → store → option (loc * store))))
  : option (list (string * string * list (Z * pyfloat)) * world) :=
  let '(all_results, w) := st in
  let '(key, (title, fn)) := entry in
  '(rows, w) ← for_loop (measure_sizes title (fn fuel) arrays) ([], w) INPUT_SIZES;
  w ← with_fs (write_csv key rows) w;
  w ← with_fs (write_table key rows) w;
  w ← with_fs (plot_single "n (array size)" key title rows) w;
  Some (all_results ++ [(key, title, rows)], w).

(** [main]; the list [all_results] it builds is returned for inspection. *)
Definition main (fuel : nat) (w : world)
  : option (list (string * string * list (Z * pyfloat)) * world) :=
  let w := World (objs w) (clock w) 0 (calls w) (fs w) (stdout w) in
  w ← with_fs ensure_dirs w;
  '(arrays, w) ← for_loop make_arrays (∅, w) INPUT_SIZES;
  '(all_results, w) ← for_loop (main_body fuel arrays) ([], w) ALGORITHMS;
  w ← with_fs (plot_comparison "Sorting Algorithm Comparison" all_results) w;
  let w := print "Done." w in
  Some (all_results, w).

End harness.

End Lab2.

(** * Specification vocabulary *)

(** ** Reference definition of the Fibonacci numbers *)
Fixpoint fib (n : nat) : Z :=
  match n with
  | O => 0
  | S m => match m with O => 1 | S k => fib k + fib m end
  end%Z.

Definition fibZ (n : Z) : Z := fib (Z.to_nat n).

Section fibonacci_vocabulary.
Local Open Scope Z_scope.

(** Binomial coefficients by Pascal's rule. *)
Fixpoint binom (n k : nat) : Z :=
  match n, k with
  | _, O => 1
  | O, S _ => 0
  | S n', S k' => binom n' k' + binom n' k
  end.

(** Partial sums along a shallow diagonal of Pascal's triangle:
    [diag_sum N j = C(N,0) + C(N-1,1) + ... + C(N-j+1, j-1)]. *)
Fixpoint diag_sum (N j : nat) : Z :=
  match j with
  | O => 0
  | S j' => diag_sum N j' + binom (N - j') j'
  end.

Definition fib_mat (k : nat) : Lab1.mat2 :=
  Lab1.Mat2 (fib (S k)) (fib k) (fib k) (fib (S k) - fib k).

(** The memo table holds exactly the Fibonacci numbers of indices [0..m]. *)
Definition memo_upto (m : nat) (memo : gmap Z Z) : Prop :=
  ∀ i : Z, memo !! i = if decide (0 <= i <= Z.of_nat m) then Some (fibZ i) else None.

End fibonacci_vocabulary.

(** ** Sorting *)

(** What every sorting function achieves: a result object that holds the
    sorted permutation, in a store that extends the one before the call. *)
Definition sorted_result (σ : store) (a : list Z) (res : option (loc * store)) : Prop :=
  ∃ (r : loc) (σ' : store) (a' : list Z),
    res = Some (r, σ') ∧ σ ⊆ σ' ∧ σ' !! r = Some a' ∧ Sorted Z.le a' ∧ a' ≡ₚ a.

(** Sortedness read off the indices. *)
Definition sorted_upto (m : nat) (l : list Z) : Prop :=
  ∀ j k : nat, j ≤ k → k < m → Z.le (l !!! j) (l !!! k).

(** Node [k] dominates those of its children that lie below [n]. *)
Definition heap_node (a : list Z) (n k : nat) : Prop :=
  (2 * k + 1 < n → Z.le (a !!! (2 * k + 1)) (a !!! k)) ∧
  (2 * k + 2 < n → Z.le (a !!! (2 * k + 2)) (a !!! k)).

Definition heap_from (a : list Z) (n s : nat) : Prop :=
  ∀ k, s ≤ k → heap_node a n k.

(** The state [_heapify] repairs: every node from [s] on is in order except
    [i], whose children are still dominated by the parent of [i]. *)
Definition heap_except (a : list Z) (n s i : nat) : Prop :=
  (∀ k, s ≤ k → k ≠ i → heap_node a n k) ∧
  (∀ k c, s ≤ k → i = 2 * k + 1 ∨ i = 2 * k + 2 →
          c = 2 * i + 1 ∨ c = 2 * i + 2 → c < n → Z.le (a !!! c) (a !!! k)).

Definition heapify_post (a : list Z) (n s : nat) (res : option (list Z)) : Prop :=
  ∃ a', res = Some a' ∧ length a' = length a ∧ heap_from a' n s ∧
        take n a' ≡ₚ take n a ∧ drop n a' = drop n a.

(** The tail of one iteration of [_heapify], once [largest] is known. *)
Definition heapify_tail (fuel : nat) (arr : list Z) (n i largest : nat)
  : option (list Z) :=
  if (largest =? i)%nat then Some arr
  else
    x ← list_get arr largest;
    arr' ← list_set arr i x;
    arr'' ← list_set arr' largest (arr !!! i);
    Lab2._heapify fuel arr'' n largest.

(** Entries from [m] on are final: each is at least every earlier entry. *)
Definition settled_from (m n : nat) (a : list Z) : Prop :=
  ∀ j k, j ≤ k → m ≤ k → k < n → Z.le (a !!! j) (a !!! k).

(** With [gap = 1] the inner loop is the insertion step: the entries up to
    [i], the slot [j] apart, are in order, and those above [j] exceed [temp]. *)
Definition insertion_inv (i : nat) (temp : Z) (arr : list Z) (j : nat) : Prop :=
  j ≤ i ∧ i < length arr ∧
  (∀ p q, p ≤ q → q ≤ i → p ≠ j → q ≠ j → Z.le (arr !!! p) (arr !!! q)) ∧
  (∀ q, j < q → q ≤ i → Z.lt temp (arr !!! q)).

(** The registered algorithms: each sorts, and each leaves alone whatever
    was there before the call. *)
Definition sorts (fn : nat → loc → store → option (loc * store)) : Prop :=
  ∀ fuel arr σ a, σ !! arr = Some a → length a < fuel →
    sorted_result σ a (fn fuel arr σ).

Definition preserves (fn : nat → loc → store → option (loc * store)) : Prop :=
  ∀ fuel arr σ r σ', fn fuel arr σ = Some (r, σ') → σ ⊆ σ'.

(** An algorithm that changes at most the object it is given (and creates
    new ones). *)
Definition frames (fn : loc → store → option (loc * store)) : Prop :=
  ∀ d σ r σ', fn d σ = Some (r, σ') →
    ∀ l x, l ≠ d → σ !! l = Some x → σ' !! l = Some x.

(** An algorithm that returns on every object holding [a]. *)
Definition runs_on (a : list Z) (fn : loc → store → option (loc * store)) : Prop :=
  ∀ σ d, σ !! d = Some a → is_Some (fn d σ).

(** The contents handed to one algorithm over all sizes: three copies of
    the array of each size, in the order of the sizes. *)
Definition expected_calls (contents : Z → list Z) (sizes : list Z) : list (list Z) :=
  concat ((λ n, replicate 3 (contents n)) <$> sizes).

(** The pre-generated arrays: every size has its object, of that length. *)
Definition arrays_in (arrays : gmap Z loc) (σ : store) (n : Z) (l : list Z) : Prop :=
  ∃ a, arrays !! n = Some a ∧ σ !! a = Some l.

Definition contents_of (arrays : gmap Z loc) (σ : store) (n : Z) : list Z :=
  default [] (a ← arrays !! n; σ !! a).

(** ** Files and CSV text *)

Section text_vocabulary.
Local Open Scope string_scope.

(** Concatenation of the pieces written one after the other. *)
Definition str_concat (l : list string) : string := foldr String.append EmptyString l.

Definition no_slash (s : string) : Prop := str_exists (Ascii.eqb "/") s = false.

Definition plain (s : string) : Prop := str_exists csv_special s = false.

(** No carriage return inside. *)
Definition no_break (s : string) : Prop :=
  str_exists (λ c, Ascii.eqb c "013") s = false.

(** The records of a text whose lines end in CR LF. *)
Fixpoint crlf_lines (s : string) : list string :=
  match s with
  | EmptyString => []
  | String c s' =>
      match s' with
      | EmptyString => [String c EmptyString]
      | String c' s'' =>
          if Ascii.eqb c "013" && Ascii.eqb c' "010" then EmptyString :: crlf_lines s''
          else
            match crlf_lines s' with
            | [] => [String c EmptyString]
            | l :: ls => String c l :: ls
            end
      end
  end.

(** The fields of a record none of whose fields is quoted. *)
Fixpoint comma_fields (s : string) : list string :=
  match s with
  | EmptyString => [EmptyString]
  | String c s' =>
      if Ascii.eqb c "," then EmptyString :: comma_fields s'
      else
        match comma_fields s' with
        | [] => [String c EmptyString]
        | f :: fs => String c f :: fs
        end
  end.

(** Before [ensure_dirs]: no regular file is in the way, and nothing that
    would be an output file is a directory. *)
Definition fs_ready (fs : fsys) : Prop :=
  files fs !! "results" = None ∧ files fs !! "figures" = None ∧
  ∀ p, p ∈ dirs fs → dirname p ≠ "results" ∧ dirname p ≠ "figures".

(** After [ensure_dirs]. *)
Definition out_ready (fs : fsys) : Prop :=
  "results" ∈ dirs fs ∧ "figures" ∈ dirs fs ∧
  ∀ p, p ∈ dirs fs → dirname p ≠ "results" ∧ dirname p ≠ "figures".

Definition csv_path (name : string) : string := path_join "results" (name +:+ ".csv").

Definition table_path (name : string) : string := path_join "results" (name +:+ "_table.tex").

(** A file written under ["w"] ends up with exactly what was written. *)
Definition put_file (path content : string) (fs : fsys) : option fsys :=
  if decide (can_open path fs)
  then Some (Fsys (dirs fs) (<[path := content]> (files fs)))
  else None.

(** The text of a file cut into its lines, each ended by a line feed. *)
Fixpoint lf_lines (s : string) : list string :=
  match s with
  | EmptyString => []
  | String c s' =>
      if Ascii.eqb c "010" then EmptyString :: lf_lines s'
      else
        match lf_lines s' with
        | [] => [String c EmptyString]
        | l :: ls => String c l :: ls
        end
  end.

(** A string that holds no line feed. *)
Definition no_lf (s : string) : Prop :=
  str_exists (λ c, Ascii.eqb c "010") s = false.

(** The file [plot_single] saves the figure of a key to. *)
Definition figure_path (name : string) : string :=
  path_join "figures" (name +:+ ".png").

(** The file [plot_comparison] saves its figure to. *)
Definition comparison_path : string := path_join "figures" "comparison.png".

End text_vocabulary.

(** ** The harness *)

Section harness_vocabulary.
Context `{Runtime}.
Local Open Scope string_scope.
Local Open Scope list_scope.

Definition csv_line (row : Z * pyfloat) : string :=
  csv_row [pretty row.1; repr_float row.2].

Definition csv_content (rows : list (Z * pyfloat)) : string :=
  csv_row ["n"; "time_s"] +:+ str_concat (csv_line <$> rows).

Definition table_line (row : Z * pyfloat) : string :=
  pretty row.1 +:+ " & " +:+ format_6f row.2 +:+ "\\" +:+ LF.

Definition table_content (name : string) (rows : list (Z * pyfloat)) : string :=
  ("\begin{table}[H]" +:+ LF) +:+ ("\centering" +:+ LF) +:+
  ("\caption{" +:+ str_title (replace_underscores name) +:+ " Results}" +:+ LF) +:+
  ("\begin{tabular}{rr}" +:+ LF) +:+ ("\toprule" +:+ LF) +:+
  ("n & time (s)\\" +:+ LF) +:+ ("\midrule" +:+ LF) +:+
  str_concat (table_line <$> rows) +:+
  ("\bottomrule" +:+ LF) +:+ ("\end{tabular}" +:+ LF) +:+ ("\end{table}" +:+ LF).

(** The export step of [main] for one algorithm, without the plot. *)
Definition export (name : string) (rows : list (Z * pyfloat)) (fs : fsys)
  : option fsys :=
  fs ← write_csv name rows fs;
  write_table name rows fs.

(** The smaller of the running best and a new reading, as [time_run]
    compares them. *)
Definition pick (best elapsed : pyfloat) : pyfloat :=
  if float_ltb elapsed best then elapsed else best.

Definition pick3 (e0 e1 e2 : pyfloat) : pyfloat := pick (pick e0 e1) e2.

(** The duration measured between two successive clock readings. *)
Definition elapsed_at (c : nat) : pyfloat :=
  float_sub (perf_counter (S c)) (perf_counter c).

Definition best_at (c : nat) : pyfloat :=
  pick3 (elapsed_at c) (elapsed_at (2 + c)) (elapsed_at (4 + c)).

(** [r] is one of the readings and none of them is below it. *)
Definition minimum_of (r : pyfloat) (l : list pyfloat) : Prop :=
  r ∈ l ∧ ∀ e, e ∈ l → float_ltb e r = false.

(** [<] on the floats that occur is a strict order. *)
Class FloatOrder : Prop := {
  float_ltb_irrefl : ∀ x, float_ltb x x = false;
  float_ltb_trans : ∀ x y z,
    float_ltb x y = true → float_ltb y z = true → float_ltb x z = true;
}.

(** What one trial does to the world. *)
Definition trial_effect (a : list Z) (w w' : Lab2.world) : Prop :=
  Lab2.objs w ⊆ Lab2.objs w' ∧
  Lab2.clock w' = 2 + Lab2.clock w ∧
  Lab2.rng w' = Lab2.rng w ∧ Lab2.fs w' = Lab2.fs w ∧
  Lab2.stdout w' = Lab2.stdout w ∧
  ∃ d, Lab2.objs w !! d = None ∧ Lab2.calls w' = Lab2.calls w ++ [(d, a)].

(** What [time_run] does to the world: three copies are made and passed,
    six clock readings are taken, nothing that existed is changed. *)
Definition run_effect (a : list Z) (w w' : Lab2.world) : Prop :=
  Lab2.objs w ⊆ Lab2.objs w' ∧
  Lab2.clock w' = 6 + Lab2.clock w ∧
  Lab2.rng w' = Lab2.rng w ∧ Lab2.fs w' = Lab2.fs w ∧
  Lab2.stdout w' = Lab2.stdout w ∧
  ∃ d1 d2 d3,
    Lab2.objs w !! d1 = None ∧ Lab2.objs w !! d2 = None ∧ Lab2.objs w !! d3 = None ∧
    Lab2.calls w' = Lab2.calls w ++ [(d1, a); (d2, a); (d3, a)].

(** What holds between two algorithms in [main]. *)
Definition main_inv (σ : store) (contents : Z → list Z) (before : list (list Z))
    (pre : list (string * (string * (nat → loc → store → option (loc * store)))))
    (st : list (string * string * list (Z * pyfloat)) * Lab2.world) : Prop :=
  (λ r, r.1.1) <$> st.1 = pre.*1 ∧
  Forall (λ r, r.2.*1 = Lab2.INPUT_SIZES) st.1 ∧
  out_ready (Lab2.fs st.2) ∧ σ ⊆ Lab2.objs st.2 ∧
  (Lab2.calls st.2).*2
    = before ++ concat ((λ _, expected_calls contents Lab2.INPUT_SIZES) <$> pre).

(** Files written one after the other, each replacing what its path held. *)
Definition put_all (l : list (string * string)) (m : gmap string string)
  : gmap string string :=
  foldl (λ m pc, <[pc.1 := pc.2]> m) m l.

(** The three calls [time_run] makes for each size. *)
Definition repeated_calls (sizes : list Z) : list Z :=
  concat ((λ n, [n; n; n]) <$> sizes).

(** The paths written for a list of keys, and the comparison figure. *)
Definition output_paths (keys : list string) : list string :=
  concat ((λ key, [csv_path key; table_path key; figure_path key]) <$> keys)
  ++ [comparison_path].

(** The rows measured from clock reading [c] on: for each size the best of
    the three durations read for it, six readings per size. *)
Fixpoint timed_rows (c : nat) (sizes : list Z) : list (Z * pyfloat) :=
  match sizes with
  | [] => []
  | n :: sizes => (n, best_at c) :: timed_rows (6 + c) sizes
  end.

(** The results of the registry entries, measured one after the other. *)
Fixpoint timed_results {F : Type} (sizes : list Z) (c : nat)
    (entries : list (string * (string * F)))
  : list (string * string * list (Z * pyfloat)) :=
  match entries with
  | [] => []
  | entry :: entries =>
      (entry.1, entry.2.1, timed_rows c sizes)
      :: timed_results sizes (6 * length sizes + c) entries
  end.

(** The three files written for one entry of [all_results]. *)
Definition output_files (xlabel : string) (r : string * string * list (Z * pyfloat))
  : list (string * string) :=
  [ (csv_path r.1.1, csv_content r.2);
    (table_path r.1.1, table_content r.1.1 r.2);
    (figure_path r.1.1, png_single xlabel r.1.2 r.2) ].

(** All the files [main] writes, in the order it writes them. *)
Definition written_files (xlabel heading : string)
    (all_results : list (string * string * list (Z * pyfloat)))
  : list (string * string) :=
  concat (output_files xlabel <$> all_results)
  ++ [ (comparison_path,
        png_comparison heading ((λ '(_, title, rows), (title, rows)) <$> all_results)) ].

(** The list made of the [n] draws that follow the first [k]. *)
Definition drawn (k : nat) (n : Z) : list Z :=
  (λ i, randint (k + i) 0 (10 * n)) <$> seq 0 (Z.to_nat n).

(** The array of size [n] when the arrays of [sizes], pairwise different,
    are drawn one after the other, the first [k] draws being spent. *)
Fixpoint drawn_arrays (k : nat) (sizes : list Z) (n : Z) : list Z :=
  match sizes with
  | [] => []
  | m :: sizes =>
      if decide (m = n) then drawn k m
      else drawn_arrays (k + Z.to_nat m) sizes n
  end.

(** The lines printed for the rows of one algorithm. *)
Definition progress_lines (title : string) (rows : list (Z * pyfloat)) : list string :=
  (λ row, format_progress title row.1 row.2) <$> rows.

End harness_vocabulary.

(** Clock readings are tick counts, one tick per reading. *)
Definition tick_runtime : Runtime := {|
  pyfloat := Z;
  float_sub := Z.sub;
  float_ltb := Z.ltb;
  float_zero := 0%Z;
  perf_counter := Z.of_nat;
  repr_float := pretty;
  format_6f := pretty;
  str_title := id;
  randint := λ _ a _, a;
  png_single := λ _ _ _, EmptyString;
  png_comparison := λ _ _, EmptyString;
  format_progress := λ _ _ _, EmptyString;
|}.

(** * Proofs *)

Ltac get_insert :=
  repeat first
    [ rewrite list_lookup_total_insert_eq by (rewrite ?length_insert; lia)
    | rewrite list_lookup_total_insert_ne by lia ].

Section fibonacci_proofs.
Local Open Scope Z_scope.
Ltac dlia := Z.to_euclidean_division_equations; lia.

Section fib_facts.

Lemma fib_SS (n : nat) : fib (S (S n)) = fib n + fib (S n).
Proof. reflexivity. Qed.

Lemma fib_nonneg (n : nat) : 0 <= fib n /\ 0 <= fib (S n).
Proof.
  induction n as [|n [IH1 IH2]]; [simpl; lia|].
  split; [exact IH2|]. rewrite fib_SS. lia.
Qed.

(** Addition formula. *)
Lemma fib_add (a b : nat) :
  fib (a + S b) = fib (S a) * fib (S b) + fib a * fib b.
Proof.
  revert b.
  enough (H : ∀ b, fib (a + S b) = fib (S a) * fib (S b) + fib a * fib b
                 ∧ fib (S a + S b) = fib (S (S a)) * fib (S b) + fib (S a) * fib b)
    by (intros b; apply H).
  induction a as [|a IH]; intros b.
  - split.
    + change (fib (S b) = 1 * fib (S b) + 0 * fib b). ring.
    + change (fib (S (S b)) = 1 * fib (S b) + 1 * fib b). rewrite fib_SS. ring.
  - destruct (IH b) as [H1 H2]. split; [exact H2|].
    change (S (S a) + S b)%nat with (S (S (a + S b))).
    rewrite fib_SS. change (S (a + S b)) with (S a + S b)%nat.
    rewrite H1, H2, (fib_SS (S a)), (fib_SS a). ring.
Qed.

Lemma fib_double_odd (k : nat) :
  fib (2 * k + 1) = fib k * fib k + fib (S k) * fib (S k).
Proof.
  replace (2 * k + 1)%nat with (k + S k)%nat by lia.
  rewrite fib_add. ring.
Qed.

Lemma fib_double_even (k : nat) :
  fib (2 * k) = fib k * (2 * fib (S k) - fib k).
Proof.
  destruct k as [|k]; [reflexivity|].
  replace (2 * S k)%nat with (k + S (S k))%nat by lia.
  rewrite fib_add, (fib_SS k). ring.
Qed.

End fib_facts.

(** ** fib_iterative *)
Lemma iterative_loop (k m : nat) :
  Nat.iter k (λ '(a, b), (b, a + b)) (fib m, fib (S m))
  = (fib (k + m), fib (S (k + m))).
Proof.
  induction k as [|k IH]; [reflexivity|].
  rewrite Nat.iter_succ, IH. cbn [Nat.add]. by rewrite fib_SS.
Qed.

Lemma fib_iterative_spec (n : Z) : Lab1.fib_iterative n = fibZ n.
Proof.
  unfold Lab1.fib_iterative, fibZ.
  pose proof (iterative_loop (Z.to_nat n) 0) as H.
  rewrite Nat.add_0_r in H. change (fib 0, fib 1) with (0, 1) in H.
  by rewrite H.
Qed.

(** ** fib_fast_doubling *)
Lemma nat_parity (k : nat) : ∃ q : nat, (k = 2 * q ∨ k = 2 * q + 1)%nat.
Proof.
  exists (k / 2)%nat.
  pose proof (Nat.div_mod_eq k 2). pose proof (Nat.mod_upper_bound k 2). lia.
Qed.

Lemma pow2_half (fuel : nat) (q : Z) (r : Z) :
  0 <= r → 2 * q + r < 2 ^ Z.of_nat (S fuel) → q < 2 ^ Z.of_nat fuel.
Proof.
  rewrite Nat2Z.inj_succ, Z.pow_succ_r by lia. lia.
Qed.

(** [solve k] needs one frame per binary digit of [k], plus one. *)
Lemma solve_spec (fuel : nat) :
  ∀ k : nat, Z.of_nat k < 2 ^ Z.of_nat fuel →
    Lab1.solve (S fuel) (Z.of_nat k) = Some (fib k, fib (S k)).
Proof.
  induction fuel as [|fuel IH]; intros k Hk.
  { assert (k = 0%nat) as -> by (change (2 ^ Z.of_nat 0) with 1 in Hk; lia).
    reflexivity. }
  remember (S fuel) as fuel' eqn:Hfuel. cbn [Lab1.solve]. subst fuel'.
  destruct (Z.eqb_spec (Z.of_nat k) 0) as [H0|H0].
  { assert (k = 0%nat) as -> by lia. reflexivity. }
  destruct (nat_parity k) as [q [-> | ->]].
  - replace (Z.of_nat (2 * q) / 2) with (Z.of_nat q) by dlia.
    replace (Z.of_nat (2 * q) mod 2) with 0 by dlia.
    replace (S (2 * q)) with (2 * q + 1)%nat by lia.
    rewrite fib_double_even, fib_double_odd, IH.
    + reflexivity.
    + apply (pow2_half fuel _ 0); lia.
  - replace (Z.of_nat (2 * q + 1) / 2) with (Z.of_nat q) by dlia.
    replace (Z.of_nat (2 * q + 1) mod 2) with 1 by dlia.
    replace (S (2 * q + 1)) with (S (S (2 * q))) by lia.
    rewrite fib_SS.
    replace (S (2 * q)) with (2 * q + 1)%nat by lia.
    rewrite fib_double_even, fib_double_odd, IH.
    + cbn [mbind option_bind Z.eqb]. do 2 f_equal.
    + apply (pow2_half fuel _ 1); lia.
Qed.

Lemma fib_fast_doubling_spec (fuel : nat) (n : Z) :
  0 <= n < 2 ^ Z.of_nat fuel → Lab1.fib_fast_doubling (S fuel) n = Some (fibZ n).
Proof.
  intros Hn. unfold Lab1.fib_fast_doubling, fibZ.
  rewrite <- (Z2Nat.id n) at 1 by lia.
  rewrite solve_spec by lia. reflexivity.
Qed.

(** A negative argument never reaches the base case. *)
Lemma solve_negative (fuel : nat) (k : Z) : k < 0 → Lab1.solve fuel k = None.
Proof.
  revert k. induction fuel as [|fuel IH]; intros k Hk; [reflexivity|].
  cbn [Lab1.solve]. destruct (Z.eqb_spec k 0); [lia|].
  rewrite IH; [reflexivity|]. apply Z.div_lt_upper_bound; lia.
Qed.

(** ** fib_matrix_fast *)

Lemma fib_add' (a b : nat) :
  fib (a + b) = fib (S a) * fib b + fib a * (fib (S b) - fib b).
Proof.
  destruct b as [|b].
  - rewrite Nat.add_0_r. change (fib a = fib (S a) * 0 + fib a * (1 - 0)). ring.
  - rewrite fib_add, fib_SS. ring.
Qed.

Lemma mat_mul_fib (a b : nat) :
  Lab1.mat_mul (fib_mat a) (fib_mat b) = fib_mat (a + b).
Proof.
  unfold Lab1.mat_mul, fib_mat; cbn [Lab1.m00 Lab1.m01 Lab1.m10 Lab1.m11].
  pose proof (fib_add a b) as H1. rewrite Nat.add_succ_r in H1.
  pose proof (fib_add' a b) as H2.
  pose proof (fib_add' b a) as H3. rewrite (Nat.add_comm b a) in H3.
  f_equal; lia.
Qed.

(** The loop of [mat_pow] runs once per binary digit of [p]. *)
Lemma mat_pow_loop_spec (fuel : nat) :
  ∀ (r b p : nat), Z.of_nat p < 2 ^ Z.of_nat fuel →
    Lab1.mat_pow_loop fuel (fib_mat r) (fib_mat b) (Z.of_nat p)
    = Some (fib_mat (r + b * p)).
Proof.
  induction fuel as [|fuel IH]; intros r b p Hp.
  { assert (p = 0%nat) as -> by (change (2 ^ Z.of_nat 0) with 1 in Hp; lia).
    by rewrite Nat.mul_0_r, Nat.add_0_r. }
  cbn [Lab1.mat_pow_loop].
  destruct (Z.gtb_spec (Z.of_nat p) 0) as [Hpos|Hz].
  2:{ assert (p = 0%nat) as -> by lia. by rewrite Nat.mul_0_r, Nat.add_0_r. }
  rewrite Z.shiftr_div_pow2 by lia.
  change 1 with (Z.ones 1) at 1. rewrite Z.land_ones by lia.
  change (2 ^ 1) with 2.
  destruct (nat_parity p) as [q [-> | ->]].
  - replace (Z.of_nat (2 * q) / 2) with (Z.of_nat q) by dlia.
    replace (Z.of_nat (2 * q) mod 2) with 0 by dlia.
    cbn [Z.eqb negb]. rewrite mat_mul_fib, IH.
    + do 2 f_equal. lia.
    + apply (pow2_half fuel _ 0); lia.
  - replace (Z.of_nat (2 * q + 1) / 2) with (Z.of_nat q) by dlia.
    replace (Z.of_nat (2 * q + 1) mod 2) with 1 by dlia.
    cbn [Z.eqb negb]. rewrite !mat_mul_fib, IH.
    + do 2 f_equal. lia.
    + apply (pow2_half fuel _ 1); lia.
Qed.

Lemma fib_matrix_fast_spec (fuel : nat) (n : Z) :
  0 <= n < 2 ^ Z.of_nat fuel → Lab1.fib_matrix_fast fuel n = Some (fibZ n).
Proof.
  intros Hn. unfold Lab1.fib_matrix_fast, Lab1.mat_pow, fibZ.
  destruct (Z.eqb_spec n 0) as [->|Hne]; [reflexivity|].
  change (Lab1.Mat2 1 0 0 1) with (fib_mat 0).
  change (Lab1.Mat2 1 1 1 0) with (fib_mat 1).
  rewrite <- (Z2Nat.id n) at 1 by lia.
  rewrite mat_pow_loop_spec by lia. cbn. do 2 f_equal. lia.
Qed.

(** ** fib_memoized *)

Lemma memo_upto_init : memo_upto 1 {[0 := 0; 1 := 1]}.
Proof.
  intros i. destruct (decide (i = 0)) as [->|]; [reflexivity|].
  destruct (decide (i = 1)) as [->|]; [reflexivity|].
  rewrite lookup_insert_ne, lookup_singleton_ne by done.
  case_decide; [lia|done].
Qed.

Lemma memo_upto_in m memo (i : nat) :
  memo_upto m memo → (i <= m)%nat → memo !! Z.of_nat i = Some (fib i).
Proof.
  intros H Hi. rewrite H. case_decide; [|lia]. unfold fibZ. by rewrite Nat2Z.id.
Qed.

Lemma memo_upto_out m memo (i : Z) :
  memo_upto m memo → Z.of_nat m < i → memo !! i = None.
Proof. intros H Hi. rewrite H. case_decide; [lia|done]. Qed.

Lemma memo_upto_extend m memo :
  memo_upto (S m) memo →
  memo_upto (S (S m)) (<[Z.of_nat (S (S m)) := fib (S m) + fib m]> memo).
Proof.
  intros H i. destruct (decide (i = Z.of_nat (S (S m)))) as [->|Hne].
  - rewrite lookup_insert_eq. case_decide; [|lia].
    unfold fibZ. rewrite Nat2Z.id, fib_SS. f_equal. ring.
  - rewrite lookup_insert_ne by done. rewrite H.
    repeat case_decide; try done; lia.
Qed.

(** Processing the entry on top of the stack: after at most
    [max 1 (2 * (k - m) - 1)] iterations the entry is gone and the table
    reaches up to [max m k]. *)
Lemma memo_loop_top (d : nat) :
  ∀ (k m : nat) memo rest,
    memo_upto m memo → (1 <= m)%nat → (k - m <= d)%nat →
    ∃ (c : nat) memo',
      (c <= Nat.max 1 (2 * (k - m) - 1))%nat ∧
      memo_upto (Nat.max m k) memo' ∧
      ∀ fuel, Lab1.memo_loop (c + fuel) memo (Z.of_nat k :: rest)
              = Lab1.memo_loop fuel memo' rest.
Proof.
  induction d as [d IH] using lt_wf_ind.
  intros k m memo rest Hm Hm1 Hd.
  destruct (le_gt_dec k m) as [Hle|Hgt].
  { (* already memoised *)
    exists 1%nat, memo. split; [lia|]. split.
    { by replace (Nat.max m k) with m by lia. }
    intros fuel. cbn [Nat.add Lab1.memo_loop].
    rewrite (memo_upto_in m memo k Hm Hle).
    destruct (decide (is_Some (Some (fib k)))) as [|Hn]; [done|].
    exfalso. apply Hn. by eexists. }
  assert (Hk : memo !! Z.of_nat k = None) by (apply (memo_upto_out m); [done|lia]).
  destruct (decide (k = S m)) as [->|Hne].
  { (* both predecessors are known *)
    destruct m as [|m]; [lia|].
    exists 1%nat, (<[Z.of_nat (S (S m)) := fib (S m) + fib m]> memo).
    split; [lia|]. split.
    { replace (Nat.max (S m) (S (S m))) with (S (S m)) by lia.
      by apply memo_upto_extend. }
    intros fuel. cbn [Nat.add Lab1.memo_loop]. rewrite Hk.
    destruct (decide (is_Some None)) as [[? ?]|_]; [done|].
    replace (Z.of_nat (S (S m)) - 1) with (Z.of_nat (S m)) by lia.
    replace (Z.of_nat (S (S m)) - 2) with (Z.of_nat m) by lia.
    rewrite (memo_upto_in (S m) memo (S m)), (memo_upto_in (S m) memo m) by (done || lia).
    reflexivity. }
  (* [k >= m + 2]: the entry is pushed back under its predecessors *)
  assert (Hk1 : memo !! (Z.of_nat k - 1) = None) by (apply (memo_upto_out m); [done|lia]).
  destruct (decide (k = S (S m))) as [->|Hne2].
  - destruct (IH 1%nat ltac:(lia) (S m) m memo (Z.of_nat (S (S m)) :: rest) Hm Hm1 ltac:(lia))
      as (c1 & memo1 & Hc1 & Hm1' & Hrun1).
    replace (Nat.max m (S m)) with (S m) in Hm1' by lia.
    destruct (IH 1%nat ltac:(lia) (S (S m)) (S m) memo1 rest Hm1' ltac:(lia) ltac:(lia))
      as (c2 & memo2 & Hc2 & Hm2' & Hrun2).
    exists (S (c1 + c2)), memo2. split; [lia|]. split.
    { by replace (Nat.max m (S (S m))) with (Nat.max (S m) (S (S m))) by lia. }
    intros fuel. cbn [Nat.add Lab1.memo_loop]. rewrite Hk.
    destruct (decide (is_Some None)) as [[? ?]|_]; [done|].
    rewrite Hk1.
    replace (Z.of_nat (S (S m)) - 2) with (Z.of_nat m) by lia.
    rewrite (memo_upto_in m memo m) by (done || lia).
    replace (Z.of_nat (S (S m)) - 1) with (Z.of_nat (S m)) by lia.
    rewrite <- Nat.add_assoc, Hrun1, Hrun2. reflexivity.
  - assert (Hk2 : memo !! (Z.of_nat k - 2) = None) by (apply (memo_upto_out m); [done|lia]).
    destruct k as [|[|k]]; [lia|lia|].
    destruct (IH (k - m)%nat ltac:(lia) k m memo
                (Z.of_nat (S k) :: Z.of_nat (S (S k)) :: rest) Hm Hm1 ltac:(lia))
      as (c0 & memo0 & Hc0 & Hm0' & Hrun0).
    replace (Nat.max m k) with k in Hm0' by lia.
    destruct (IH 1%nat ltac:(lia) (S k) k memo0 (Z.of_nat (S (S k)) :: rest)
                Hm0' ltac:(lia) ltac:(lia))
      as (c1 & memo1 & Hc1 & Hm1' & Hrun1).
    replace (Nat.max k (S k)) with (S k) in Hm1' by lia.
    destruct (IH 1%nat ltac:(lia) (S (S k)) (S k) memo1 rest Hm1' ltac:(lia) ltac:(lia))
      as (c2 & memo2 & Hc2 & Hm2' & Hrun2).
    exists (S (c0 + (c1 + c2))), memo2. split; [lia|]. split.
    { by replace (Nat.max m (S (S k))) with (Nat.max (S k) (S (S k))) by lia. }
    intros fuel. cbn [Nat.add Lab1.memo_loop]. rewrite Hk.
    destruct (decide (is_Some None)) as [[? ?]|_]; [done|].
    rewrite Hk1, Hk2.
    replace (Z.of_nat (S (S k)) - 2) with (Z.of_nat k) by lia.
    replace (Z.of_nat (S (S k)) - 1) with (Z.of_nat (S k)) by lia.
    rewrite <- !Nat.add_assoc, Hrun0, Hrun1, Hrun2. reflexivity.
Qed.

Lemma memo_loop_spec (fuel : nat) (n : Z) :
  2 <= n → 2 * n <= Z.of_nat fuel →
  ∃ memo, Lab1.memo_loop fuel {[0 := 0; 1 := 1]} [n] = Some memo
          ∧ memo_upto (Z.to_nat n) memo.
Proof.
  intros Hn Hfuel.
  destruct (memo_loop_top (Z.to_nat n - 1) (Z.to_nat n) 1 _ [] memo_upto_init
              ltac:(lia) ltac:(lia)) as (c & memo & Hc & Hok & Hrun).
  exists memo. split.
  - replace fuel with (c + (fuel - c))%nat by lia.
    rewrite <- (Z2Nat.id n) at 1 by lia. rewrite Hrun. by destruct (fuel - c)%nat.
  - by replace (Nat.max 1 (Z.to_nat n)) with (Z.to_nat n) in Hok by lia.
Qed.

Lemma fib_memoized_spec (fuel : nat) (n : Z) :
  0 <= n → 2 * n <= Z.of_nat fuel → Lab1.fib_memoized fuel n = Some (fibZ n).
Proof.
  intros Hn Hfuel. unfold Lab1.fib_memoized.
  destruct (Z.ltb_spec n 2) as [Hlt|Hge].
  - assert (n = 0 ∨ n = 1) as [-> | ->] by lia; reflexivity.
  - destruct (memo_loop_spec fuel n Hge Hfuel) as (memo & -> & Hok).
    cbn. rewrite Hok. case_decide; [done|lia].
Qed.

(** ** fib_binomial *)

Section binomial_facts.

Lemma binom_0_r n : binom n 0 = 1.
Proof. by destruct n. Qed.

Lemma binom_S n k : binom (S n) (S k) = binom n k + binom n (S k).
Proof. reflexivity. Qed.

Lemma binom_gt n : ∀ k, (n < k)%nat → binom n k = 0.
Proof.
  induction n as [|n IH]; intros [|k] Hk; try lia; [reflexivity|].
  rewrite binom_S, !IH by lia. reflexivity.
Qed.

Lemma binom_absorb n :
  ∀ k, Z.of_nat (S k) * binom (S n) (S k) = Z.of_nat (S n) * binom n k.
Proof.
  induction n as [|n IH]; intros k.
  - destruct k as [|k]; [reflexivity|].
    rewrite (binom_gt 1 (S (S k))), (binom_gt 0 (S k)) by lia. ring.
  - destruct k as [|k].
    + rewrite binom_S, !binom_0_r. specialize (IH 0%nat).
      rewrite binom_0_r in IH. rewrite !Nat2Z.inj_succ in *. nia.
    + rewrite binom_S. pose proof (IH k) as H1. pose proof (IH (S k)) as H2.
      rewrite (binom_S n k) in *. rewrite !Nat2Z.inj_succ in *. nia.
Qed.

Lemma binom_upper n k :
  Z.of_nat (S k) * binom n (S k) = (Z.of_nat n - Z.of_nat k) * binom n k.
Proof.
  pose proof (binom_absorb n k) as H. rewrite binom_S in H.
  rewrite !Nat2Z.inj_succ in *. nia.
Qed.

Lemma binom_lower n k :
  Z.of_nat (S n) * binom n k = (Z.of_nat (S n) - Z.of_nat k) * binom (S n) k.
Proof.
  destruct k as [|k]; [rewrite !binom_0_r; lia|].
  pose proof (binom_absorb n k) as H. pose proof (binom_upper n k) as H'.
  rewrite binom_S in *. rewrite !Nat2Z.inj_succ in *. nia.
Qed.

(** The update of [term] in the loop of [fib_binomial] is an exact division. *)
Lemma binom_next (m k : nat) :
  binom (S m) k * ((Z.of_nat (S m) - Z.of_nat k) * (Z.of_nat m - Z.of_nat k))
  = binom m (S k) * (Z.of_nat (S k) * Z.of_nat (S m)).
Proof.
  pose proof (binom_upper m k) as H1. pose proof (binom_lower m k) as H2.
  transitivity ((Z.of_nat m - Z.of_nat k) * (Z.of_nat (S m) * binom m k)).
  - rewrite H2. ring.
  - transitivity (Z.of_nat (S m) * (Z.of_nat (S k) * binom m (S k))).
    + rewrite H1. ring.
    + ring.
Qed.

Lemma diag_sum_pascal N :
  ∀ j, (j <= S N)%nat →
    diag_sum (S (S N)) (S j) = diag_sum (S N) (S j) + diag_sum N j.
Proof.
  induction j as [|j IH]; intros Hj.
  - cbn [diag_sum]. rewrite !binom_0_r. ring.
  - change (diag_sum (S (S N)) (S (S j)))
      with (diag_sum (S (S N)) (S j) + binom (S (S N) - S j) (S j)).
    change (diag_sum (S N) (S (S j)))
      with (diag_sum (S N) (S j) + binom (S N - S j) (S j)).
    change (diag_sum N (S j)) with (diag_sum N j + binom (N - j) j).
    rewrite IH by lia.
    replace (S (S N) - S j)%nat with (S (N - j)) by lia.
    replace (S N - S j)%nat with (N - j)%nat by lia.
    rewrite binom_S. ring.
Qed.

Lemma diag_sum_full N : diag_sum N (S N) = fib (S N).
Proof.
  enough (H : diag_sum N (S N) = fib (S N) ∧ diag_sum (S N) (S (S N)) = fib (S (S N)))
    by apply H.
  induction N as [|N [IH1 IH2]]; [split; reflexivity|].
  split; [exact IH2|].
  change (diag_sum (S (S N)) (S (S (S N))))
    with (diag_sum (S (S N)) (S (S N)) + binom (S (S N) - S (S N)) (S (S N))).
  rewrite Nat.sub_diag, (binom_gt 0 (S (S N))) by lia.
  rewrite diag_sum_pascal by lia. rewrite IH1, IH2, (fib_SS (S N)). ring.
Qed.

(** Terms past the middle of the diagonal vanish. *)
Lemma diag_sum_trunc N (j : nat) :
  (N < 2 * j)%nat → ∀ e, diag_sum N (j + e) = diag_sum N j.
Proof.
  intros Hj. induction e as [|e IH]; [by rewrite Nat.add_0_r|].
  rewrite Nat.add_succ_r. cbn [diag_sum]. rewrite IH, binom_gt by lia. ring.
Qed.

Lemma diag_sum_half N : diag_sum N (S (N / 2)) = fib (S N).
Proof.
  rewrite <- diag_sum_full.
  pose proof (Nat.div_mod_eq N 2). pose proof (Nat.mod_upper_bound N 2 ltac:(lia)).
  replace (S N) with (S (N / 2) + (N - N / 2))%nat by lia.
  symmetry. apply diag_sum_trunc. lia.
Qed.

End binomial_facts.

Lemma binomial_loop (N : nat) (len : nat) :
  ∀ (j : nat) (term : Z),
    (j + len = S (N / 2))%nat →
    (0 < len → term = binom (N - j) j)%nat →
    ∃ term',
      for_loop (Lab1.binomial_body (Z.of_nat (S N)) (Z.of_nat (N / 2)))
        (term, diag_sum N j) (seqZ (Z.of_nat j) (Z.of_nat len))
      = Some (term', diag_sum N (j + len)).
Proof.
  induction len as [|len IH]; intros j term Hlen Hterm.
  { exists term. rewrite Nat.add_0_r. reflexivity. }
  rewrite seqZ_cons by lia. cbn [for_loop].
  replace (Z.succ (Z.of_nat j)) with (Z.of_nat (S j)) by lia.
  replace (Z.pred (Z.of_nat (S len))) with (Z.of_nat len) by lia.
  rewrite Hterm by lia. unfold Lab1.binomial_body at 1.
  change (diag_sum N j + binom (N - j) j) with (diag_sum N (S j)).
  replace (j + S len)%nat with (S j + len)%nat by lia.
  pose proof (Nat.div_mod_eq N 2). pose proof (Nat.mod_upper_bound N 2 ltac:(lia)).
  destruct (Z.ltb_spec (Z.of_nat j) (Z.of_nat (N / 2))) as [Hlt|Hge].
  - (* another term follows *)
    assert (Hm : (N - j = S (N - S j))%nat) by lia.
    set (m := (N - S j)%nat) in *.
    unfold floordiv.
    assert (Hden : (Z.of_nat j + 1) * (Z.of_nat (S N) - Z.of_nat j - 1)
                   = Z.of_nat (S j) * Z.of_nat (S m)) by lia.
    assert (Hnum : (Z.of_nat (S N) - 2 * Z.of_nat j - 1) * (Z.of_nat (S N) - 2 * Z.of_nat j - 2)
                   = (Z.of_nat (S m) - Z.of_nat j) * (Z.of_nat m - Z.of_nat j)) by lia.
    rewrite Hden, Hnum, Hm, binom_next.
    destruct (Z.eqb_spec (Z.of_nat (S j) * Z.of_nat (S m)) 0) as [Hz|Hz]; [lia|].
    rewrite Z.div_mul by done. cbn [mbind option_bind].
    apply IH; [lia|]. intros _. reflexivity.
  - (* last iteration: [term] is left alone *)
    assert (len = 0%nat) as -> by lia.
    exists (binom (N - j) j). by rewrite Nat.add_0_r.
Qed.

Lemma fib_binomial_spec (n : Z) : 0 <= n → Lab1.fib_binomial n = Some (fibZ n).
Proof.
  intros Hn. unfold Lab1.fib_binomial, fibZ.
  destruct (Z.eqb_spec n 0) as [->|Hne]; [reflexivity|].
  destruct (Z.to_nat n) as [|N] eqn:HN; [lia|].
  assert (n = Z.of_nat (S N)) as -> by lia.
  replace ((Z.of_nat (S N) - 1) / 2) with (Z.of_nat (N / 2)).
  2:{ rewrite (Nat2Z.inj_div N 2). f_equal. lia. }
  destruct (binomial_loop N (S (N / 2)) 0 1 ltac:(lia)) as [t Ht].
  { intros _. by rewrite Nat.sub_0_r, binom_0_r. }
  replace (Z.of_nat (N / 2) + 1) with (Z.of_nat (S (N / 2))) by lia.
  change (1, 0) with (1, diag_sum N 0).
  change 0 with (Z.of_nat 0) at 1. rewrite Ht.
  cbn [fmap option_fmap option_map snd Nat.add].
  by rewrite diag_sum_half.
Qed.
End fibonacci_proofs.

Section quicksort_mergesort_proofs.

(** * Store lemmas *)

Lemma alloc_spec (l : list Z) (σ σ' : store) (a : loc) :
  alloc l σ = (a, σ') → σ !! a = None ∧ σ' !! a = Some l ∧ σ ⊆ σ'.
Proof.
  unfold alloc. intros [= <- <-].
  assert (H : σ !! fresh (dom σ) = None).
  { apply not_elem_of_dom. apply is_fresh. }
  split; [exact H|]. split; [apply lookup_insert_eq|by apply insert_subseteq].
Qed.

Lemma Sorted_short (l : list Z) : length l ≤ 1 → Sorted Z.le l.
Proof.
  destruct l as [|x [|y l]]; cbn; intros H.
  - constructor.
  - repeat constructor.
  - lia.
Qed.

Lemma StronglySorted_const (p : Z) (l : list Z) :
  (∀ x, x ∈ l → x = p) → StronglySorted Z.le l.
Proof.
  induction l as [|x l IH]; intros H; constructor.
  - apply IH. intros y Hy. apply H. by right.
  - apply Forall_forall. intros y Hy.
    assert (x = p) by (apply H; by left).
    assert (y = p) by (apply H; by right). lia.
Qed.

(** ** quicksort *)

Lemma partition_Permutation (p : Z) (a : list Z) :
  (filter (λ x, x < p)%Z a ++ filter (λ x, x = p) a) ++ filter (λ x, x > p)%Z a ≡ₚ a.
Proof.
  induction a as [|x a IH]; [done|].
  rewrite !filter_cons.
  destruct (decide (x < p)%Z), (decide (x = p)), (decide (x > p)%Z); try lia.
  - cbn. by constructor.
  - rewrite <- app_assoc. cbn. rewrite <- Permutation_middle, app_assoc.
    by constructor.
  - rewrite <- Permutation_middle. by constructor.
Qed.

Lemma quicksort_spec (fuel : nat) :
  ∀ (arr : loc) (σ : store) (a : list Z),
    σ !! arr = Some a → length a < fuel →
    sorted_result σ a (Lab2.quicksort fuel arr σ).
Proof.
  induction fuel as [|fuel IH]; intros arr σ a Ha Hlen; [lia|].
  cbn [Lab2.quicksort]. rewrite Ha. cbn [mbind option_bind].
  destruct (Nat.leb_spec (length a) 1) as [Hshort|Hlong].
  { exists arr, σ, a. repeat split; [done|done|by apply Sorted_short|done]. }
  assert (Hpiv : is_Some (a !! (length a / 2))).
  { apply lookup_lt_is_Some. apply Nat.div_lt; lia. }
  destruct Hpiv as [p Hp]. unfold list_get. rewrite Hp. cbn [mbind option_bind].
  assert (Hin : p ∈ a) by (apply list_elem_of_lookup; eauto).
  destruct (alloc (filter (λ x, x < p)%Z a) σ) as [lo σ1] eqn:E1.
  destruct (alloc (filter (λ x, x = p) a) σ1) as [mi σ2] eqn:E2.
  destruct (alloc (filter (λ x, x > p)%Z a) σ2) as [hi σ3] eqn:E3.
  apply alloc_spec in E1 as (_ & Hlo & S1).
  apply alloc_spec in E2 as (_ & Hmi & S2).
  apply alloc_spec in E3 as (_ & Hhi & S3).
  destruct (IH lo σ3 (filter (λ x, x < p)%Z a)) as (sl & σ4 & l1 & -> & S4 & Hl1 & Sl1 & Pl1).
  { eapply lookup_weaken; [|exact S3]. eapply lookup_weaken; [exact Hlo|exact S2]. }
  { pose proof (length_filter_lt (λ x, x < p)%Z a p Hin). lia. }
  cbn [mbind option_bind].
  destruct (IH hi σ4 (filter (λ x, x > p)%Z a)) as (sr & σ5 & l3 & -> & S5 & Hl3 & Sl3 & Pl3).
  { eapply lookup_weaken; [exact Hhi|exact S4]. }
  { pose proof (length_filter_lt (λ x, x > p)%Z a p Hin). lia. }
  cbn [mbind option_bind].
  rewrite (lookup_weaken _ _ _ _ Hl1 S5). cbn [mbind option_bind].
  assert (Hmi5 : σ5 !! mi = Some (filter (λ x, x = p) a)).
  { eapply lookup_weaken; [|exact S5]. eapply lookup_weaken; [|exact S4].
    eapply lookup_weaken; [exact Hmi|exact S3]. }
  rewrite Hmi5, Hl3. cbn [mbind option_bind].
  destruct (alloc ((l1 ++ filter (λ x, x = p) a) ++ l3) σ5) as [r σ6] eqn:E6.
  apply alloc_spec in E6 as (_ & Hr & S6).
  exists r, σ6, ((l1 ++ filter (λ x, x = p) a) ++ l3).
  split; [done|]. split.
  { etrans; [exact S1|]. etrans; [exact S2|]. etrans; [exact S3|].
    etrans; [exact S4|]. etrans; [exact S5|]. exact S6. }
  split; [exact Hr|]. split.
  - apply StronglySorted_Sorted.
    apply StronglySorted_app_2; [|apply StronglySorted_app_2|].
    + intros x y Hx Hy. rewrite Pl3 in Hy. apply list_elem_of_filter in Hy as [Hy _].
      apply elem_of_app in Hx as [Hx|Hx].
      * rewrite Pl1 in Hx. apply list_elem_of_filter in Hx as [Hx _]. lia.
      * apply list_elem_of_filter in Hx as [Hx _]. lia.
    + intros x y Hx Hy. rewrite Pl1 in Hx. apply list_elem_of_filter in Hx as [Hx _].
      apply list_elem_of_filter in Hy as [Hy _]. lia.
    + apply Sorted_StronglySorted; [apply _|done].
    + apply (StronglySorted_const p). intros x Hx.
      by apply list_elem_of_filter in Hx as [Hx _].
    + apply Sorted_StronglySorted; [apply _|done].
  - rewrite Pl1, Pl3. apply partition_Permutation.
Qed.

(** ** merge_sort *)

Lemma merge_loop_spec (left_ right_ : list Z) (fuel : nat) :
  ∀ (result : list Z) (i j : nat),
    (length left_ - i) + (length right_ - j) ≤ fuel →
    ∃ result' i' j',
      Lab2.merge_loop fuel left_ right_ result i j = Some (result', i', j') ∧
      (result' ++ drop i' left_) ++ drop j' right_
      = result ++ list_merge Z.le (drop i left_) (drop j right_).
Proof.
  induction fuel as [|fuel IH]; intros result i j Hfuel.
  - exists result, i, j.
    assert (Hc : (i <? length left_) && (j <? length right_) = false).
    { apply andb_false_iff. rewrite !Nat.ltb_ge. lia. }
    cbn [Lab2.merge_loop]. rewrite Hc. split; [done|].
    apply andb_false_iff in Hc as [Hc|Hc]; apply Nat.ltb_ge in Hc.
    + rewrite (drop_ge left_ i) by done. by rewrite list_merge_nil_l, app_nil_r.
    + rewrite (drop_ge right_ j) by done. by rewrite list_merge_nil_r, app_nil_r.
  - cbn [Lab2.merge_loop].
    destruct ((i <? length left_) && (j <? length right_)) eqn:Hc.
    + apply andb_true_iff in Hc as [Hi Hj].
      apply Nat.ltb_lt in Hi, Hj.
      destruct (lookup_lt_is_Some_2 left_ i Hi) as [x Hx].
      destruct (lookup_lt_is_Some_2 right_ j Hj) as [y Hy].
      unfold list_get. rewrite Hx, Hy. cbn [mbind option_bind].
      rewrite (drop_S _ _ _ Hx), (drop_S _ _ _ Hy), list_merge_cons.
      destruct (Z.leb_spec x y) as [Hle|Hgt].
      * destruct (IH (result ++ [x]) (S i) j ltac:(lia)) as (r' & i' & j' & -> & Heq).
        exists r', i', j'. split; [done|]. rewrite Heq.
        rewrite decide_True by done. rewrite <- app_assoc. cbn.
        by rewrite (drop_S _ _ _ Hy).
      * destruct (IH (result ++ [y]) i (S j) ltac:(lia)) as (r' & i' & j' & -> & Heq).
        exists r', i', j'. split; [done|]. rewrite Heq.
        rewrite decide_False by lia. rewrite <- app_assoc. cbn.
        by rewrite (drop_S _ _ _ Hx).
    + exists result, i, j. split; [done|].
      apply andb_false_iff in Hc as [Hc|Hc]; apply Nat.ltb_ge in Hc.
      * rewrite (drop_ge left_ i) by done. by rewrite list_merge_nil_l, app_nil_r.
      * rewrite (drop_ge right_ j) by done. by rewrite list_merge_nil_r, app_nil_r.
Qed.

Lemma _merge_spec (fuel : nat) (left_ right_ : list Z) :
  length left_ + length right_ ≤ fuel →
  Lab2._merge fuel left_ right_ = Some (list_merge Z.le left_ right_).
Proof.
  intros Hfuel. unfold Lab2._merge.
  destruct (merge_loop_spec left_ right_ fuel [] 0 0 ltac:(lia))
    as (r' & i' & j' & -> & Heq).
  cbn [mbind option_bind]. by rewrite Heq.
Qed.

Lemma merge_sort_spec (fuel : nat) :
  ∀ (arr : loc) (σ : store) (a : list Z),
    σ !! arr = Some a → length a < fuel →
    sorted_result σ a (Lab2.merge_sort fuel arr σ).
Proof.
  induction fuel as [|fuel IH]; intros arr σ a Ha Hlen; [lia|].
  cbn [Lab2.merge_sort]. rewrite Ha. cbn [mbind option_bind].
  destruct (Nat.leb_spec (length a) 1) as [Hshort|Hlong].
  { exists arr, σ, a. repeat split; [done|done|by apply Sorted_short|done]. }
  assert (Hmid : 1 ≤ length a / 2 < length a).
  { split; [apply Nat.div_le_lower_bound; lia|apply Nat.div_lt; lia]. }
  destruct (alloc (take (length a / 2) a) σ) as [lo σ1] eqn:E1.
  apply alloc_spec in E1 as (_ & Hlo & S1).
  destruct (IH lo σ1 _ Hlo) as (sl & σ2 & l1 & -> & S2 & Hl1 & Sl1 & Pl1).
  { rewrite length_take. lia. }
  cbn [mbind option_bind].
  assert (Ha2 : σ2 !! arr = Some a).
  { eapply lookup_weaken; [|exact S2]. eapply lookup_weaken; [exact Ha|exact S1]. }
  rewrite Ha2. cbn [mbind option_bind].
  destruct (alloc (drop (length a / 2) a) σ2) as [hi σ3] eqn:E3.
  apply alloc_spec in E3 as (_ & Hhi & S3).
  destruct (IH hi σ3 _ Hhi) as (sr & σ4 & l2 & -> & S4 & Hl2 & Sl2 & Pl2).
  { rewrite length_drop. lia. }
  cbn [mbind option_bind].
  assert (Hl1' : σ4 !! sl = Some l1).
  { eapply lookup_weaken; [|exact S4]. eapply lookup_weaken; [exact Hl1|exact S3]. }
  rewrite Hl1', Hl2. cbn [mbind option_bind].
  rewrite _merge_spec.
  2:{ rewrite (Permutation_length Pl1), (Permutation_length Pl2),
        length_take, length_drop. lia. }
  cbn [mbind option_bind].
  destruct (alloc (list_merge Z.le l1 l2) σ4) as [r σ5] eqn:E5.
  apply alloc_spec in E5 as (_ & Hr & S5).
  exists r, σ5, (list_merge Z.le l1 l2). split; [done|]. split.
  { etrans; [exact S1|]. etrans; [exact S2|]. etrans; [exact S3|].
    etrans; [exact S4|]. exact S5. }
  split; [exact Hr|]. split.
  - by apply (Sorted_list_merge _).
  - rewrite merge_Permutation, Pl1, Pl2. by rewrite take_drop.
Qed.
End quicksort_mergesort_proofs.

Section heapsort_proofs.

(** * Arrays updated in place *)

Lemma insert_Permutation (l : list Z) :
  ∀ (i : nat) (x y : Z), l !! i = Some x → y :: l ≡ₚ x :: <[i := y]> l.
Proof.
  induction l as [|h t IH]; intros [|i] x y Hx; try done.
  - cbn in Hx. injection Hx as ->. cbn. apply perm_swap.
  - cbn in Hx. cbn [list_insert insert]. change (<[S i:=y]> (h :: t)) with (h :: <[i:=y]> t).
    rewrite perm_swap, (IH i x y Hx). apply perm_swap.
Qed.

(** Exchanging two entries permutes the list. *)
Lemma swap_Permutation (l : list Z) (i j : nat) :
  i < length l → j < length l →
  <[j := l !!! i]> (<[i := l !!! j]> l) ≡ₚ l.
Proof.
  intros Hi Hj. destruct (decide (i = j)) as [->|Hne].
  { rewrite list_insert_insert_eq, list_insert_id; [done|].
    by apply list_lookup_lookup_total_lt. }
  apply (Permutation_cons_inv (a := l !!! j)).
  rewrite <- (insert_Permutation (<[i:=l !!! j]> l) j (l !!! j) (l !!! i)).
  2:{ rewrite list_lookup_insert_ne by done. by apply list_lookup_lookup_total_lt. }
  symmetry. apply insert_Permutation.
  by apply list_lookup_lookup_total_lt.
Qed.

Lemma list_get_total (l : list Z) (i : nat) :
  i < length l → list_get l i = Some (l !!! i).
Proof. apply list_lookup_lookup_total_lt. Qed.

Lemma list_set_total (l : list Z) (i : nat) (x : Z) :
  i < length l → list_set l i x = Some (<[i := x]> l).
Proof. intros H. unfold list_set. by destruct (Nat.ltb_spec i (length l)); [|lia]. Qed.

Lemma sorted_upto_Sorted (l : list Z) : sorted_upto (length l) l → Sorted Z.le l.
Proof.
  intros H. apply StronglySorted_Sorted.
  induction l as [|x l IH]; constructor.
  - apply IH. intros j k Hjk Hk. apply (H (S j) (S k)); cbn; lia.
  - apply Forall_forall. intros y Hy.
    apply list_elem_of_lookup_total in Hy as (k & Hk & <-).
    apply (H 0 (S k)); cbn; lia.
Qed.

(** * heapsort *)

Section heapify.
Variable fuel : nat.
Hypothesis IH :
  ∀ a n s i, n ≤ length a → s ≤ i → n - i < fuel → heap_except a n s i →
    heapify_post a n s (Lab2._heapify fuel a n i).

Lemma heapify_stay a n s i :
  heap_except a n s i → heap_node a n i → heapify_post a n s (Some a).
Proof.
  intros [H1 H2] Hi.
  exists a. repeat split; try done.
  all: destruct (decide (k = i)) as [->|]; [apply Hi|by apply H1].
Qed.

Lemma heapify_tail_swap a n s i c :
  n ≤ length a → s ≤ i → n - i < S fuel → heap_except a n s i →
  c = 2 * i + 1 ∨ c = 2 * i + 2 → c < n →
  Z.lt (a !!! i) (a !!! c) →
  (2 * i + 1 < n → Z.le (a !!! (2 * i + 1)) (a !!! c)) →
  (2 * i + 2 < n → Z.le (a !!! (2 * i + 2)) (a !!! c)) →
  heapify_post a n s (heapify_tail fuel a n i c).
Proof.
  intros Hn Hs Hfuel [H1 H2] Hc Hcn Hgt HL HR. unfold heapify_tail.
  destruct (Nat.eqb_spec c i) as [?|Hne]; [lia|].
  rewrite (list_get_total a c) by lia. cbn [mbind option_bind].
  rewrite list_set_total by lia. cbn [mbind option_bind].
  rewrite list_set_total by (rewrite length_insert; lia). cbn [mbind option_bind].
  set (a2 := <[c := a !!! i]> (<[i := a !!! c]> a)).
  assert (Hlen2 : length a2 = length a) by (unfold a2; by rewrite !length_insert).
  assert (Hget : ∀ k, k ≠ i → k ≠ c → a2 !!! k = a !!! k).
  { intros k ??. unfold a2. by get_insert. }
  assert (Hgi : a2 !!! i = a !!! c) by (unfold a2; by get_insert).
  assert (Hgc : a2 !!! c = a !!! i) by (unfold a2; by get_insert).
  destruct (IH a2 n s c) as (a' & -> & Hlen' & Hheap & Hperm & Hdrop).
  { lia. } { lia. } { lia. }
  { split.
    - intros k Hk Hkc. destruct (decide (k = i)) as [->|Hki].
      + unfold heap_node. rewrite Hgi. split; intros Hlt.
        * destruct (decide (c = 2 * i + 1)) as [<-|?]; [rewrite Hgc; lia|].
          rewrite Hget by lia. auto.
        * destruct (decide (c = 2 * i + 2)) as [<-|?]; [rewrite Hgc; lia|].
          rewrite Hget by lia. auto.
      + destruct (H1 k Hk Hki) as [Ha Hb].
        unfold heap_node. rewrite (Hget k) by lia. split; intros Hlt.
        * destruct (decide (2 * k + 1 = i)) as [Hp|?].
          { rewrite Hp, Hgi. apply (H2 k c); auto with lia. }
          rewrite Hget by lia. auto.
        * destruct (decide (2 * k + 2 = i)) as [Hp|?].
          { rewrite Hp, Hgi. apply (H2 k c); auto with lia. }
          rewrite Hget by lia. auto.
    - intros k g Hk Hkc Hg Hgn. assert (k = i) as -> by lia.
      rewrite Hgi, Hget by lia.
      destruct (H1 c ltac:(lia) Hne) as [Ha Hb].
      destruct Hg as [-> | ->]; auto. }
  exists a'. split; [done|]. split; [lia|]. split; [done|]. split.
  - rewrite Hperm. unfold a2.
    rewrite !take_insert_lt by lia.
    rewrite <- (lookup_total_take_lt a n i), <- (lookup_total_take_lt a n c) by lia.
    apply swap_Permutation; rewrite length_take; lia.
  - rewrite Hdrop. unfold a2. by rewrite !drop_insert_lt by lia.
Qed.
End heapify.

Lemma heapify_spec (fuel : nat) :
  ∀ a n s i, n ≤ length a → s ≤ i → n - i < fuel → heap_except a n s i →
    heapify_post a n s (Lab2._heapify fuel a n i).
Proof.
  induction fuel as [|fuel IH]; intros a n s i Hn Hs Hfuel Hex; [lia|].
  cbn [Lab2._heapify].
  destruct (Nat.ltb_spec (2 * i + 1) n) as [HL|HL].
  - rewrite (list_get_total a (2 * i + 1)), (list_get_total a i) by lia.
    cbn [mbind option_bind].
    destruct (Z.gtb_spec (a !!! (2 * i + 1)) (a !!! i)) as [HgL|HgL].
    + destruct (Nat.ltb_spec (2 * i + 2) n) as [HR|HR].
      * rewrite (list_get_total a (2 * i + 2)), (list_get_total a (2 * i + 1)) by lia.
        cbn [mbind option_bind].
        destruct (Z.gtb_spec (a !!! (2 * i + 2)) (a !!! (2 * i + 1))) as [HgR|HgR].
        -- apply (heapify_tail_swap fuel IH a n s i (2 * i + 2)); auto with lia.
        -- apply (heapify_tail_swap fuel IH a n s i (2 * i + 1)); auto with lia.
      * cbn [mbind option_bind].
        apply (heapify_tail_swap fuel IH a n s i (2 * i + 1)); auto with lia.
    + destruct (Nat.ltb_spec (2 * i + 2) n) as [HR|HR].
      * rewrite (list_get_total a (2 * i + 2)), (list_get_total a i) by lia.
        cbn [mbind option_bind].
        destruct (Z.gtb_spec (a !!! (2 * i + 2)) (a !!! i)) as [HgR|HgR].
        -- apply (heapify_tail_swap fuel IH a n s i (2 * i + 2)); auto with lia.
        -- rewrite Nat.eqb_refl.
           apply (heapify_stay a n s i); [done|]. split; lia.
      * cbn [mbind option_bind]. rewrite Nat.eqb_refl.
        apply (heapify_stay a n s i); [done|]. split; lia.
  - cbn [mbind option_bind].
    destruct (Nat.ltb_spec (2 * i + 2) n) as [HR|HR]; [lia|].
    cbn [mbind option_bind]. rewrite Nat.eqb_refl.
    apply (heapify_stay a n s i); [done|]. split; lia.
Qed.

Lemma rev_seq_S (start len : nat) :
  rev (seq start (S len)) = (start + len) :: rev (seq start len).
Proof. by rewrite seq_S, rev_app_distr. Qed.

(** First loop: the heap order is established from the last parent down. *)
Lemma heapsort_build_loop (fuel n : nat) :
  ∀ (m : nat) (a : list Z),
    n ≤ length a → n < fuel → heap_from a n m →
    heapify_post a n 0
      (for_loop (λ arr i, Lab2._heapify fuel arr n i) a (rev (seq 0 m))).
Proof.
  induction m as [|m IHm]; intros a Hn Hfuel Hheap.
  { exists a. split; [done|]. split; [done|]. split; [done|]. by split. }
  rewrite rev_seq_S. cbn [for_loop Nat.add].
  destruct (heapify_spec fuel a n m m Hn ltac:(lia) ltac:(lia))
    as (a1 & -> & Hlen1 & Hheap1 & Hperm1 & Hdrop1).
  { split.
    - intros k Hk Hne. apply Hheap. lia.
    - intros k c Hk Hc. lia. }
  destruct (IHm a1 ltac:(lia) Hfuel Hheap1) as (a2 & -> & Hlen2 & Hheap2 & Hperm2 & Hdrop2).
  exists a2. split; [done|]. split; [lia|]. split; [done|].
  split; [by rewrite Hperm2|by rewrite Hdrop2].
Qed.

(** In a heap the root is a maximum. *)
Lemma heap_root_max (a : list Z) (m : nat) :
  heap_from a m 0 → ∀ j, j < m → Z.le (a !!! j) (a !!! 0).
Proof.
  intros Hheap j. induction j as [j IH] using lt_wf_ind. intros Hj.
  destruct j as [|j]; [lia|].
  destruct (Nat.Even_or_Odd j) as [[p Hp]|[p Hp]].
  - destruct (Hheap p ltac:(lia)) as [H1 _].
    replace (S j) with (2 * p + 1) by lia.
    etrans; [apply H1; lia|]. apply IH; lia.
  - destruct (Hheap p ltac:(lia)) as [_ H2].
    replace (S j) with (2 * p + 2) by lia.
    etrans; [apply H2; lia|]. apply IH; lia.
Qed.

Lemma lookup_total_of_drop (a a' : list Z) (n k : nat) :
  drop n a' = drop n a → n ≤ k → a' !!! k = a !!! k.
Proof.
  intros H Hk. replace k with (n + (k - n)) by lia.
  by rewrite <- !lookup_total_drop, H.
Qed.

Lemma lookup_total_of_take (a a' : list Z) (n j : nat) :
  take n a' ≡ₚ take n a → length a' = length a → n ≤ length a → j < n →
  ∃ j', j' < n ∧ a' !!! j = a !!! j'.
Proof.
  intros Hperm Hlen Hn Hj.
  assert (Hin : a' !!! j ∈ take n a').
  { rewrite <- (lookup_total_take_lt a' n j) by done.
    apply list_elem_of_lookup_total_2. rewrite length_take. lia. }
  rewrite Hperm in Hin.
  apply list_elem_of_lookup_total in Hin as (j' & Hj' & Heq).
  rewrite length_take in Hj'. exists j'. split; [lia|].
  by rewrite lookup_total_take_lt in Heq by lia.
Qed.

(** Second loop: the maximum is moved behind the shrinking heap. *)
Lemma heapsort_extract_loop (fuel n : nat) :
  ∀ (m : nat) (a : list Z),
    length a = n → n < fuel → m ≤ n →
    heap_from a m 0 → settled_from m n a →
    ∃ a', for_loop
            (λ arr i,
               x ← list_get arr i;
               y ← list_get arr 0;
               arr ← list_set arr 0 x;
               arr ← list_set arr i y;
               Lab2._heapify fuel arr i 0)
            a (rev (seq 1 (m - 1))) = Some a'
          ∧ a' ≡ₚ a ∧ sorted_upto n a'.
Proof.
  induction m as [|m IHm]; intros a Hlen Hfuel Hm Hheap Hset.
  { exists a. repeat split; [done|]. intros j k Hjk Hk. apply Hset; lia. }
  destruct m as [|m].
  { exists a. repeat split; [done|]. intros j k Hjk Hk.
    destruct (decide (k = 0)) as [->|]; [|apply Hset; lia].
    assert (j = 0) as -> by lia. done. }
  replace (S (S m) - 1) with (S m) by lia.
  rewrite rev_seq_S. cbn [for_loop]. replace (1 + m) with (S m) by lia.
  rewrite (list_get_total a (S m)), (list_get_total a 0) by lia.
  cbn [mbind option_bind].
  rewrite list_set_total by lia. cbn [mbind option_bind].
  rewrite list_set_total by (rewrite length_insert; lia). cbn [mbind option_bind].
  set (a1 := <[S m := a !!! 0]> (<[0 := a !!! S m]> a)).
  assert (Hlen1 : length a1 = n) by (unfold a1; by rewrite !length_insert).
  assert (Hget : ∀ k, k ≠ 0 → k ≠ S m → a1 !!! k = a !!! k).
  { intros k ??. unfold a1. by get_insert. }
  assert (Hg0 : a1 !!! 0 = a !!! S m) by (unfold a1; by get_insert).
  assert (Hgm : a1 !!! S m = a !!! 0) by (unfold a1; by get_insert).
  assert (Hperm1 : a1 ≡ₚ a) by (apply swap_Permutation; lia).
  pose proof (heap_root_max a (S (S m)) Hheap) as Hmax.
  destruct (heapify_spec fuel a1 (S m) 0 0) as (a2 & -> & Hlen2 & Hheap2 & Hperm2 & Hdrop2).
  { lia. } { lia. } { lia. }
  { split.
    - intros k _ Hk. destruct (Hheap k ltac:(lia)) as [H1 H2].
      unfold heap_node.
      split; intros Hlt; rewrite (Hget k), Hget by lia; [apply H1|apply H2]; lia.
    - intros k c _ Hc. lia. }
  assert (Hset1 : settled_from (S m) n a1).
  { intros j k Hjk Hmk Hk. destruct (decide (k = S m)) as [->|Hne].
    - rewrite Hgm. destruct (decide (j = 0)) as [->|]; [rewrite Hg0; apply Hmax; lia|].
      destruct (decide (j = S m)) as [->|]; [rewrite Hgm; lia|].
      rewrite Hget by lia. apply Hmax. lia.
    - rewrite (Hget k) by lia.
      destruct (decide (j = 0)) as [->|]; [rewrite Hg0; apply Hset; lia|].
      destruct (decide (j = S m)) as [->|]; [rewrite Hgm; apply Hset; lia|].
      rewrite Hget by lia. apply Hset; lia. }
  destruct (IHm a2 ltac:(lia) Hfuel ltac:(lia) Hheap2) as (a3 & Hrun & Hperm3 & Hsorted3).
  { intros j k Hjk Hmk Hk.
    rewrite (lookup_total_of_drop a1 a2 (S m) k Hdrop2 Hmk).
    destruct (le_lt_dec (S m) j) as [Hj|Hj].
    - rewrite (lookup_total_of_drop a1 a2 (S m) j Hdrop2 Hj). by apply Hset1.
    - destruct (lookup_total_of_take a1 a2 (S m) j Hperm2) as (j' & Hj' & ->); try lia.
      apply Hset1; lia. }
  replace (S m - 1) with m in Hrun by lia. rewrite Hrun.
  exists a3. split; [done|]. split; [|done].
  rewrite Hperm3, <- Hperm1.
  rewrite <- (take_drop (S m) a2), <- (take_drop (S m) a1).
  by rewrite Hperm2, Hdrop2.
Qed.

Lemma heapsort_spec (fuel : nat) (arr : loc) (σ : store) (a : list Z) :
  σ !! arr = Some a → length a < fuel →
  sorted_result σ a (Lab2.heapsort fuel arr σ).
Proof.
  intros Ha Hfuel. unfold Lab2.heapsort. rewrite Ha. cbn [mbind option_bind].
  destruct (alloc a σ) as [c σ1] eqn:E1.
  apply alloc_spec in E1 as (Hfresh & Hc & S1).
  rewrite Hc. cbn [mbind option_bind].
  destruct (heapsort_build_loop fuel (length a) (length a / 2) a)
    as (a1 & Hb & Hlen1 & Hheap1 & Hperm1 & _); [lia|lia| |].
  { intros k Hk. pose proof (Nat.div_mod_eq (length a) 2).
    pose proof (Nat.mod_upper_bound (length a) 2 ltac:(lia)).
    split; lia. }
  unfold Lab2.heapsort_build. rewrite Hb. cbn [mbind option_bind].
  destruct (heapsort_extract_loop fuel (length a) (length a) a1)
    as (a2 & He & Hperm2 & Hsorted); [lia|lia|lia|done| |].
  { intros j k Hjk Hk Hlt. lia. }
  unfold Lab2.heapsort_extract. rewrite He. cbn [mbind option_bind].
  exists c, (<[c := a2]> σ1), a2. split; [done|]. split.
  { by apply insert_subseteq_r. }
  split; [apply lookup_insert_eq|]. split.
  - apply sorted_upto_Sorted.
    by rewrite (Permutation_length Hperm2), Hlen1.
  - rewrite Hperm2. rewrite !firstn_all2 in Hperm1 by lia. done.
Qed.
End heapsort_proofs.

Section shellsort_proofs.

(** * shell_sort *)

(** The inner loop keeps the multiset once [temp] is put back at [j]. *)
Lemma shell_shift_perm (gap : nat) (temp : Z) (fuel : nat) :
  ∀ (arr : list Z) (j : nat),
    1 ≤ gap → j < length arr → j < fuel →
    ∃ arr' j',
      Lab2.shell_shift fuel arr gap temp j = Some (arr', j') ∧
      j' ≤ j ∧ length arr' = length arr ∧
      <[j' := temp]> arr' ≡ₚ <[j := temp]> arr.
Proof.
  induction fuel as [|fuel IH]; intros arr j Hgap Hj Hfuel; [lia|].
  cbn [Lab2.shell_shift].
  destruct (Nat.leb_spec gap j) as [Hge|Hlt].
  2:{ exists arr, j. by repeat split. }
  rewrite (list_get_total arr (j - gap)) by lia. cbn [mbind option_bind].
  destruct (Z.gtb_spec (arr !!! (j - gap)) temp) as [Hgt|Hle].
  2:{ exists arr, j. by repeat split. }
  rewrite list_set_total by lia. cbn [mbind option_bind].
  destruct (IH (<[j := arr !!! (j - gap)]> arr) (j - gap) Hgap)
    as (arr' & j' & -> & Hj' & Hlen' & Hperm'); [rewrite length_insert; lia|lia|].
  exists arr', j'. split; [done|]. split; [lia|].
  split; [by rewrite Hlen', length_insert|].
  rewrite Hperm'.
  set (b := <[j := temp]> arr).
  assert (Hb1 : b !!! (j - gap) = arr !!! (j - gap)) by (unfold b; by get_insert).
  assert (Hb2 : b !!! j = temp) by (unfold b; by get_insert).
  etrans; [|apply (swap_Permutation b (j - gap) j); unfold b; rewrite length_insert; lia].
  rewrite Hb1, Hb2. unfold b.
  rewrite (list_insert_insert_ne arr (j - gap) j temp temp) by lia.
  rewrite list_insert_insert_eq.
  by rewrite (list_insert_insert_ne arr j (j - gap)) by lia.
Qed.

Lemma insertion_inv_done (i : nat) (temp : Z) (arr : list Z) (j : nat) :
  insertion_inv i temp arr j →
  (1 ≤ j → Z.le (arr !!! (j - 1)) temp) →
  sorted_upto (S i) (<[j := temp]> arr).
Proof.
  intros (Hji & Hi & Hord & Hbig) Hleft p q Hpq Hq.
  destruct (decide (q = j)) as [->|Hqj]; destruct (decide (p = j)) as [->|Hpj];
    get_insert.
  - lia.
  - etrans; [|apply Hleft; lia].
    destruct (decide (p = j - 1)) as [->|]; [lia|]. apply Hord; lia.
  - apply Z.lt_le_incl, Hbig; lia.
  - apply Hord; lia.
Qed.

Lemma shell_shift_sorted (i : nat) (temp : Z) (fuel : nat) :
  ∀ (arr : list Z) (j : nat),
    insertion_inv i temp arr j → j < fuel →
    ∃ arr' j',
      Lab2.shell_shift fuel arr 1 temp j = Some (arr', j') ∧
      sorted_upto (S i) (<[j' := temp]> arr').
Proof.
  induction fuel as [|fuel IH]; intros arr j Hinv Hfuel; [lia|].
  pose proof Hinv as (Hji & Hi & Hord & Hbig).
  cbn [Lab2.shell_shift].
  destruct (Nat.leb_spec 1 j) as [Hge|Hlt].
  2:{ exists arr, j. split; [done|]. apply insertion_inv_done; [done|lia]. }
  rewrite (list_get_total arr (j - 1)) by lia. cbn [mbind option_bind].
  destruct (Z.gtb_spec (arr !!! (j - 1)) temp) as [Hgt|Hle].
  2:{ exists arr, j. split; [done|]. by apply insertion_inv_done. }
  rewrite list_set_total by lia. cbn [mbind option_bind].
  apply IH; [|lia].
  split; [lia|]. split; [by rewrite length_insert|]. split.
  - intros p q Hpq Hq Hp1 Hq1.
    destruct (decide (q = j)) as [->|Hqj]; destruct (decide (p = j)) as [->|Hpj];
      get_insert.
    + lia.
    + apply Hord; lia.
    + apply Hord; lia.
    + apply Hord; lia.
  - intros q Hq1 Hq2. destruct (decide (q = j)) as [->|Hqj]; get_insert.
    + lia.
    + apply Hbig; lia.
Qed.

(** The body of the [for] loop. *)
Lemma shell_insert_perm (fuel gap : nat) (arr : list Z) (i : nat) :
  1 ≤ gap → i < length arr → i < fuel →
  ∃ arr', Lab2.shell_insert fuel gap arr i = Some arr' ∧ arr' ≡ₚ arr.
Proof.
  intros Hgap Hi Hfuel. unfold Lab2.shell_insert.
  rewrite list_get_total by lia. cbn [mbind option_bind].
  destruct (shell_shift_perm gap (arr !!! i) fuel arr i Hgap Hi Hfuel)
    as (arr' & j' & -> & Hj' & Hlen' & Hperm').
  cbn [mbind option_bind]. rewrite list_set_total by lia.
  eexists. split; [done|]. rewrite Hperm'.
  rewrite list_insert_id; [done|]. by apply list_lookup_lookup_total_lt.
Qed.

Lemma shell_insert_sorted (fuel : nat) (arr : list Z) (i : nat) :
  1 ≤ i → i < length arr → i < fuel → sorted_upto i arr →
  ∃ arr', Lab2.shell_insert fuel 1 arr i = Some arr' ∧ arr' ≡ₚ arr ∧
          sorted_upto (S i) arr'.
Proof.
  intros Hi1 Hi Hfuel Hsorted.
  destruct (shell_insert_perm fuel 1 arr i ltac:(lia) Hi Hfuel) as (arr1 & Hrun & Hperm).
  exists arr1. split; [done|]. split; [done|].
  unfold Lab2.shell_insert in Hrun.
  rewrite list_get_total in Hrun by lia. cbn [mbind option_bind] in Hrun.
  destruct (shell_shift_sorted i (arr !!! i) fuel arr i) as (arr' & j' & Hs & Hres); [|done|].
  { split; [lia|]. split; [done|]. split.
    - intros p q Hpq Hq Hp' Hq'. apply Hsorted; lia.
    - intros q ??. lia. }
  rewrite Hs in Hrun. cbn [mbind option_bind] in Hrun.
  unfold list_set in Hrun. destruct (j' <? length arr'); [|done].
  by injection Hrun as <-.
Qed.

(** One pass of the [for] loop preserves the multiset. *)
Lemma shell_pass_perm (fuel gap : nat) :
  ∀ (idx : list nat) (arr : list Z),
    1 ≤ gap → Forall (λ i, i < length arr ∧ i < fuel) idx →
    ∃ arr', for_loop (Lab2.shell_insert fuel gap) arr idx = Some arr' ∧ arr' ≡ₚ arr.
Proof.
  induction idx as [|i idx IH]; intros arr Hgap Hidx.
  { by exists arr. }
  apply Forall_cons in Hidx as [[Hi Hf] Hidx]. cbn [for_loop].
  destruct (shell_insert_perm fuel gap arr i Hgap Hi Hf) as (arr1 & -> & Hperm1).
  destruct (IH arr1 Hgap) as (arr2 & -> & Hperm2).
  { by rewrite (Permutation_length Hperm1). }
  exists arr2. split; [done|]. by rewrite Hperm2.
Qed.

(** The pass with [gap = 1] sorts, whatever the earlier passes left. *)
Lemma shell_pass_sorted (fuel : nat) :
  ∀ (len start : nat) (arr : list Z),
    1 ≤ start → start + len = length arr → length arr ≤ fuel →
    sorted_upto start arr →
    ∃ arr', for_loop (Lab2.shell_insert fuel 1) arr (seq start len) = Some arr' ∧
            arr' ≡ₚ arr ∧ sorted_upto (length arr) arr'.
Proof.
  induction len as [|len IH]; intros start arr Hs Hlen Hfuel Hsorted.
  { exists arr. split; [done|]. split; [done|]. by replace (length arr) with start by lia. }
  cbn [seq for_loop].
  destruct (shell_insert_sorted fuel arr start Hs ltac:(lia) ltac:(lia) Hsorted)
    as (arr1 & -> & Hperm1 & Hsorted1).
  pose proof (Permutation_length Hperm1) as Hlen1.
  destruct (IH (S start) arr1 ltac:(lia) ltac:(lia) ltac:(lia) Hsorted1)
    as (arr2 & -> & Hperm2 & Hsorted2).
  exists arr2. split; [done|]. split; [by rewrite Hperm2|]. by rewrite <- Hlen1.
Qed.

Lemma shell_gaps_spec (inner : nat) (fuel : nat) :
  ∀ (gap : nat) (arr : list Z),
    gap ≤ fuel → length arr ≤ inner →
    ∃ arr', Lab2.shell_gaps fuel inner (length arr) gap arr = Some arr' ∧
            arr' ≡ₚ arr ∧ (1 ≤ gap → sorted_upto (length arr) arr').
Proof.
  induction fuel as [|fuel IH]; intros gap arr Hgap Hinner.
  { assert (gap = 0) as -> by lia. exists arr. split; [done|]. split; [done|lia]. }
  cbn [Lab2.shell_gaps].
  destruct (Nat.ltb_spec 0 gap) as [Hpos|Hz].
  2:{ exists arr. split; [done|]. split; [done|lia]. }
  assert (Hhalf : gap / 2 < gap) by (apply Nat.div_lt; lia).
  destruct (decide (gap = 1)) as [->|Hne].
  - change (1 / 2) with 0.
    destruct (decide (length arr = 0)) as [Hnil|Hcons].
    + rewrite Hnil. cbn [Nat.sub seq for_loop mbind option_bind].
      exists arr. split; [by destruct fuel|]. split; [done|].
      intros _ j k ??. lia.
    + destruct (shell_pass_sorted inner (length arr - 1) 1 arr)
        as (arr1 & -> & Hperm1 & Hsorted1); [lia|lia|lia| |].
      { intros j k ??. by assert (j = k) as -> by lia. }
      cbn [mbind option_bind].
      exists arr1. split; [by destruct fuel|]. split; [done|].
      by intros _.
  - destruct (shell_pass_perm inner gap (seq gap (length arr - gap)) arr)
      as (arr1 & -> & Hperm1); [lia| |].
    { apply Forall_forall. intros i Hi. apply elem_of_seq in Hi. lia. }
    cbn [mbind option_bind].
    pose proof (Permutation_length Hperm1) as Hlen1.
    destruct (IH (gap / 2) arr1 ltac:(lia) ltac:(lia)) as (arr2 & Hrun & Hperm2 & Hsorted2).
    rewrite Hlen1 in Hrun. rewrite Hrun.
    exists arr2. split; [done|]. split; [by rewrite Hperm2|].
    intros _. rewrite <- Hlen1. apply Hsorted2.
    apply Nat.div_le_lower_bound; lia.
Qed.

Lemma shell_sort_spec (fuel : nat) (arr : loc) (σ : store) (a : list Z) :
  σ !! arr = Some a → length a < fuel →
  sorted_result σ a (Lab2.shell_sort fuel arr σ).
Proof.
  intros Ha Hfuel. unfold Lab2.shell_sort. rewrite Ha. cbn [mbind option_bind].
  destruct (alloc a σ) as [c σ1] eqn:E1.
  apply alloc_spec in E1 as (Hfresh & Hc & S1).
  rewrite Hc. cbn [mbind option_bind].
  assert (Hhalf : length a / 2 ≤ length a) by (apply Nat.Div0.div_le_upper_bound; lia).
  destruct (shell_gaps_spec fuel fuel (length a / 2) a ltac:(lia) ltac:(lia))
    as (a1 & -> & Hperm & Hsorted).
  cbn [mbind option_bind].
  exists c, (<[c := a1]> σ1), a1. split; [done|].
  split; [by apply insert_subseteq_r|].
  split; [apply lookup_insert_eq|]. split; [|done].
  apply sorted_upto_Sorted. rewrite (Permutation_length Hperm).
  destruct (decide (length a ≤ 1)) as [Hshort|Hlong].
  - intros j k ??. by assert (j = k) as -> by lia.
  - apply Hsorted. apply Nat.div_le_lower_bound; lia.
Qed.
End shellsort_proofs.

Section export_proofs.
Local Open Scope string_scope.
(** * Strings *)

Lemma str_app_cons (c : ascii) (s1 s2 : string) :
  String c s1 +:+ s2 = String c (s1 +:+ s2).
Proof. reflexivity. Qed.

Lemma str_app_nil_l (s : string) : EmptyString +:+ s = s.
Proof. reflexivity. Qed.

Lemma str_app_assoc (s1 s2 s3 : string) : (s1 +:+ s2) +:+ s3 = s1 +:+ (s2 +:+ s3).
Proof.
  induction s1 as [|c s1 IH]; [done|]. by rewrite !str_app_cons, IH.
Qed.

Lemma str_app_nil_r (s : string) : s +:+ EmptyString = s.
Proof. induction s as [|c s IH]; [done|]. by rewrite str_app_cons, IH. Qed.

Lemma str_exists_app (p : ascii → bool) (s1 s2 : string) :
  str_exists p (s1 +:+ s2) = str_exists p s1 || str_exists p s2.
Proof.
  induction s1 as [|c s1 IH]; [done|].
  rewrite str_app_cons. cbn [str_exists]. by rewrite IH, orb_assoc.
Qed.

(** * Paths *)

Lemma upto_last_slash_no_slash (s : string) : no_slash s → upto_last_slash s = EmptyString.
Proof.
  unfold no_slash. induction s as [|c s IH]; [done|].
  cbn [str_exists upto_last_slash].
  intros [Hc Hs]%orb_false_iff. rewrite (IH Hs). cbn [str_empty negb orb].
  by rewrite Ascii.eqb_sym, Hc.
Qed.

Lemma starts_with_no_slash (s : string) : no_slash s → starts_with "/" s = false.
Proof.
  unfold no_slash. destruct s as [|c s]; [done|].
  cbn [str_exists starts_with].
  intros [Hc _]%orb_false_iff. by rewrite Ascii.eqb_sym.
Qed.

(** The paths of the output files of an algorithm whose key has no slash. *)
Lemma path_join_plain (d name : string) :
  no_slash name → str_empty d = false → ends_with "/" d = false →
  path_join d name = d +:+ "/" +:+ name.
Proof.
  intros Hn Hd He. unfold path_join.
  by rewrite (starts_with_no_slash _ Hn), Hd, He.
Qed.

Lemma dirname_results (name : string) :
  no_slash name → dirname ("results/" +:+ name) = "results".
Proof.
  intros Hn. unfold dirname. rewrite !str_app_cons, str_app_nil_l.
  cbn [upto_last_slash]. rewrite (upto_last_slash_no_slash _ Hn). reflexivity.
Qed.

Lemma dirname_figures (name : string) :
  no_slash name → dirname ("figures/" +:+ name) = "figures".
Proof.
  intros Hn. unfold dirname. rewrite !str_app_cons, str_app_nil_l.
  cbn [upto_last_slash]. rewrite (upto_last_slash_no_slash _ Hn). reflexivity.
Qed.

Lemma no_slash_app (s1 s2 : string) : no_slash s1 → no_slash s2 → no_slash (s1 +:+ s2).
Proof. unfold no_slash. intros H1 H2. by rewrite str_exists_app, H1, H2. Qed.

(** * Loops *)

Lemma for_loop_ext {S A : Type} (f g : S → A → option S) (items : list A) :
  (∀ s x, f s x = g s x) → ∀ s, for_loop f s items = for_loop g s items.
Proof.
  intros Hfg. induction items as [|x items IH]; intros s; [done|].
  cbn [for_loop]. rewrite Hfg. destruct (g s x); [apply IH|done].
Qed.

(** * Writing a file *)

Lemma fwrite_spec (path s c : string) (fs : fsys) :
  files fs !! path = Some c →
  fwrite path s fs = Some (Fsys (dirs fs) (<[path := c +:+ s]> (files fs))).
Proof. intros Hc. unfold fwrite. by rewrite Hc. Qed.

Lemma fwrite_put (path s c : string) (d : gset string) (m : gmap string string) :
  fwrite path s (Fsys d (<[path := c]> m)) = Some (Fsys d (<[path := c +:+ s]> m)).
Proof.
  rewrite (fwrite_spec path s c) by apply lookup_insert_eq.
  cbn [dirs files]. by rewrite insert_insert_eq.
Qed.

Lemma fwrite_loop_put {A : Type} (path : string) (g : A → string) (items : list A)
    (d : gset string) (m : gmap string string) (c : string) :
  for_loop (λ fs x, fwrite path (g x) fs) (Fsys d (<[path := c]> m)) items
  = Some (Fsys d (<[path := c +:+ str_concat (g <$> items)]> m)).
Proof.
  revert c. induction items as [|x items IH]; intros c.
  { cbn [for_loop fmap list_fmap str_concat foldr]. by rewrite str_app_nil_r. }
  cbn [for_loop]. rewrite fwrite_put, IH.
  cbn [fmap list_fmap str_concat foldr]. by rewrite str_app_assoc.
Qed.

Lemma fwrite_loop {A : Type} (path : string) (g : A → string) (items : list A) :
  ∀ (d : gset string) (m : gmap string string) (c : string),
    m !! path = Some c →
    for_loop (λ fs x, fwrite path (g x) fs) (Fsys d m) items
    = Some (Fsys d (<[path := c +:+ str_concat (g <$> items)]> m)).
Proof.
  induction items as [|x items IH]; intros d m c Hc.
  { cbn [for_loop fmap list_fmap str_concat foldr]. by rewrite str_app_nil_r, insert_id. }
  cbn [for_loop]. rewrite (fwrite_spec path (g x) c) by done. cbn [dirs files].
  rewrite (IH d _ (c +:+ g x)) by apply lookup_insert_eq.
  rewrite insert_insert_eq. cbn [fmap list_fmap str_concat foldr].
  by rewrite str_app_assoc.
Qed.

Section export_facts.
Context `{Runtime}.

Lemma write_csv_put (name : string) (rows : list (Z * pyfloat)) (fs : fsys) :
  write_csv name rows fs = put_file (csv_path name) (csv_content rows) fs.
Proof.
  unfold write_csv, put_file, open_w. fold (csv_path name).
  destruct (decide (can_open (csv_path name) fs)) as [Hok|Hno]; [|done].
  cbn [mbind option_bind].
  rewrite (fwrite_spec _ _ EmptyString) by apply lookup_insert_eq.
  cbn [mbind option_bind dirs files]. rewrite insert_insert_eq.
  rewrite (for_loop_ext _ (λ fs x, fwrite (csv_path name) (csv_line x) fs))
    by (by intros ? [??]).
  rewrite (fwrite_loop (csv_path name) csv_line rows _ _ (csv_row ["n"; "time_s"]))
    by apply lookup_insert_eq.
  by rewrite insert_insert_eq.
Qed.

Lemma write_table_put (name : string) (rows : list (Z * pyfloat)) (fs : fsys) :
  write_table name rows fs = put_file (table_path name) (table_content name rows) fs.
Proof.
  unfold write_table, put_file, open_w. fold (table_path name).
  destruct (decide (can_open (table_path name) fs)) as [Hok|Hno]; [|done].
  cbn [mbind option_bind].
  repeat (rewrite fwrite_put; cbn [mbind option_bind]).
  rewrite (for_loop_ext _ (λ fs x, fwrite (table_path name) (table_line x) fs))
    by (by intros ? [??]).
  rewrite fwrite_loop_put. cbn [mbind option_bind].
  repeat (rewrite fwrite_put; cbn [mbind option_bind]).
  unfold table_content. by rewrite !str_app_nil_l, !str_app_assoc.
Qed.

Lemma savefig_put (path png : string) (fs : fsys) :
  savefig path png fs = put_file path png fs.
Proof.
  unfold savefig, put_file, open_w.
  destruct (decide (can_open path fs)) as [Hok|Hno]; [|done].
  cbn [mbind option_bind].
  rewrite (fwrite_spec path png EmptyString) by apply lookup_insert_eq.
  cbn [dirs files]. by rewrite insert_insert_eq.
Qed.

Lemma can_open_put (p q content : string) (fs fs' : fsys) :
  put_file q content fs = Some fs' → can_open p fs' ↔ can_open p fs.
Proof.
  unfold put_file. destruct (decide (can_open q fs)); [|done].
  by intros [= <-].
Qed.

(** Writing the same contents again changes nothing, also with another
    file written in between. *)
Lemma put_file_twice (p q c1 c2 : string) (fs fs1 fs2 : fsys) :
  put_file p c1 fs = Some fs1 → put_file q c2 fs1 = Some fs2 →
  put_file p c1 fs2 = Some (Fsys (dirs fs2) (<[p := c1]> (files fs2))) ∧
  put_file q c2 (Fsys (dirs fs2) (<[p := c1]> (files fs2))) = Some fs2.
Proof.
  unfold put_file.
  destruct (decide (can_open p fs)) as [Hp|]; [|done]. intros [= <-].
  cbn [dirs files].
  destruct (decide (can_open q _)) as [Hq|]; [|done]. intros [= <-].
  cbn [dirs files]. rewrite decide_True by done. split; [done|].
  rewrite decide_True by done. f_equal. f_equal.
  apply map_eq. intros k.
  destruct (decide (k = q)) as [->|Hkq].
  - by rewrite !lookup_insert_eq.
  - rewrite (lookup_insert_ne _ q k) by done.
    destruct (decide (k = p)) as [->|Hkp].
    + rewrite lookup_insert_eq. rewrite lookup_insert_ne by done.
      by rewrite lookup_insert_eq.
    + by rewrite !lookup_insert_ne by done.
Qed.

Lemma export_idempotent (name : string) (rows : list (Z * pyfloat)) (fs fs' : fsys) :
  export name rows fs = Some fs' → export name rows fs' = Some fs'.
Proof.
  unfold export. rewrite !write_csv_put.
  destruct (put_file (csv_path name) (csv_content rows) fs) as [fs1|] eqn:E1; [|done].
  cbn [mbind option_bind]. rewrite write_table_put. intros E2.
  destruct (put_file_twice _ _ _ _ _ _ _ E1 E2) as [H1 H2].
  rewrite H1. cbn [mbind option_bind]. by rewrite write_table_put.
Qed.

Lemma export_succeeds (name : string) (rows : list (Z * pyfloat)) (fs : fsys) :
  can_open (csv_path name) fs → can_open (table_path name) fs →
  export name rows fs =
    Some (Fsys (dirs fs)
            (<[table_path name := table_content name rows]>
               (<[csv_path name := csv_content rows]> (files fs)))).
Proof.
  intros Hc Ht. unfold export. rewrite write_csv_put. unfold put_file at 1.
  rewrite decide_True by done. cbn [mbind option_bind].
  rewrite write_table_put. unfold put_file. by rewrite decide_True by done.
Qed.
End export_facts.

(** * The lines of a CSV file *)

Lemma plain_cons (c : ascii) (s : string) :
  plain (String c s) ↔ csv_special c = false ∧ plain s.
Proof. unfold plain. cbn [str_exists]. apply orb_false_iff. Qed.

Lemma csv_field_plain (s : string) : plain s → csv_field s = s.
Proof. unfold plain, csv_field. by intros ->. Qed.

Lemma plain_no_break (s : string) : plain s → no_break s.
Proof.
  unfold plain, no_break. induction s as [|c s IH]; [done|].
  cbn [str_exists]. intros [Hc Hs]%orb_false_iff. rewrite (IH Hs).
  unfold csv_special in Hc. apply orb_false_iff in Hc as [Hc _].
  apply orb_false_iff in Hc as [_ Hc]. by rewrite Hc.
Qed.

Lemma no_break_app (s1 s2 : string) : no_break s1 → no_break s2 → no_break (s1 +:+ s2).
Proof. unfold no_break. intros H1 H2. by rewrite str_exists_app, H1, H2. Qed.

Lemma crlf_lines_app (l rest : string) :
  no_break l → crlf_lines (l +:+ CRLF +:+ rest) = l :: crlf_lines rest.
Proof.
  induction l as [|c l IH]; intros Hl.
  { reflexivity. }
  unfold no_break in Hl. cbn [str_exists] in Hl.
  apply orb_false_iff in Hl as [Hcr Hl].
  rewrite str_app_cons. cbn [crlf_lines].
  rewrite Hcr. cbn [andb].
  rewrite (IH Hl).
  destruct l as [|c' l]; reflexivity.
Qed.

Lemma comma_fields_plain (f : string) : plain f → comma_fields f = [f].
Proof.
  induction f as [|c f IH]; intros Hf; [done|].
  apply plain_cons in Hf as [Hc Hf]. cbn [comma_fields].
  assert (Hcomma : Ascii.eqb c "," = false).
  { unfold csv_special in Hc. apply orb_false_iff in Hc as [Hc _].
    apply orb_false_iff in Hc as [Hc _]. by apply orb_false_iff in Hc as [Hc _]. }
  by rewrite Hcomma, (IH Hf).
Qed.

Lemma comma_fields_app (f rest : string) :
  plain f → comma_fields (f +:+ "," +:+ rest) = f :: comma_fields rest.
Proof.
  induction f as [|c f IH]; intros Hf; [done|].
  apply plain_cons in Hf as [Hc Hf]. rewrite str_app_cons. cbn [comma_fields].
  assert (Hcomma : Ascii.eqb c "," = false).
  { unfold csv_special in Hc. apply orb_false_iff in Hc as [Hc _].
    apply orb_false_iff in Hc as [Hc _]. by apply orb_false_iff in Hc as [Hc _]. }
  by rewrite Hcomma, (IH Hf).
Qed.

Lemma plain_app (s1 s2 : string) : plain s1 → plain s2 → plain (s1 +:+ s2).
Proof. unfold plain. intros H1 H2. by rewrite str_exists_app, H1, H2. Qed.

(** Decimal numerals hold digits and a sign only. *)
Lemma pretty_N_go_plain (x : N) : ∀ s, plain s → plain (pretty_N_go x s).
Proof.
  induction (N.lt_wf_0 x) as [x _ IH]; intros s Hs.
  destruct (decide (0 < x)%N) as [Hpos|Hz].
  - rewrite pretty_N_go_step by done. apply IH; [by apply N.div_lt|].
    apply plain_cons. split; [|done].
    unfold pretty_N_char. by repeat case_match.
  - assert (x = 0%N) as -> by lia. by rewrite pretty_N_go_0.
Qed.

Lemma pretty_N_plain (x : N) : plain (pretty x).
Proof.
  unfold pretty, pretty_N. case_decide; [done|]. by apply pretty_N_go_plain.
Qed.

Lemma pretty_Z_plain (n : Z) : plain (pretty n).
Proof.
  destruct n as [|p|p]; [done|apply pretty_N_plain|].
  apply (plain_app "-"); [done|apply pretty_N_plain].
Qed.

Section csv_facts.
Context `{Runtime}.

Lemma csv_header : csv_row ["n"; "time_s"] = "n,time_s" +:+ CRLF.
Proof. reflexivity. Qed.

Lemma csv_line_unfold (n : Z) (t : pyfloat) :
  csv_line (n, t) = pretty n +:+ "," +:+ csv_field (repr_float t) +:+ CRLF.
Proof.
  unfold csv_line, csv_row. cbn [fmap list_fmap csv_join fst snd].
  by rewrite (csv_field_plain _ (pretty_Z_plain n)), !str_app_assoc.
Qed.

(** When no float is rendered with a comma, a quote or a line break, the
    file has the header line and then one two-field line per row. *)
Lemma csv_content_lines (rows : list (Z * pyfloat)) :
  (∀ t, plain (repr_float t)) →
  crlf_lines (csv_content rows)
  = "n,time_s" :: ((λ row, pretty row.1 +:+ "," +:+ repr_float row.2) <$> rows).
Proof.
  intros Hrepr. unfold csv_content. rewrite csv_header, str_app_assoc.
  rewrite crlf_lines_app by done. f_equal.
  induction rows as [|[n t] rows IH]; [done|].
  cbn [fmap list_fmap str_concat foldr fst snd].
  rewrite csv_line_unfold, (csv_field_plain _ (Hrepr t)).
  rewrite <- !str_app_assoc. rewrite (str_app_assoc _ CRLF).
  rewrite crlf_lines_app.
  - f_equal. apply IH.
  - apply no_break_app; [apply no_break_app; [|done]|];
      apply plain_no_break; [apply pretty_Z_plain|apply Hrepr].
Qed.

Lemma csv_line_fields (n : Z) (t : pyfloat) :
  plain (repr_float t) →
  comma_fields (pretty n +:+ "," +:+ repr_float t) = [pretty n; repr_float t].
Proof.
  intros Ht. rewrite comma_fields_app by apply pretty_Z_plain.
  by rewrite comma_fields_plain.
Qed.
End csv_facts.

Section path_facts.
Context `{Runtime}.

(** The two files of an algorithm are different files. *)
Lemma paths_differ (name : string) : csv_path name ≠ table_path name.
Proof.
  unfold csv_path, table_path, path_join.
  assert (Hstart : ∀ ext, ext ≠ EmptyString → starts_with "/" ext = false →
            starts_with "/" (name +:+ ext) = starts_with "/" name ∨ name = EmptyString).
  { intros ext _ _. destruct name; [by right|by left]. }
  assert (Hne : name +:+ ".csv" ≠ name +:+ "_table.tex").
  { intros Heq. by apply (inj (String.append name)) in Heq. }
  destruct name as [|c name'] eqn:Hname.
  - rewrite !str_app_nil_l. cbn. discriminate.
  - rewrite <- Hname in *. 
    assert (Hs : ∀ ext, starts_with "/" (name +:+ ext) = starts_with "/" name).
    { intros ext. by rewrite Hname. }
    rewrite !Hs. destruct (starts_with "/" name); [exact Hne|].
    cbn [str_empty ends_with orb].
    intros Heq. apply Hne.
    apply (inj (String.append "results")) in Heq.
    by apply (inj (String.append "/")) in Heq.
Qed.
End path_facts.
End export_proofs.

Section lab1_harness_proofs.
Local Open Scope string_scope.
Local Open Scope list_scope.
(** * Loops with invariants *)

Lemma for_loop_invariant {S A : Type} (P : list A → S → Prop)
    (f : S → A → option S) (items : list A) (s : S) :
  P [] s →
  (∀ pre x post s, items = pre ++ x :: post → P pre s →
     ∃ s', f s x = Some s' ∧ P (pre ++ [x]) s') →
  ∃ s', for_loop f s items = Some s' ∧ P items s'.
Proof.
  intros H0 Hstep.
  enough (Hgen : ∀ post pre s, items = pre ++ post → P pre s →
            ∃ s', for_loop f s post = Some s' ∧ P items s').
  { by apply (Hgen items [] s). }
  induction post as [|x post IH]; intros pre s' Hitems Hpre.
  - exists s'. split; [done|]. by rewrite Hitems, app_nil_r.
  - destruct (Hstep pre x post s' Hitems Hpre) as (s'' & Hf & Hnext).
    cbn [for_loop]. rewrite Hf. apply (IH (pre ++ [x])); [|done].
    by rewrite <- app_assoc.
Qed.

(** * Best of three *)
Section best.
Context `{Runtime}.

Lemma pick3_elem (e0 e1 e2 : pyfloat) : pick3 e0 e1 e2 ∈ [e0; e1; e2].
Proof.
  unfold pick3, pick.
  destruct (float_ltb e1 e0); destruct (float_ltb e2 _); set_solver.
Qed.

Lemma pick3_minimum `{!FloatOrder} (e0 e1 e2 : pyfloat) :
  minimum_of (pick3 e0 e1 e2) [e0; e1; e2].
Proof.
  split; [apply pick3_elem|].
  assert (Hasym : ∀ x y, float_ltb x y = true → float_ltb y x = false).
  { intros x y Hxy. destruct (float_ltb y x) eqn:Hyx; [|done].
    pose proof (float_ltb_trans x y x Hxy Hyx) as Hxx.
    by rewrite float_ltb_irrefl in Hxx. }
  assert (Hbelow : ∀ x y z, float_ltb x y = false → float_ltb z y = true →
                            float_ltb x z = false).
  { intros x y z Hxy Hzy. destruct (float_ltb x z) eqn:Hxz; [|done].
    by rewrite (float_ltb_trans x z y Hxz Hzy) in Hxy. }
  intros e He.
  assert (e = e0 ∨ e = e1 ∨ e = e2) as Hcases.
  { repeat (apply elem_of_cons in He as [He|He]; [by auto|]).
    by apply elem_of_nil in He. }
  unfold pick3, pick.
  destruct (float_ltb e1 e0) eqn:H10; destruct (float_ltb e2 _) eqn:H2;
    destruct Hcases as [-> | [-> | ->]];
    first [ assumption
          | apply float_ltb_irrefl
          | by apply Hasym
          | by eapply Hbelow; [|eassumption]; first [assumption|by apply Hasym] ].
Qed.

Lemma pick3_nonneg (e0 e1 e2 : pyfloat) :
  float_nonneg e0 → float_nonneg e1 → float_nonneg e2 →
  float_nonneg (pick3 e0 e1 e2).
Proof.
  intros H0 H1 H2. pose proof (pick3_elem e0 e1 e2) as Hin.
  set (r := pick3 e0 e1 e2) in *. clearbody r.
  repeat (apply elem_of_cons in Hin as [->|Hin]; [done|]).
  by apply elem_of_nil in Hin.
Qed.

End best.

(** * Lab1: the timing harness *)
Section lab1_harness.
Context `{Runtime}.

Lemma lab1_time_run_spec (fn : Z → option Z) (n : Z) (w : Lab1.world) :
  is_Some (fn n) →
  Lab1.time_run fn n w
  = Some (Some (best_at (Lab1.clock w)),
          Lab1.World (6 + Lab1.clock w) (Lab1.calls w ++ [n; n; n]) (Lab1.fs w)).
Proof.
  intros [v Hv]. unfold Lab1.time_run, Lab1.REPEATS.
  cbn [seq for_loop Lab1.time_trial Lab1.now Lab1.clock Lab1.calls Lab1.fs].
  rewrite Hv.
  cbn [mbind option_bind for_loop Lab1.time_trial Lab1.now Lab1.clock Lab1.calls
         Lab1.fs update_best].
  rewrite Hv.
  cbn [mbind option_bind for_loop Lab1.time_trial Lab1.now Lab1.clock Lab1.calls
         Lab1.fs update_best].
  rewrite Hv.
  cbn [mbind option_bind for_loop Lab1.time_trial Lab1.now Lab1.clock Lab1.calls
         Lab1.fs update_best].
  rewrite <- !app_assoc. unfold best_at, pick3, pick, elapsed_at.
  cbn [Nat.add app].
  destruct (float_ltb _ _); cbn [update_best]; by destruct (float_ltb _ _).
Qed.

End lab1_harness.

(** * The output directories *)

Section outputs.
Context `{Runtime}.

Lemma ensure_dirs_spec (fs : fsys) :
  fs_ready fs →
  ∃ fs', ensure_dirs fs = Some fs' ∧ out_ready fs' ∧ files fs' = files fs.
Proof.
  intros (Hr & Hf & Hd). unfold ensure_dirs, makedirs.
  rewrite decide_False by (rewrite Hr; by intros [??]).
  cbn [mbind option_bind files dirs].
  rewrite decide_False by (rewrite Hf; by intros [??]).
  eexists. split; [done|]. split; [|done]. cbn [dirs].
  split; [apply elem_of_union; right; apply elem_of_union; left; by apply elem_of_singleton|].
  split; [apply elem_of_union; left; by apply elem_of_singleton|].
  intros p [->%elem_of_singleton|[->%elem_of_singleton|Hp]%elem_of_union]%elem_of_union.
  - by vm_compute.
  - by vm_compute.
  - by apply Hd.
Qed.

Lemma can_open_results (name : string) (fs : fsys) :
  out_ready fs → no_slash name → can_open (path_join "results" name) fs.
Proof.
  intros (Hr & _ & Hd) Hn. rewrite path_join_plain by done.
  change ("results" +:+ "/" +:+ name) with ("results/" +:+ name).
  split; [right; by rewrite dirname_results|].
  intros Hp%Hd. destruct Hp as [Hp _]. by rewrite dirname_results in Hp.
Qed.

Lemma can_open_figures (name : string) (fs : fsys) :
  out_ready fs → no_slash name → can_open (path_join "figures" name) fs.
Proof.
  intros (_ & Hf & Hd) Hn. rewrite path_join_plain by done.
  change ("figures" +:+ "/" +:+ name) with ("figures/" +:+ name).
  split; [right; by rewrite dirname_figures|].
  intros Hp%Hd. destruct Hp as [_ Hp]. by rewrite dirname_figures in Hp.
Qed.

Lemma put_file_ready (path content : string) (fs : fsys) :
  out_ready fs → can_open path fs →
  ∃ fs', put_file path content fs = Some fs' ∧ out_ready fs'.
Proof.
  intros Hready Hopen. unfold put_file. rewrite decide_True by done.
  eexists. split; [done|]. exact Hready.
Qed.

(** The three files written for one algorithm. *)
Lemma outputs_written (xlabel key title : string) (rows : list (Z * pyfloat))
    (fs : fsys) :
  out_ready fs → no_slash key →
  ∃ fs1 fs2 fs3,
    write_csv key rows fs = Some fs1 ∧ write_table key rows fs1 = Some fs2 ∧
    plot_single xlabel key title rows fs2 = Some fs3 ∧ out_ready fs3.
Proof.
  intros Hready Hkey.
  destruct (put_file_ready (csv_path key) (csv_content rows) fs Hready)
    as (fs1 & E1 & R1).
  { apply can_open_results; [done|]. by apply no_slash_app. }
  destruct (put_file_ready (table_path key) (table_content key rows) fs1 R1)
    as (fs2 & E2 & R2).
  { apply can_open_results; [done|]. by apply no_slash_app. }
  destruct (put_file_ready (path_join "figures" (key +:+ ".png"))
              (png_single xlabel title rows) fs2 R2) as (fs3 & E3 & R3).
  { apply can_open_figures; [done|]. by apply no_slash_app. }
  exists fs1, fs2, fs3. rewrite write_csv_put, write_table_put.
  unfold plot_single. by rewrite savefig_put.
Qed.

Lemma comparison_written (heading : string)
    (all_results : list (string * string * list (Z * pyfloat))) (fs : fsys) :
  out_ready fs → is_Some (plot_comparison heading all_results fs).
Proof.
  intros Hready. unfold plot_comparison. rewrite savefig_put.
  destruct (put_file_ready (path_join "figures" "comparison.png")
              (png_comparison heading
                 ((λ '(_, title, rows), (title, rows)) <$> all_results)) fs Hready)
    as (fs' & -> & _); [|done].
  by apply can_open_figures.
Qed.

End outputs.

(** * Lab1: [main] *)

(** Every registered algorithm computes the Fibonacci numbers. *)
Lemma lab1_registered_correct (key title : string) (fn : nat → Z → option Z)
    (fuel : nat) (n : Z) :
  (key, (title, fn)) ∈ Lab1.ALGORITHMS →
  (0 ≤ n)%Z → (2 * n + 1 ≤ Z.of_nat fuel)%Z →
  fn fuel n = Some (fibZ n).
Proof.
  intros Hin Hn Hfuel. unfold Lab1.ALGORITHMS in Hin.
  assert (Hpow : (n < 2 ^ Z.of_nat (fuel - 1))%Z).
  { eapply Z.lt_le_trans; [apply (Z.pow_gt_lin_r 2 n); lia|].
    apply Z.pow_le_mono_r; lia. }
  repeat (apply elem_of_cons in Hin as [[= -> -> ->]|Hin]).
  - by rewrite fib_iterative_spec.
  - apply fib_memoized_spec; lia.
  - replace fuel with (S (fuel - 1)) by lia. apply fib_fast_doubling_spec. lia.
  - by apply fib_binomial_spec.
  - apply fib_matrix_fast_spec. split; [lia|].
    eapply Z.lt_le_trans; [exact Hpow|]. apply Z.pow_le_mono_r; lia.
  - by apply elem_of_nil in Hin.
Qed.

Lemma lab1_keys_no_slash :
  Forall (λ entry, no_slash entry.1) Lab1.ALGORITHMS.
Proof. repeat constructor. Qed.

Lemma lab1_sizes_bounded :
  Forall (λ n, 0 ≤ n ≤ 15849)%Z Lab1.INPUT_SIZES.
Proof. repeat (constructor; [lia|]). constructor. Qed.

Section lab1_main.
Context `{Runtime}.

(** The rows of one algorithm: one per input size, in order. *)
Lemma lab1_rows (fn : Z → option Z) (w : Lab1.world) :
  (∀ n, n ∈ Lab1.INPUT_SIZES → is_Some (fn n)) →
  ∃ rows w',
    for_loop (Lab1.measure_sizes fn) ([], w) Lab1.INPUT_SIZES = Some (rows, w') ∧
    rows.*1 = Lab1.INPUT_SIZES ∧ Lab1.fs w' = Lab1.fs w.
Proof.
  intros Hfn.
  destruct (for_loop_invariant
              (λ pre (st : list (Z * pyfloat) * Lab1.world),
                 st.1.*1 = pre ∧ Lab1.fs st.2 = Lab1.fs w)
              (Lab1.measure_sizes fn) Lab1.INPUT_SIZES ([], w))
    as ([rows w'] & Hrun & Hrows & Hfs); [done| |by exists rows, w'].
  intros pre n post [rows0 w0] Hsplit [Hrows0 Hfs0]. cbn [fst snd] in *.
  unfold Lab1.measure_sizes.
  rewrite lab1_time_run_spec.
  2:{ apply Hfn. rewrite Hsplit. set_solver. }
  cbn [mbind option_bind]. eexists. split; [done|]. cbn [fst snd Lab1.fs].
  split; [|done]. by rewrite fmap_app, Hrows0.
Qed.

Lemma lab1_main_spec (fuel : nat) (w : Lab1.world) :
  (31699 ≤ Z.of_nat fuel)%Z → fs_ready (Lab1.fs w) →
  ∃ all_results w',
    Lab1.main fuel w = Some (all_results, w') ∧
    (λ r, r.1.1) <$> all_results = Lab1.ALGORITHMS.*1 ∧
    Forall (λ r, r.2.*1 = Lab1.INPUT_SIZES) all_results.
Proof.
  intros Hfuel Hready. unfold Lab1.main, Lab1.with_fs.
  destruct (ensure_dirs_spec _ Hready) as (fs1 & -> & Hout & _).
  cbn [mbind option_bind].
  destruct (for_loop_invariant
              (λ pre (st : list (string * string * list (Z * pyfloat)) * Lab1.world),
                 (λ r, r.1.1) <$> st.1 = pre.*1 ∧
                 Forall (λ r, r.2.*1 = Lab1.INPUT_SIZES) st.1 ∧
                 out_ready (Lab1.fs st.2))
              (Lab1.main_body fuel) Lab1.ALGORITHMS
              ([], Lab1.World (Lab1.clock w) (Lab1.calls w) fs1))
    as ([all_results w1] & -> & Hkeys & Hrows & Hout1).
  { done. }
  { intros pre [key [title fn]] post [res0 w0] Hsplit (Hk0 & Hr0 & Ho0).
    cbn [fst snd] in *. unfold Lab1.main_body.
    assert (Hin : (key, (title, fn)) ∈ Lab1.ALGORITHMS) by (rewrite Hsplit; set_solver).
    destruct (lab1_rows (fn fuel) w0) as (rows & w1 & -> & Hrows & Hfs1).
    { intros n Hn. pose proof lab1_sizes_bounded as Hb.
      rewrite Forall_forall in Hb. specialize (Hb n Hn).
      rewrite (lab1_registered_correct key title fn fuel n Hin); [done|lia|lia]. }
    cbn [mbind option_bind]. unfold Lab1.with_fs.
    pose proof lab1_keys_no_slash as Hns. rewrite Forall_forall in Hns.
    specialize (Hns _ Hin). cbn [fst] in Hns.
    rewrite <- Hfs1 in Ho0.
    destruct (outputs_written "n" key title rows (Lab1.fs w1) Ho0 Hns)
      as (f1 & f2 & f3 & -> & E2 & E3 & Ho3).
    cbn [mbind option_bind Lab1.fs]. rewrite E2.
    cbn [mbind option_bind Lab1.fs]. rewrite E3.
    cbn [mbind option_bind Lab1.fs].
    eexists. split; [done|]. cbn [fst snd Lab1.fs].
    split; [by rewrite !fmap_app, Hk0|]. split; [|done].
    apply Forall_app. split; [done|]. by constructor. }
  cbn [fst snd] in *. cbn [mbind option_bind].
  destruct (comparison_written "Fibonacci Algorithm Comparison" all_results
              (Lab1.fs w1) Hout1) as [fs2 ->].
  cbn [mbind option_bind]. by eexists _, _.
Qed.

End lab1_main.
End lab1_harness_proofs.

Section lab2_harness_proofs.
Local Open Scope string_scope.
Local Open Scope list_scope.
(** * The sorting functions leave every existing object alone *)

Lemma alloc_subseteq (l : list Z) (σ σ' : store) (a : loc) :
  alloc l σ = (a, σ') → σ ⊆ σ'.
Proof. intros E. by apply alloc_spec in E as (_ & _ & ?). Qed.

Lemma quicksort_frame (fuel : nat) :
  ∀ (arr : loc) (σ : store) (r : loc) (σ' : store),
    Lab2.quicksort fuel arr σ = Some (r, σ') → σ ⊆ σ'.
Proof.
  induction fuel as [|fuel IH]; intros arr σ r σ' Hrun; [done|].
  cbn [Lab2.quicksort] in Hrun.
  destruct (σ !! arr) as [a|]; [|done]. cbn [mbind option_bind] in Hrun.
  destruct (length a <=? 1)%nat; [by injection Hrun as <- <-|].
  destruct (list_get a (length a / 2)) as [p|]; [|done].
  cbn [mbind option_bind] in Hrun.
  destruct (alloc (filter (λ x, x < p)%Z a) σ) as [lo σ1] eqn:E1.
  destruct (alloc (filter (λ x, x = p) a) σ1) as [mi σ2] eqn:E2.
  destruct (alloc (filter (λ x, x > p)%Z a) σ2) as [hi σ3] eqn:E3.
  destruct (Lab2.quicksort fuel lo σ3) as [[sl σ4]|] eqn:E4; [|done].
  cbn [mbind option_bind] in Hrun.
  destruct (Lab2.quicksort fuel hi σ4) as [[sr σ5]|] eqn:E5; [|done].
  cbn [mbind option_bind] in Hrun.
  destruct (σ5 !! sl) as [l1|]; [|done]. cbn [mbind option_bind] in Hrun.
  destruct (σ5 !! mi) as [l2|]; [|done]. cbn [mbind option_bind] in Hrun.
  destruct (σ5 !! sr) as [l3|]; [|done]. cbn [mbind option_bind] in Hrun.
  apply (inj Some) in Hrun.
  etrans; [exact (alloc_subseteq _ _ _ _ E1)|].
  etrans; [exact (alloc_subseteq _ _ _ _ E2)|].
  etrans; [exact (alloc_subseteq _ _ _ _ E3)|].
  etrans; [exact (IH _ _ _ _ E4)|].
  etrans; [exact (IH _ _ _ _ E5)|].
  exact (alloc_subseteq _ _ _ _ Hrun).
Qed.

Lemma merge_sort_frame (fuel : nat) :
  ∀ (arr : loc) (σ : store) (r : loc) (σ' : store),
    Lab2.merge_sort fuel arr σ = Some (r, σ') → σ ⊆ σ'.
Proof.
  induction fuel as [|fuel IH]; intros arr σ r σ' Hrun; [done|].
  cbn [Lab2.merge_sort] in Hrun.
  destruct (σ !! arr) as [a|]; [|done]. cbn [mbind option_bind] in Hrun.
  destruct (length a <=? 1)%nat; [by injection Hrun as <- <-|].
  destruct (alloc (take (length a / 2) a) σ) as [lo σ1] eqn:E1.
  destruct (Lab2.merge_sort fuel lo σ1) as [[sl σ2]|] eqn:E2; [|done].
  cbn [mbind option_bind] in Hrun.
  destruct (σ2 !! arr) as [a2|]; [|done]. cbn [mbind option_bind] in Hrun.
  destruct (alloc (drop (length a / 2) a2) σ2) as [hi σ3] eqn:E3.
  destruct (Lab2.merge_sort fuel hi σ3) as [[sr σ4]|] eqn:E4; [|done].
  cbn [mbind option_bind] in Hrun.
  destruct (σ4 !! sl) as [l1|]; [|done]. cbn [mbind option_bind] in Hrun.
  destruct (σ4 !! sr) as [l2|]; [|done]. cbn [mbind option_bind] in Hrun.
  destruct (Lab2._merge fuel l1 l2) as [m|]; [|done].
  cbn [mbind option_bind] in Hrun. apply (inj Some) in Hrun.
  etrans; [exact (alloc_subseteq _ _ _ _ E1)|].
  etrans; [exact (IH _ _ _ _ E2)|].
  etrans; [exact (alloc_subseteq _ _ _ _ E3)|].
  etrans; [exact (IH _ _ _ _ E4)|].
  exact (alloc_subseteq _ _ _ _ Hrun).
Qed.

Lemma heapsort_frame (fuel : nat) (arr : loc) (σ : store) (r : loc) (σ' : store) :
  Lab2.heapsort fuel arr σ = Some (r, σ') → σ ⊆ σ'.
Proof.
  unfold Lab2.heapsort. intros Hrun.
  destruct (σ !! arr) as [a|]; [|done]. cbn [mbind option_bind] in Hrun.
  destruct (alloc a σ) as [c σ1] eqn:E1.
  apply alloc_spec in E1 as (Hfresh & Hc & S1).
  rewrite Hc in Hrun. cbn [mbind option_bind] in Hrun.
  destruct (Lab2.heapsort_build _ _ _) as [a1|]; [|done].
  cbn [mbind option_bind] in Hrun.
  destruct (Lab2.heapsort_extract _ _ _) as [a2|]; [|done].
  cbn [mbind option_bind] in Hrun. injection Hrun as <- <-.
  by apply insert_subseteq_r.
Qed.

Lemma shell_sort_frame (fuel : nat) (arr : loc) (σ : store) (r : loc) (σ' : store) :
  Lab2.shell_sort fuel arr σ = Some (r, σ') → σ ⊆ σ'.
Proof.
  unfold Lab2.shell_sort. intros Hrun.
  destruct (σ !! arr) as [a|]; [|done]. cbn [mbind option_bind] in Hrun.
  destruct (alloc a σ) as [c σ1] eqn:E1.
  apply alloc_spec in E1 as (Hfresh & Hc & S1).
  rewrite Hc in Hrun. cbn [mbind option_bind] in Hrun.
  destruct (Lab2.shell_gaps _ _ _ _ _) as [a1|]; [|done].
  cbn [mbind option_bind] in Hrun. injection Hrun as <- <-.
  by apply insert_subseteq_r.
Qed.

Lemma lab2_registered (key title : string)
    (fn : nat → loc → store → option (loc * store)) :
  (key, (title, fn)) ∈ Lab2.ALGORITHMS → sorts fn ∧ preserves fn.
Proof.
  unfold Lab2.ALGORITHMS. intros Hin.
  repeat (apply elem_of_cons in Hin as [[= -> -> ->]|Hin]).
  - split; [intros ?; apply quicksort_spec|intros ?; apply quicksort_frame].
  - split; [intros ?; apply merge_sort_spec|intros ?; apply merge_sort_frame].
  - split; [intros ?; apply heapsort_spec|intros ?; apply heapsort_frame].
  - split; [intros ?; apply shell_sort_spec|intros ?; apply shell_sort_frame].
  - by apply elem_of_nil in Hin.
Qed.

(** * Lab2: the timing harness *)

Lemma preserves_frames (fn : nat → loc → store → option (loc * store)) (fuel : nat) :
  preserves fn → frames (fn fuel).
Proof.
  intros Hp d σ r σ' Hrun l x _ Hl. eapply lookup_weaken; [exact Hl|].
  by eapply Hp.
Qed.

Lemma sorts_runs_on (fn : nat → loc → store → option (loc * store))
    (fuel : nat) (a : list Z) :
  sorts fn → length a < fuel → runs_on a (fn fuel).
Proof.
  intros Hs Hfuel σ d Hd.
  destruct (Hs fuel d σ a Hd Hfuel) as (r & σ' & a' & -> & _). by eexists.
Qed.

Section lab2_harness.
Context `{Runtime}.

Lemma lab2_trial_effect (fn : loc → store → option (loc * store)) (arr : loc)
    (a : list Z) (best best' : option pyfloat) (w w' : Lab2.world) (k : nat) :
  frames fn → Lab2.objs w !! arr = Some a →
  Lab2.time_trial fn arr (best, w) k = Some (best', w') →
  trial_effect a w w' ∧ best' = update_best best (elapsed_at (Lab2.clock w)).
Proof.
  intros Hfr Ha. unfold Lab2.time_trial. rewrite Ha. cbn [mbind option_bind].
  destruct (alloc a (Lab2.objs w)) as [d σ1] eqn:E1.
  apply alloc_spec in E1 as (Hfresh & Hd & S1).
  cbn [Lab2.now Lab2.with_objs Lab2.objs Lab2.clock Lab2.rng Lab2.calls Lab2.fs
         Lab2.stdout].
  rewrite Hd. cbn [mbind option_bind].
  destruct (fn d σ1) as [[r σ2]|] eqn:E2; [|done]. cbn [mbind option_bind].
  intros [= <- <-].
  cbn [Lab2.objs Lab2.clock Lab2.rng Lab2.calls Lab2.fs Lab2.stdout].
  split; [|done]. split; [|by eauto 10].
  apply map_subseteq_spec. intros l x Hl.
  apply (Hfr d σ1 r σ2 E2); [by intros ->; rewrite Hfresh in Hl|].
  by eapply lookup_weaken.
Qed.

Lemma lab2_trial_runs (fn : loc → store → option (loc * store)) (arr : loc)
    (a : list Z) (best : option pyfloat) (w : Lab2.world) (k : nat) :
  runs_on a fn → Lab2.objs w !! arr = Some a →
  is_Some (Lab2.time_trial fn arr (best, w) k).
Proof.
  intros Hrun Ha. unfold Lab2.time_trial. rewrite Ha. cbn [mbind option_bind].
  destruct (alloc a (Lab2.objs w)) as [d σ1] eqn:E1.
  apply alloc_spec in E1 as (Hfresh & Hd & S1).
  cbn [Lab2.now Lab2.with_objs Lab2.objs Lab2.clock Lab2.rng Lab2.calls Lab2.fs
         Lab2.stdout].
  rewrite Hd. cbn [mbind option_bind].
  destruct (Hrun σ1 d Hd) as [[r σ2] ->]. by eexists.
Qed.

Lemma lab2_time_run_effect (fn : loc → store → option (loc * store)) (arr : loc)
    (a : list Z) (best : option pyfloat) (w w' : Lab2.world) :
  frames fn → Lab2.objs w !! arr = Some a →
  Lab2.time_run fn arr w = Some (best, w') →
  run_effect a w w' ∧ best = Some (best_at (Lab2.clock w)).
Proof.
  intros Hfr Ha. unfold Lab2.time_run, Lab2.REPEATS. cbn [seq for_loop].
  destruct (Lab2.time_trial fn arr (None, w) 0) as [[b1 w1]|] eqn:E1; [|done].
  destruct (lab2_trial_effect fn arr a _ _ _ _ _ Hfr Ha E1)
    as ((S1 & C1 & R1 & F1 & O1 & d1 & N1 & L1) & ->).
  assert (Ha1 : Lab2.objs w1 !! arr = Some a) by (by eapply lookup_weaken).
  destruct (Lab2.time_trial fn arr (_, w1) 1) as [[b2 w2]|] eqn:E2; [|done].
  destruct (lab2_trial_effect fn arr a _ _ _ _ _ Hfr Ha1 E2)
    as ((S2 & C2 & R2 & F2 & O2 & d2 & N2 & L2) & ->).
  assert (Ha2 : Lab2.objs w2 !! arr = Some a) by (by eapply lookup_weaken).
  destruct (Lab2.time_trial fn arr (_, w2) 2) as [[b3 w3]|] eqn:E3; [|done].
  destruct (lab2_trial_effect fn arr a _ _ _ _ _ Hfr Ha2 E3)
    as ((S3 & C3 & R3 & F3 & O3 & d3 & N3 & L3) & ->).
  intros [= <- <-]. split.
  - split; [by etrans; [|etrans]|]. split; [lia|].
    split; [congruence|]. split; [congruence|]. split; [congruence|].
    exists d1, d2, d3. split; [done|].
    split; [by eapply lookup_weaken_None|].
    split; [eapply lookup_weaken_None; [exact N3|by etrans]|].
    rewrite L3, L2, L1, <- !app_assoc. reflexivity.
  - rewrite C2, C1. unfold best_at, pick3, pick. cbn [update_best Nat.add].
    destruct (float_ltb _ _); cbn [update_best]; by destruct (float_ltb _ _).
Qed.

Lemma lab2_time_run_runs (fn : loc → store → option (loc * store)) (arr : loc)
    (a : list Z) (w : Lab2.world) :
  frames fn → runs_on a fn → Lab2.objs w !! arr = Some a →
  is_Some (Lab2.time_run fn arr w).
Proof.
  intros Hfr Hrun Ha. unfold Lab2.time_run, Lab2.REPEATS. cbn [seq for_loop].
  destruct (lab2_trial_runs fn arr a None w 0 Hrun Ha) as [[b1 w1] E1].
  rewrite E1.
  destruct (lab2_trial_effect fn arr a _ _ _ _ _ Hfr Ha E1) as ((S1 & _) & _).
  assert (Ha1 : Lab2.objs w1 !! arr = Some a) by (by eapply lookup_weaken).
  destruct (lab2_trial_runs fn arr a b1 w1 1 Hrun Ha1) as [[b2 w2] E2].
  rewrite E2.
  destruct (lab2_trial_effect fn arr a _ _ _ _ _ Hfr Ha1 E2) as ((S2 & _) & _).
  assert (Ha2 : Lab2.objs w2 !! arr = Some a) by (by eapply lookup_weaken).
  destruct (lab2_trial_runs fn arr a b2 w2 2 Hrun Ha2) as [[b3 w3] E3].
  rewrite E3. by eexists.
Qed.

End lab2_harness.

(** * Lab2: [main] *)

Lemma lab2_keys_no_slash :
  Forall (λ entry, no_slash entry.1) Lab2.ALGORITHMS.
Proof. repeat constructor. Qed.

Lemma lab2_sizes_bounded :
  Forall (λ n, 0 ≤ n ≤ 100000)%Z Lab2.INPUT_SIZES.
Proof. repeat (constructor; [lia|]). constructor. Qed.

Section lab2_main.
Context `{Runtime}.

Lemma lab2_arrays (w : Lab2.world) :
  ∃ arrays w',
    for_loop Lab2.make_arrays (∅, w) Lab2.INPUT_SIZES = Some (arrays, w') ∧
    Lab2.objs w ⊆ Lab2.objs w' ∧ Lab2.fs w' = Lab2.fs w ∧
    Lab2.calls w' = Lab2.calls w ∧
    ∀ n, n ∈ Lab2.INPUT_SIZES →
      ∃ l, arrays_in arrays (Lab2.objs w') n l ∧ length l = Z.to_nat n.
Proof.
  destruct (for_loop_invariant
              (λ pre (st : gmap Z loc * Lab2.world),
                 Lab2.objs w ⊆ Lab2.objs st.2 ∧ Lab2.fs st.2 = Lab2.fs w ∧
                 Lab2.calls st.2 = Lab2.calls w ∧
                 ∀ n, n ∈ pre →
                   ∃ l, arrays_in st.1 (Lab2.objs st.2) n l ∧ length l = Z.to_nat n)
              Lab2.make_arrays Lab2.INPUT_SIZES (∅, w))
    as ([arrays w'] & Hrun & HS & HF & HC & Harr).
  { cbn [fst snd]. split; [done|]. split; [done|]. split; [done|].
    intros n Hn. by apply elem_of_nil in Hn. }
  { intros pre n post [arrays0 w0] _ (HS0 & HF0 & HC0 & Harr0). cbn [fst snd] in *.
    unfold Lab2.make_arrays, Lab2.generate_random_array.
    destruct (alloc _ (Lab2.objs w0)) as [a σ1] eqn:E1.
    apply alloc_spec in E1 as (Hfresh & Ha & S1).
    eexists. split; [reflexivity|]. cbn [fst snd Lab2.objs Lab2.fs Lab2.calls].
    split; [by etrans|]. split; [exact HF0|]. split; [exact HC0|].
    intros m Hm. destruct (decide (m = n)) as [->|Hne].
    - eexists. split; [exists a; split; [apply lookup_insert_eq|exact Ha]|].
      by rewrite length_fmap, length_seq.
    - apply elem_of_app in Hm as [Hm|Hm%list_elem_of_singleton]; [|done].
      destruct (Harr0 m Hm) as (l & (a' & Hl1 & Hl2) & Hlen).
      exists l. split; [|done]. exists a'.
      split; [by rewrite lookup_insert_ne|by eapply lookup_weaken]. }
  exists arrays, w'. split; [exact Hrun|]. split; [exact HS|].
  split; [exact HF|]. split; [exact HC|exact Harr].
Qed.

(** The rows of one algorithm, and the contents it was given. *)
Lemma lab2_rows (title : string) (fn : loc → store → option (loc * store))
    (arrays : gmap Z loc) (σ : store) (w : Lab2.world) :
  frames fn →
  (∀ n, n ∈ Lab2.INPUT_SIZES →
     ∃ l, arrays_in arrays σ n l ∧ runs_on l fn) →
  σ ⊆ Lab2.objs w →
  ∃ rows w',
    for_loop (Lab2.measure_sizes title fn arrays) ([], w) Lab2.INPUT_SIZES
      = Some (rows, w') ∧
    rows.*1 = Lab2.INPUT_SIZES ∧ σ ⊆ Lab2.objs w' ∧ Lab2.fs w' = Lab2.fs w ∧
    (Lab2.calls w').*2
      = (Lab2.calls w).*2 ++ expected_calls (contents_of arrays σ) Lab2.INPUT_SIZES.
Proof.
  intros Hfr Harr HS.
  destruct (for_loop_invariant
              (λ pre (st : list (Z * pyfloat) * Lab2.world),
                 st.1.*1 = pre ∧ σ ⊆ Lab2.objs st.2 ∧ Lab2.fs st.2 = Lab2.fs w ∧
                 (Lab2.calls st.2).*2
                   = (Lab2.calls w).*2 ++ expected_calls (contents_of arrays σ) pre)
              (Lab2.measure_sizes title fn arrays) Lab2.INPUT_SIZES ([], w))
    as ([rows w'] & Hrun & Hrows & HS' & HF' & HC').
  { cbn [fst snd]. split; [done|]. split; [done|]. split; [done|].
    unfold expected_calls. cbn [fmap list_fmap concat]. by rewrite app_nil_r. }
  2:{ exists rows, w'. split; [exact Hrun|]. split; [exact Hrows|].
      split; [exact HS'|]. split; [exact HF'|exact HC']. }
  intros pre n post [rows0 w0] Hsplit (Hrows0 & HS0 & HF0 & HC0). cbn [fst snd] in *.
  assert (Hn : n ∈ Lab2.INPUT_SIZES) by (rewrite Hsplit; set_solver).
  destruct (Harr n Hn) as (l & (a & Ha1 & Ha2) & Hruns).
  assert (Hcont : contents_of arrays σ n = l).
  { unfold contents_of. rewrite Ha1. cbn [mbind option_bind]. by rewrite Ha2. }
  assert (Ha0 : Lab2.objs w0 !! a = Some l) by (by eapply lookup_weaken).
  unfold Lab2.measure_sizes. rewrite Ha1. cbn [mbind option_bind].
  destruct (lab2_time_run_runs fn a l w0 Hfr Hruns Ha0) as [[b w1] E1].
  rewrite E1. cbn [mbind option_bind].
  destruct (lab2_time_run_effect fn a l b w0 w1 Hfr Ha0 E1)
    as ((S1 & C1 & R1 & F1 & O1 & d1 & d2 & d3 & _ & _ & _ & L1) & ->).
  cbn [mbind option_bind]. eexists. split; [done|].
  cbn [fst snd Lab2.print Lab2.objs Lab2.fs Lab2.calls].
  split; [by rewrite fmap_app, Hrows0|]. split; [by etrans|].
  split; [congruence|].
  rewrite L1, fmap_app, HC0, <- app_assoc. f_equal.
  unfold expected_calls. rewrite fmap_app, concat_app.
  cbn [fmap list_fmap concat replicate snd]. by rewrite Hcont, app_nil_r.
Qed.

Lemma bind_Some {A B : Type} (x : A) (f : A → option B) : Some x ≫= f = f x.
Proof. reflexivity. Qed.

Lemma lab2_with_fs_Some (f : fsys → option fsys) (w : Lab2.world) (fs' : fsys) :
  f (Lab2.fs w) = Some fs' →
  Lab2.with_fs f w
  = Some (Lab2.World (Lab2.objs w) (Lab2.clock w) (Lab2.rng w) (Lab2.calls w) fs'
            (Lab2.stdout w)).
Proof. intros Hf. unfold Lab2.with_fs. by rewrite Hf. Qed.

Lemma lab2_main_body_spec (fuel : nat) (arrays : gmap Z loc) (σ : store)
    (before : list (list Z))
    (pre : list (string * (string * (nat → loc → store → option (loc * store)))))
    (key title : string) (fn : nat → loc → store → option (loc * store))
    (st : list (string * string * list (Z * pyfloat)) * Lab2.world) :
  (100000 < Z.of_nat fuel)%Z →
  (∀ n, n ∈ Lab2.INPUT_SIZES →
     ∃ l, arrays_in arrays σ n l ∧ length l = Z.to_nat n) →
  (key, (title, fn)) ∈ Lab2.ALGORITHMS →
  main_inv σ (contents_of arrays σ) before pre st →
  ∃ st', Lab2.main_body fuel arrays st (key, (title, fn)) = Some st' ∧
         main_inv σ (contents_of arrays σ) before (pre ++ [(key, (title, fn))]) st'.
Proof.
  intros Hfuel Harr Hin. destruct st as [res0 w0].
  intros (Hk0 & Hr0 & Ho0 & HS0 & HC0). cbn [fst snd] in *.
  unfold Lab2.main_body.
  destruct (lab2_registered key title fn Hin) as [Hsorts Hpres].
  destruct (lab2_rows title (fn fuel) arrays σ w0)
    as (rows & w4 & Hrun & Hrows & HS4 & HF4 & HC4).
  { by apply preserves_frames. }
  { intros n Hn. destruct (Harr n Hn) as (l & Hl & Hlen). exists l.
    split; [exact Hl|]. apply sorts_runs_on; [exact Hsorts|].
    pose proof lab2_sizes_bounded as Hb. rewrite Forall_forall in Hb.
    specialize (Hb n Hn). lia. }
  { exact HS0. }
  rewrite Hrun. cbn [mbind option_bind]. unfold Lab2.with_fs.
  pose proof lab2_keys_no_slash as Hns. rewrite Forall_forall in Hns.
  specialize (Hns _ Hin). cbn [fst] in Hns.
  rewrite <- HF4 in Ho0.
  destruct (outputs_written "n (array size)" key title rows (Lab2.fs w4) Ho0 Hns)
    as (f1 & f2 & f3 & E1 & E2 & E3 & Ho3).
  rewrite E1. cbn [mbind option_bind Lab2.fs]. rewrite E2.
  cbn [mbind option_bind Lab2.fs]. rewrite E3.
  cbn [mbind option_bind Lab2.fs].
  eexists. split; [reflexivity|]. unfold main_inv.
  cbn [fst snd Lab2.fs Lab2.objs Lab2.calls].
  split; [by rewrite !fmap_app, Hk0|].
  split; [apply Forall_app; split; [exact Hr0|by constructor]|].
  split; [exact Ho3|]. split; [exact HS4|].
  rewrite HC4, HC0, fmap_app, concat_app, <- app_assoc.
  cbn [fmap list_fmap concat]. by rewrite app_nil_r.
Qed.

Lemma lab2_main_spec (fuel : nat) (w : Lab2.world) :
  (100000 < Z.of_nat fuel)%Z → fs_ready (Lab2.fs w) →
  ∃ all_results w' (contents : Z → list Z),
    Lab2.main fuel w = Some (all_results, w') ∧
    (λ r, r.1.1) <$> all_results = Lab2.ALGORITHMS.*1 ∧
    Forall (λ r, r.2.*1 = Lab2.INPUT_SIZES) all_results ∧
    (∀ n, n ∈ Lab2.INPUT_SIZES → length (contents n) = Z.to_nat n) ∧
    (Lab2.calls w').*2
      = (Lab2.calls w).*2
        ++ concat ((λ _, expected_calls contents Lab2.INPUT_SIZES)
                     <$> Lab2.ALGORITHMS).
Proof.
  intros Hfuel Hready.
  destruct (ensure_dirs_spec _ Hready) as (fs1 & Hdirs & Hout & _).
  unfold Lab2.main. cbv zeta.
  match goal with
  | |- context [Lab2.with_fs ensure_dirs ?w0] =>
      rewrite (lab2_with_fs_Some ensure_dirs w0 fs1 Hdirs), bind_Some
  end.
  match goal with
  | |- context [for_loop Lab2.make_arrays (∅, ?w1) _] =>
      destruct (lab2_arrays w1) as (arrays & w2 & Harrays & S2 & F2 & C2 & Harr)
  end.
  cbn [Lab2.fs Lab2.calls] in F2, C2.
  rewrite Harrays, bind_Some. cbv beta iota.
  destruct (for_loop_invariant
              (main_inv (Lab2.objs w2) (contents_of arrays (Lab2.objs w2))
                 (Lab2.calls w).*2)
              (Lab2.main_body fuel arrays) Lab2.ALGORITHMS ([], w2))
    as ([all_results w3] & Hloop & Hkeys & Hrows & Hout3 & S3 & C3).
  { unfold main_inv. cbn [fst snd fmap list_fmap concat].
    split; [reflexivity|]. split; [constructor|].
    split; [rewrite F2; exact Hout|]. split; [reflexivity|].
    rewrite C2, app_nil_r. reflexivity. }
  { intros pre [key [title fn]] post st Hsplit Hinv.
    apply lab2_main_body_spec; [exact Hfuel|exact Harr| |exact Hinv].
    rewrite Hsplit. apply elem_of_app. right. apply elem_of_cons. by left. }
  cbn [fst snd] in Hkeys, Hrows, Hout3, S3, C3.
  rewrite Hloop, bind_Some. cbv beta iota.
  destruct (comparison_written "Sorting Algorithm Comparison" all_results
              (Lab2.fs w3) Hout3) as [fs2 Hcmp].
  match goal with
  | |- context [Lab2.with_fs ?f w3] =>
      rewrite (lab2_with_fs_Some f w3 fs2 Hcmp), bind_Some
  end.
  eexists all_results, _, (contents_of arrays (Lab2.objs w2)).
  split; [reflexivity|].
  split; [exact Hkeys|]. split; [exact Hrows|]. split; [|exact C3].
  intros n Hn. destruct (Harr n Hn) as (l & (a & Ha1 & Ha2) & Hlen).
  unfold contents_of. rewrite Ha1. cbn [mbind option_bind].
  rewrite Ha2. exact Hlen.
Qed.

End lab2_main.
End lab2_harness_proofs.

Section claims.
Local Open Scope string_scope.
Local Open Scope list_scope.
(** * A concrete runtime *)

Lemma tick_order : @FloatOrder tick_runtime.
Proof.
  split.
  - intros x. apply Z.ltb_irrefl.
  - intros x y z Hxy%Z.ltb_lt Hyz%Z.ltb_lt. apply Z.ltb_lt. lia.
Qed.

Lemma tick_elapsed_nonneg (c : nat) : @float_nonneg tick_runtime (@elapsed_at tick_runtime c).
Proof. apply Z.ltb_ge. cbn. lia. Qed.

Lemma tick_repr_plain (t : Z) : plain (@repr_float tick_runtime t).
Proof. apply pretty_Z_plain. Qed.

Lemma fs_ready_empty : fs_ready (Fsys ∅ ∅).
Proof.
  split; [done|]. split; [done|]. intros p Hp. by apply not_elem_of_empty in Hp.
Qed.

(** * The claims *)

(** C1. For every [n >= 0] the five Fibonacci implementations return the
    same value, the [n]-th Fibonacci number, as soon as the fuel covers
    their loops; every entry of the registry does.  The 5th number is 5
    and the 10th is 55. *)
Theorem fib_implementations_agree (n : Z) (fuel : nat) :
  (0 ≤ n)%Z → (2 * n + 1 ≤ Z.of_nat fuel)%Z →
  Lab1.fib_iterative n = fibZ n ∧
  Lab1.fib_memoized fuel n = Some (fibZ n) ∧
  Lab1.fib_fast_doubling fuel n = Some (fibZ n) ∧
  Lab1.fib_binomial n = Some (fibZ n) ∧
  Lab1.fib_matrix_fast fuel n = Some (fibZ n) ∧
  Forall (λ entry, entry.2.2 fuel n = Some (fibZ n)) Lab1.ALGORITHMS ∧
  fibZ 5 = 5%Z ∧ fibZ 10 = 55%Z.
Proof.
  intros Hn Hfuel.
  assert (Hreg : ∀ key title fn, (key, (title, fn)) ∈ Lab1.ALGORITHMS →
                   fn fuel n = Some (fibZ n)).
  { intros key title fn Hin. by eapply lab1_registered_correct. }
  split; [apply fib_iterative_spec|].
  split; [apply (Hreg "memoized" "Memoized Recursion"); set_solver|].
  split; [apply (Hreg "fast_doubling" "Fast Doubling"); set_solver|].
  split; [by apply fib_binomial_spec|].
  split; [apply (Hreg "matrix_fast" "Fast Matrix Exponentiation"); set_solver|].
  split; [|done].
  apply Forall_forall. intros [key [title fn]] Hin. by apply (Hreg key title).
Qed.

Lemma fib_implementations_agree_witness :
  ((0 ≤ 10)%Z ∧ (2 * 10 + 1 ≤ Z.of_nat 21)%Z) ∧
  (Lab1.fib_iterative 10 = fibZ 10 ∧
   Lab1.fib_memoized 21 10 = Some (fibZ 10) ∧
   Lab1.fib_fast_doubling 21 10 = Some (fibZ 10) ∧
   Lab1.fib_binomial 10 = Some (fibZ 10) ∧
   Lab1.fib_matrix_fast 21 10 = Some (fibZ 10) ∧
   Forall (λ entry, entry.2.2 21%nat 10%Z = Some (fibZ 10)) Lab1.ALGORITHMS ∧
   fibZ 5 = 5%Z ∧ fibZ 10 = 55%Z).
Proof.
  split; [split; [lia|vm_compute; discriminate]|].
  apply (fib_implementations_agree 10 21); [lia|vm_compute; discriminate].
Defined.

(** C2. Each of the four sorting algorithms, applied to a list object
    holding any list of integers, returns an object that holds a
    non-decreasing permutation of that list (the fuel covering the list's
    length). *)
Theorem sorting_algorithms_sort (l : list Z) (fuel : nat) (arr : loc) (σ : store) :
  σ !! arr = Some l → length l < fuel →
  sorted_result σ l (Lab2.quicksort fuel arr σ) ∧
  sorted_result σ l (Lab2.merge_sort fuel arr σ) ∧
  sorted_result σ l (Lab2.heapsort fuel arr σ) ∧
  sorted_result σ l (Lab2.shell_sort fuel arr σ).
Proof.
  intros Hl Hfuel.
  split; [by apply quicksort_spec|]. split; [by apply merge_sort_spec|].
  split; [by apply heapsort_spec|by apply shell_sort_spec].
Qed.

Lemma sorting_algorithms_sort_witness :
  (({[ 0 := [3; 1; 2]%Z ]} : store) !! 0 = Some [3; 1; 2]%Z ∧
   length [3; 1; 2]%Z < 4) ∧
  (sorted_result {[ 0 := [3; 1; 2]%Z ]} [3; 1; 2]%Z
     (Lab2.quicksort 4 0 {[ 0 := [3; 1; 2]%Z ]}) ∧
   sorted_result {[ 0 := [3; 1; 2]%Z ]} [3; 1; 2]%Z
     (Lab2.merge_sort 4 0 {[ 0 := [3; 1; 2]%Z ]}) ∧
   sorted_result {[ 0 := [3; 1; 2]%Z ]} [3; 1; 2]%Z
     (Lab2.heapsort 4 0 {[ 0 := [3; 1; 2]%Z ]}) ∧
   sorted_result {[ 0 := [3; 1; 2]%Z ]} [3; 1; 2]%Z
     (Lab2.shell_sort 4 0 {[ 0 := [3; 1; 2]%Z ]})).
Proof.
  split; [split; [reflexivity|cbn; lia]|].
  apply (sorting_algorithms_sort [3; 1; 2]%Z 4 0); [reflexivity|cbn; lia].
Defined.

(** C3. [time_run] calls the algorithm exactly three times, ignores what it
    returns, and returns the minimum of the three elapsed durations read off
    the clock.  In Lab1 the three calls get the input [n]; in Lab2 each gets
    a copy of the array. *)
Theorem time_run_best_of_three `{Runtime} `{!FloatOrder} :
  (∀ (fn : Z → option Z) (n : Z) (w : Lab1.world),
     is_Some (fn n) →
     ∃ best w',
       Lab1.time_run fn n w = Some (Some best, w') ∧
       Lab1.calls w' = Lab1.calls w ++ [n; n; n] ∧
       Lab1.clock w' = 6 + Lab1.clock w ∧
       minimum_of best
         [elapsed_at (Lab1.clock w); elapsed_at (2 + Lab1.clock w);
          elapsed_at (4 + Lab1.clock w)] ∧
       ∀ fn' : Z → option Z,
         is_Some (fn' n) → Lab1.time_run fn' n w = Some (Some best, w')) ∧
  (∀ (fn : loc → store → option (loc * store)) (arr : loc) (a : list Z)
     (w : Lab2.world),
     frames fn → runs_on a fn → Lab2.objs w !! arr = Some a →
     ∃ best w',
       Lab2.time_run fn arr w = Some (Some best, w') ∧
       (∃ d1 d2 d3, Lab2.calls w' = Lab2.calls w ++ [(d1, a); (d2, a); (d3, a)]) ∧
       Lab2.clock w' = 6 + Lab2.clock w ∧
       minimum_of best
         [elapsed_at (Lab2.clock w); elapsed_at (2 + Lab2.clock w);
          elapsed_at (4 + Lab2.clock w)]).
Proof.
  split.
  - intros fn n w Hfn. eexists _, _.
    split; [by apply lab1_time_run_spec|]. cbn [Lab1.calls Lab1.clock].
    split; [done|]. split; [done|]. split; [apply pick3_minimum|].
    intros fn' Hfn'. by apply lab1_time_run_spec.
  - intros fn arr a w Hfr Hruns Ha.
    destruct (lab2_time_run_runs fn arr a w Hfr Hruns Ha) as [[b w'] Hrun].
    destruct (lab2_time_run_effect fn arr a b w w' Hfr Ha Hrun)
      as ((_ & Hclock & _ & _ & _ & d1 & d2 & d3 & _ & _ & _ & Hcalls) & ->).
    eexists _, _. split; [exact Hrun|]. split; [by eauto|]. split; [done|].
    apply pick3_minimum.
Qed.

Lemma time_run_best_of_three_witness :
  @FloatOrder tick_runtime ∧
  ∃ best w',
    @Lab1.time_run tick_runtime (λ n, Some n) 7%Z (Lab1.World 0 [] (Fsys ∅ ∅))
      = Some (Some best, w') ∧
    Lab1.calls w' = [7; 7; 7]%Z ∧
    @minimum_of tick_runtime best
      [@elapsed_at tick_runtime 0; @elapsed_at tick_runtime 2;
       @elapsed_at tick_runtime 4].
Proof.
  split; [exact tick_order|].
  destruct (@time_run_best_of_three tick_runtime tick_order) as [Hlab1 _].
  destruct (Hlab1 (λ n, Some n) 7%Z (Lab1.World 0 [] (Fsys ∅ ∅)))
    as (best & w' & Hrun & Hcalls & _ & Hmin & _); [by eexists|].
  exists best, w'. split; [exact Hrun|]. split; [exact Hcalls|exact Hmin].
Defined.

(** C4. The list [all_results] that [main] builds has one entry per
    registered algorithm, in registry order, and each entry's rows hold one
    pair per input size, in the order of the sizes. *)
Theorem main_results_shape `{Runtime} (fuel : nat) (w1 : Lab1.world) (w2 : Lab2.world) :
  (100000 < Z.of_nat fuel)%Z →
  fs_ready (Lab1.fs w1) → fs_ready (Lab2.fs w2) →
  (∃ all_results w',
     Lab1.main fuel w1 = Some (all_results, w') ∧
     (λ r, r.1.1) <$> all_results = Lab1.ALGORITHMS.*1 ∧
     Forall (λ r, r.2.*1 = Lab1.INPUT_SIZES) all_results) ∧
  (∃ all_results w',
     Lab2.main fuel w2 = Some (all_results, w') ∧
     (λ r, r.1.1) <$> all_results = Lab2.ALGORITHMS.*1 ∧
     Forall (λ r, r.2.*1 = Lab2.INPUT_SIZES) all_results) ∧
  NoDup Lab1.ALGORITHMS.*1 ∧ NoDup Lab2.ALGORITHMS.*1 ∧
  NoDup Lab1.INPUT_SIZES ∧ NoDup Lab2.INPUT_SIZES.
Proof.
  intros Hfuel Hr1 Hr2. split; [|split].
  - destruct (lab1_main_spec fuel w1 ltac:(lia) Hr1) as (res & w' & ?).
    by exists res, w'.
  - destruct (lab2_main_spec fuel w2 Hfuel Hr2)
      as (res & w' & contents & Hrun & Hkeys & Hrows & _).
    by exists res, w'.
  - repeat split; apply (bool_decide_unpack _); by vm_compute.
Qed.

Lemma main_results_shape_witness :
  ((100000 < Z.of_nat (Z.to_nat 100001))%Z ∧
   fs_ready (Fsys ∅ ∅) ∧ fs_ready (Fsys ∅ ∅)) ∧
  (∃ all_results w',
     @Lab1.main tick_runtime (Z.to_nat 100001) (Lab1.World 0 [] (Fsys ∅ ∅))
       = Some (all_results, w') ∧
     (λ r, r.1.1) <$> all_results = Lab1.ALGORITHMS.*1 ∧
     Forall (λ r, r.2.*1 = Lab1.INPUT_SIZES) all_results).
Proof.
  split; [split; [lia|split; apply fs_ready_empty]|].
  apply (@main_results_shape tick_runtime (Z.to_nat 100001)
           (Lab1.World 0 [] (Fsys ∅ ∅)) (Lab2.World ∅ 0 0 [] (Fsys ∅ ∅) []));
    [lia|apply fs_ready_empty|apply fs_ready_empty].
Defined.

(** C5. In the sorting lab the array generated for a size is the one every
    algorithm is measured on, and no measurement changes it: [time_run]
    passes the algorithm a new copy in each trial, so the object it was
    given holds afterwards what it held before. *)
Theorem arrays_shared_and_unchanged `{Runtime} (fuel : nat) (w : Lab2.world) :
  (100000 < Z.of_nat fuel)%Z → fs_ready (Lab2.fs w) →
  (∀ key title fn arr a w0,
     (key, (title, fn)) ∈ Lab2.ALGORITHMS →
     Lab2.objs w0 !! arr = Some a →
     (length a < fuel → is_Some (Lab2.time_run (fn fuel) arr w0)) ∧
     ∀ best w',
       Lab2.time_run (fn fuel) arr w0 = Some (best, w') →
       Lab2.objs w' !! arr = Some a ∧ Lab2.objs w0 ⊆ Lab2.objs w' ∧
       ∃ d1 d2 d3,
         d1 ≠ arr ∧ d2 ≠ arr ∧ d3 ≠ arr ∧
         Lab2.calls w' = Lab2.calls w0 ++ [(d1, a); (d2, a); (d3, a)]) ∧
  (∃ all_results w' (contents : Z → list Z),
     Lab2.main fuel w = Some (all_results, w') ∧
     (∀ n, n ∈ Lab2.INPUT_SIZES → length (contents n) = Z.to_nat n) ∧
     (Lab2.calls w').*2
       = (Lab2.calls w).*2
         ++ concat ((λ _, expected_calls contents Lab2.INPUT_SIZES)
                      <$> Lab2.ALGORITHMS)).
Proof.
  intros Hfuel Hready. split.
  - intros key title fn arr a w0 Hin Ha.
    destruct (lab2_registered key title fn Hin) as [Hsorts Hpres].
    pose proof (preserves_frames fn fuel Hpres) as Hfr.
    split.
    + intros Hlen. eapply lab2_time_run_runs; [done| |done].
      by apply sorts_runs_on.
    + intros best w' Hrun.
      destruct (lab2_time_run_effect (fn fuel) arr a best w0 w' Hfr Ha Hrun)
        as ((HS & _ & _ & _ & _ & d1 & d2 & d3 & N1 & N2 & N3 & Hcalls) & _).
      split; [by eapply lookup_weaken|]. split; [done|].
      exists d1, d2, d3. repeat split; try done; intros ->; congruence.
  - destruct (lab2_main_spec fuel w Hfuel Hready)
      as (res & w' & contents & Hrun & _ & _ & Hlen & Hcalls).
    by exists res, w', contents.
Qed.

Lemma arrays_shared_and_unchanged_witness :
  ((100000 < Z.of_nat (Z.to_nat 100001))%Z ∧ fs_ready (Fsys ∅ ∅)) ∧
  (∃ all_results w' (contents : Z → list Z),
     @Lab2.main tick_runtime (Z.to_nat 100001) (Lab2.World ∅ 0 0 [] (Fsys ∅ ∅) [])
       = Some (all_results, w') ∧
     (∀ n, n ∈ Lab2.INPUT_SIZES → length (contents n) = Z.to_nat n) ∧
     (Lab2.calls w').*2
       = concat ((λ _, expected_calls contents Lab2.INPUT_SIZES)
                   <$> Lab2.ALGORITHMS)).
Proof.
  split; [split; [lia|apply fs_ready_empty]|].
  apply (@arrays_shared_and_unchanged tick_runtime (Z.to_nat 100001)
           (Lab2.World ∅ 0 0 [] (Fsys ∅ ∅) [])); [lia|apply fs_ready_empty].
Defined.

(** C6. When the three elapsed durations read off the clock during a run
    of [time_run] are non-negative, the number it returns is non-negative,
    for every registered algorithm at every input size. *)
Theorem time_run_nonnegative `{Runtime} (fuel : nat) (c : nat) :
  (100000 < Z.of_nat fuel)%Z →
  float_nonneg (elapsed_at c) → float_nonneg (elapsed_at (2 + c)) →
  float_nonneg (elapsed_at (4 + c)) →
  (∀ key title fn n w,
     (key, (title, fn)) ∈ Lab1.ALGORITHMS → n ∈ Lab1.INPUT_SIZES →
     Lab1.clock w = c →
     ∃ best w',
       Lab1.time_run (fn fuel) n w = Some (Some best, w') ∧ float_nonneg best) ∧
  (∀ key title fn n arr a w,
     (key, (title, fn)) ∈ Lab2.ALGORITHMS → n ∈ Lab2.INPUT_SIZES →
     Lab2.objs w !! arr = Some a → length a = Z.to_nat n →
     Lab2.clock w = c →
     ∃ best w',
       Lab2.time_run (fn fuel) arr w = Some (Some best, w') ∧ float_nonneg best).
Proof.
  intros Hfuel H0 H2 H4. split.
  - intros key title fn n w Hin Hn Hc.
    pose proof lab1_sizes_bounded as Hb. rewrite Forall_forall in Hb.
    specialize (Hb n Hn).
    eexists _, _. split.
    + apply lab1_time_run_spec.
      rewrite (lab1_registered_correct key title fn fuel n Hin); [done|lia|lia].
    + rewrite Hc. by apply pick3_nonneg.
  - intros key title fn n arr a w Hin Hn Ha Hlen Hc.
    pose proof lab2_sizes_bounded as Hb. rewrite Forall_forall in Hb.
    specialize (Hb n Hn).
    destruct (lab2_registered key title fn Hin) as [Hsorts Hpres].
    pose proof (preserves_frames fn fuel Hpres) as Hfr.
    destruct (lab2_time_run_runs (fn fuel) arr a w Hfr) as [[b w'] Hrun]; [|done|].
    { apply sorts_runs_on; [done|lia]. }
    destruct (lab2_time_run_effect (fn fuel) arr a b w w' Hfr Ha Hrun) as (_ & ->).
    eexists _, _. split; [exact Hrun|]. rewrite Hc. by apply pick3_nonneg.
Qed.

Lemma time_run_nonnegative_witness :
  ((100000 < Z.of_nat (Z.to_nat 100001))%Z ∧
   @float_nonneg tick_runtime (@elapsed_at tick_runtime 0) ∧
   @float_nonneg tick_runtime (@elapsed_at tick_runtime 2) ∧
   @float_nonneg tick_runtime (@elapsed_at tick_runtime 4)) ∧
  ∃ best w',
    @Lab1.time_run tick_runtime (Lab1.fib_memoized (Z.to_nat 100001)) 10%Z
      (Lab1.World 0 [] (Fsys ∅ ∅)) = Some (Some best, w') ∧
    @float_nonneg tick_runtime best.
Proof.
  split; [split; [lia|repeat split; apply tick_elapsed_nonneg]|].
  destruct (@time_run_nonnegative tick_runtime (Z.to_nat 100001) 0 ltac:(lia)
              (tick_elapsed_nonneg 0) (tick_elapsed_nonneg 2) (tick_elapsed_nonneg 4))
    as [Hlab1 _].
  apply (Hlab1 "memoized" "Memoized Recursion" Lab1.fib_memoized 10%Z).
  - apply elem_of_cons. right. apply elem_of_cons. left. reflexivity.
  - apply (bool_decide_unpack _). by vm_compute.
  - reflexivity.
Defined.

(** C7. Running the export step ([write_csv], then [write_table]) a second
    time with the same key and rows leaves the file system as the first run
    left it: both files are opened for writing anew, so their contents are
    replaced and nothing is appended. *)
Theorem export_overwrites `{Runtime} (name : string) (rows : list (Z * pyfloat))
    (fs fs1 : fsys) :
  export name rows fs = Some fs1 →
  export name rows fs1 = Some fs1 ∧
  files fs1 !! csv_path name = Some (csv_content rows) ∧
  files fs1 !! table_path name = Some (table_content name rows).
Proof.
  intros Hrun. split; [exact (export_idempotent name rows fs fs1 Hrun)|].
  unfold export in Hrun. rewrite write_csv_put in Hrun.
  unfold put_file in Hrun at 1.
  destruct (decide (can_open (csv_path name) fs)); [|done].
  cbn [mbind option_bind] in Hrun. rewrite write_table_put in Hrun.
  unfold put_file in Hrun. destruct (decide (can_open (table_path name) _)); [|done].
  injection Hrun as <-. cbn [files].
  split; [|apply lookup_insert_eq].
  rewrite lookup_insert_ne by (symmetry; apply paths_differ).
  apply lookup_insert_eq.
Qed.

Lemma export_overwrites_witness :
  @export tick_runtime "iterative" [(5, 2); (10, 3)]%Z (Fsys {[ "results" ]} ∅)
    = Some (Fsys {[ "results" ]}
              (<[ @table_path "iterative"
                  := @table_content tick_runtime "iterative" [(5, 2); (10, 3)]%Z ]>
                 (<[ @csv_path "iterative"
                     := @csv_content tick_runtime [(5, 2); (10, 3)]%Z ]> ∅))) ∧
  @export tick_runtime "iterative" [(5, 2); (10, 3)]%Z
    (Fsys {[ "results" ]}
       (<[ @table_path "iterative"
           := @table_content tick_runtime "iterative" [(5, 2); (10, 3)]%Z ]>
          (<[ @csv_path "iterative"
              := @csv_content tick_runtime [(5, 2); (10, 3)]%Z ]> ∅)))
    = Some (Fsys {[ "results" ]}
              (<[ @table_path "iterative"
                  := @table_content tick_runtime "iterative" [(5, 2); (10, 3)]%Z ]>
                 (<[ @csv_path "iterative"
                     := @csv_content tick_runtime [(5, 2); (10, 3)]%Z ]> ∅))).
Proof.
  assert (Hrun : @export tick_runtime "iterative" [(5, 2); (10, 3)]%Z
                   (Fsys {[ "results" ]} ∅)
                 = Some (Fsys {[ "results" ]}
                           (<[ @table_path "iterative"
                               := @table_content tick_runtime "iterative"
                                    [(5, 2); (10, 3)]%Z ]>
                              (<[ @csv_path "iterative"
                                  := @csv_content tick_runtime [(5, 2); (10, 3)]%Z ]> ∅)))).
  { apply (@export_succeeds tick_runtime); apply (bool_decide_unpack _); by vm_compute. }
  split; [exact Hrun|].
  exact (proj1 (@export_overwrites tick_runtime _ _ _ _ Hrun)).
Defined.

(** C8. [write_csv] writes the file [results/<key>.csv]: whatever the file
    held before, it then holds the header line [n,time_s] followed by one
    line per row, in the order of the rows, each made of the size, a comma
    and the time.  The keys of both registries are such keys. *)
Theorem write_csv_contents `{Runtime} (name : string) (rows : list (Z * pyfloat))
    (fs : fsys) :
  no_slash name → can_open (csv_path name) fs →
  csv_path name = "results/" +:+ name +:+ ".csv" ∧
  write_csv name rows fs
    = Some (Fsys (dirs fs) (<[csv_path name := csv_content rows]> (files fs))) ∧
  csv_content rows = ("n,time_s" +:+ CRLF) +:+ str_concat (csv_line <$> rows) ∧
  (∀ (n : Z) (t : pyfloat),
     csv_line (n, t) = pretty n +:+ "," +:+ csv_field (repr_float t) +:+ CRLF) ∧
  ((∀ t, plain (repr_float t)) →
   crlf_lines (csv_content rows)
     = "n,time_s" :: ((λ row, pretty row.1 +:+ "," +:+ repr_float row.2) <$> rows) ∧
   ∀ (n : Z) (t : pyfloat),
     comma_fields (pretty n +:+ "," +:+ repr_float t) = [pretty n; repr_float t]) ∧
  Forall (λ entry, no_slash entry.1) Lab1.ALGORITHMS ∧
  Forall (λ entry, no_slash entry.1) Lab2.ALGORITHMS.
Proof.
  intros Hname Hopen. split.
  { unfold csv_path. rewrite path_join_plain; [done| |done|done].
    by apply no_slash_app. }
  split.
  { rewrite write_csv_put. unfold put_file. by rewrite decide_True. }
  split; [reflexivity|]. split; [apply csv_line_unfold|].
  split; [|split; [apply lab1_keys_no_slash|apply lab2_keys_no_slash]].
  intros Hplain. split; [by apply csv_content_lines|].
  intros n t. by apply csv_line_fields.
Qed.

Lemma write_csv_contents_witness :
  (no_slash "iterative" ∧
   can_open (@csv_path "iterative") (Fsys {[ "results" ]} ∅)) ∧
  @write_csv tick_runtime "iterative" [(5, 2); (10, 3)]%Z (Fsys {[ "results" ]} ∅)
    = Some (Fsys {[ "results" ]}
              (<[ @csv_path "iterative"
                  := @csv_content tick_runtime [(5, 2); (10, 3)]%Z ]> ∅)).
Proof.
  assert (Hopen : can_open (@csv_path "iterative") (Fsys {[ "results" ]} ∅)).
  { apply (bool_decide_unpack _). by vm_compute. }
  split; [split; [reflexivity|exact Hopen]|].
  exact (proj1 (proj2 (@write_csv_contents tick_runtime "iterative"
                         [(5, 2); (10, 3)]%Z (Fsys {[ "results" ]} ∅)
                         eq_refl Hopen))).
Defined.

(** C9. None of the four sorting functions changes the list it is given:
    whenever one of them returns, the argument object holds what it held
    before the call, and so does every other object that existed. *)
Theorem sorts_leave_argument (fuel : nat) (arr : loc) (σ : store) (a : list Z) :
  σ !! arr = Some a →
  Forall
    (λ sort : nat → loc → store → option (loc * store),
       (length a < fuel → is_Some (sort fuel arr σ)) ∧
       ∀ r σ', sort fuel arr σ = Some (r, σ') → σ' !! arr = Some a ∧ σ ⊆ σ')
    [Lab2.quicksort; Lab2.merge_sort; Lab2.heapsort; Lab2.shell_sort].
Proof.
  intros Ha.
  assert (Hall : ∀ sort, sorts sort → preserves sort →
            (length a < fuel → is_Some (sort fuel arr σ)) ∧
            ∀ r σ', sort fuel arr σ = Some (r, σ') → σ' !! arr = Some a ∧ σ ⊆ σ').
  { intros sort Hs Hp. split.
    - intros Hlen. destruct (Hs fuel arr σ a Ha Hlen) as (r & σ' & a' & -> & _).
      by eexists.
    - intros r σ' Hrun. pose proof (Hp fuel arr σ r σ' Hrun) as Hsub.
      split; [by eapply lookup_weaken|done]. }
  apply Forall_cons. split.
  { apply Hall; intros ?; [apply quicksort_spec|apply quicksort_frame]. }
  apply Forall_cons. split.
  { apply Hall; intros ?; [apply merge_sort_spec|apply merge_sort_frame]. }
  apply Forall_cons. split.
  { apply Hall; intros ?; [apply heapsort_spec|apply heapsort_frame]. }
  apply Forall_cons. split.
  { apply Hall; intros ?; [apply shell_sort_spec|apply shell_sort_frame]. }
  apply Forall_nil_2.
Qed.

Lemma sorts_leave_argument_witness :
  ({[ 0 := [3; 1; 2]%Z ]} : store) !! 0 = Some [3; 1; 2]%Z ∧
  Forall
    (λ sort : nat → loc → store → option (loc * store),
       (length [3; 1; 2]%Z < 4 → is_Some (sort 4 0 {[ 0 := [3; 1; 2]%Z ]})) ∧
       ∀ r σ', sort 4 0 {[ 0 := [3; 1; 2]%Z ]} = Some (r, σ') →
               σ' !! 0 = Some [3; 1; 2]%Z ∧ ({[ 0 := [3; 1; 2]%Z ]} : store) ⊆ σ')
    [Lab2.quicksort; Lab2.merge_sort; Lab2.heapsort; Lab2.shell_sort].
Proof.
  split; [reflexivity|].
  apply (sorts_leave_argument 4 0 {[ 0 := [3; 1; 2]%Z ]} [3; 1; 2]%Z).
  reflexivity.
Defined.

(** C10. For every [n >= 0] the stack loop of [fib_memoized] empties its
    stack, within [2 * n] iterations, and the recursion of [solve] in
    [fib_fast_doubling] reaches zero, its argument halving at every call,
    within one call per binary digit of [n] and one more. *)
Theorem fib_loops_terminate (n : Z) (fuel : nat) :
  (0 ≤ n)%Z → (2 * n + 1 ≤ Z.of_nat fuel)%Z →
  ((2 ≤ n)%Z → is_Some (Lab1.memo_loop fuel {[0 := 0; 1 := 1]}%Z [n])) ∧
  is_Some (Lab1.fib_memoized fuel n) ∧
  ((0 < n)%Z → (0 ≤ n / 2 < n)%Z) ∧
  (∀ depth : nat, (n < 2 ^ Z.of_nat depth)%Z → is_Some (Lab1.solve (S depth) n)) ∧
  is_Some (Lab1.solve fuel n) ∧
  is_Some (Lab1.fib_fast_doubling fuel n).
Proof.
  intros Hn Hfuel.
  assert (Hsolve : ∀ depth : nat, (n < 2 ^ Z.of_nat depth)%Z →
                     is_Some (Lab1.solve (S depth) n)).
  { intros depth Hd. rewrite <- (Z2Nat.id n) by lia.
    rewrite solve_spec by lia. by eexists. }
  assert (Hpow : (n < 2 ^ Z.of_nat (fuel - 1))%Z).
  { eapply Z.lt_le_trans; [apply (Z.pow_gt_lin_r 2 n); lia|].
    apply Z.pow_le_mono_r; lia. }
  assert (Hfuel' : fuel = S (fuel - 1)) by lia.
  split.
  { intros Hn2. destruct (memo_loop_spec fuel n Hn2 ltac:(lia)) as (memo & -> & _).
    by eexists. }
  split; [rewrite fib_memoized_spec by lia; by eexists|].
  split; [intros Hpos; split; [apply Z.div_pos; lia|apply Z.div_lt; lia]|].
  split; [exact Hsolve|].
  split; [rewrite Hfuel'; by apply Hsolve|].
  rewrite Hfuel', fib_fast_doubling_spec by lia. by eexists.
Qed.

Lemma fib_loops_terminate_witness :
  ((0 ≤ 10)%Z ∧ (2 * 10 + 1 ≤ Z.of_nat 21)%Z) ∧
  (is_Some (Lab1.fib_memoized 21 10) ∧ is_Some (Lab1.fib_fast_doubling 21 10)).
Proof.
  split; [split; [lia|vm_compute; discriminate]|].
  destruct (fib_loops_terminate 10 21 ltac:(lia) ltac:(vm_compute; discriminate))
    as (_ & Hmemo & _ & _ & _ & Hfast).
  by split.
Defined.
End claims.

Section fibonacci_properties.
Local Open Scope Z_scope.
(** * Further properties of the Fibonacci algorithms *)

Lemma fibZ_of_nat (k : nat) : fibZ (Z.of_nat k) = fib k.
Proof. unfold fibZ. by rewrite Nat2Z.id. Qed.

Lemma fibZ_succ_of_nat (k : nat) : fibZ (Z.of_nat k + 1) = fib (S k).
Proof. unfold fibZ. f_equal. lia. Qed.

Lemma for_loop_app {S A : Type} (f : S → A → option S) (l1 l2 : list A) (s : S) :
  for_loop f s (l1 ++ l2) = s' ← for_loop f s l1; for_loop f s' l2.
Proof.
  revert s. induction l1 as [|x l1 IH]; intros s; [reflexivity|].
  cbn [for_loop app]. destruct (f s x); [apply IH|reflexivity].
Qed.

Lemma solve_short (depth : nat) :
  ∀ k : Z, 2 ^ Z.of_nat depth ≤ k → Lab1.solve (S depth) k = None.
Proof.
  induction depth as [|depth IH]; intros k Hk.
  - change (2 ^ Z.of_nat 0) with 1 in Hk. cbn [Lab1.solve].
    destruct (Z.eqb_spec k 0); [lia|reflexivity].
  - remember (S depth) as d eqn:Hd. cbn [Lab1.solve]. subst d.
    rewrite Nat2Z.inj_succ, Z.pow_succ_r in Hk by lia.
    destruct (Z.eqb_spec k 0) as [->|_]; [lia|].
    rewrite IH; [reflexivity|]. apply Z.div_le_lower_bound; lia.
Qed.

Lemma mat_pow_loop_short (fuel : nat) :
  ∀ (result base : Lab1.mat2) (p : Z),
    2 ^ Z.of_nat fuel ≤ p → Lab1.mat_pow_loop fuel result base p = None.
Proof.
  induction fuel as [|fuel IH]; intros result base p Hp.
  - change (2 ^ Z.of_nat 0) with 1 in Hp. cbn [Lab1.mat_pow_loop].
    destruct (Z.gtb_spec p 0); [reflexivity|lia].
  - rewrite Nat2Z.inj_succ, Z.pow_succ_r in Hp by lia.
    cbn [Lab1.mat_pow_loop].
    destruct (Z.gtb_spec p 0); [|lia].
    apply IH. rewrite Z.shiftr_div_pow2 by lia. change (2 ^ 1) with 2.
    apply Z.div_le_lower_bound; lia.
Qed.

Lemma mat_pow_loop_nonpositive (fuel : nat) (result base : Lab1.mat2) (p : Z) :
  p ≤ 0 → Lab1.mat_pow_loop fuel result base p = Some result.
Proof.
  intros Hp. destruct fuel; cbn [Lab1.mat_pow_loop];
    by destruct (Z.gtb_spec p 0); [lia|].
Qed.

Lemma fib_fast_doubling_negative (fuel : nat) (n : Z) :
  n < 0 → Lab1.fib_fast_doubling fuel n = None.
Proof. intros Hn. unfold Lab1.fib_fast_doubling. by rewrite solve_negative. Qed.

(** X1. A negative argument sends [fib_fast_doubling] into a recursion that
    never reaches its base case: [solve] returns for no recursion depth. *)
Theorem fast_doubling_negative_never_returns (fuel : nat) (n : Z) :
  n < 0 →
  n / 2 < 0 ∧ Lab1.solve fuel n = None ∧ Lab1.fib_fast_doubling fuel n = None.
Proof.
  intros Hn. split; [apply Z.div_lt_upper_bound; lia|].
  split; [by apply solve_negative|by apply fib_fast_doubling_negative].
Qed.

Lemma fast_doubling_negative_never_returns_witness :
  -1 < 0 ∧ Lab1.fib_fast_doubling 1000 (-1) = None.
Proof.
  split; [lia|].
  exact (proj2 (proj2 (fast_doubling_negative_never_returns 1000 (-1) ltac:(lia)))).
Defined.

(** X2. Below zero the other four implementations return at once, without
    entering their loops, and not with the same value: [fib_iterative],
    [fib_binomial] and [fib_matrix_fast] return 0, [fib_memoized] returns
    its argument. *)
Theorem fib_below_zero (fuel : nat) (n : Z) :
  n < 0 →
  Lab1.fib_iterative n = 0 ∧
  Lab1.fib_memoized fuel n = Some n ∧
  Lab1.fib_binomial n = Some 0 ∧
  Lab1.fib_matrix_fast fuel n = Some 0.
Proof.
  intros Hn. repeat split.
  - unfold Lab1.fib_iterative. by rewrite Z2Nat.nonpos by lia.
  - unfold Lab1.fib_memoized. by destruct (Z.ltb_spec n 2); [|lia].
  - unfold Lab1.fib_binomial. destruct (Z.eqb_spec n 0); [lia|].
    unfold seqZ. rewrite Z2Nat.nonpos; [reflexivity|].
    assert ((n - 1) / 2 < 0) by (apply Z.div_lt_upper_bound; lia). lia.
  - unfold Lab1.fib_matrix_fast, Lab1.mat_pow. destruct (Z.eqb_spec n 0); [lia|].
    by rewrite mat_pow_loop_nonpositive by lia.
Qed.

Lemma fib_below_zero_witness :
  -3 < 0 ∧ Lab1.fib_iterative (-3) = 0 ∧ Lab1.fib_memoized 0 (-3) = Some (-3) ∧
  Lab1.fib_binomial (-3) = Some 0 ∧ Lab1.fib_matrix_fast 0 (-3) = Some 0.
Proof. split; [lia|]. apply (fib_below_zero 0 (-3)). lia. Defined.

(** X3. [solve k] returns the pair of the [k]-th and the next Fibonacci
    number, and the recursion is exactly one call deeper than [k] has binary
    digits: with that many nested calls it returns, with fewer it does not. *)
Theorem solve_pair_and_depth (depth : nat) (k : Z) :
  0 ≤ k →
  (k < 2 ^ Z.of_nat depth →
     Lab1.solve (S depth) k = Some (fibZ k, fibZ (k + 1))) ∧
  (2 ^ Z.of_nat depth ≤ k → Lab1.solve (S depth) k = None) ∧
  Lab1.solve 0 k = None.
Proof.
  intros Hk. split; [|split; [apply solve_short|reflexivity]].
  intros Hlt. rewrite <- (Z2Nat.id k) by lia.
  rewrite solve_spec by lia. by rewrite fibZ_of_nat, fibZ_succ_of_nat.
Qed.

Lemma solve_pair_and_depth_witness :
  0 ≤ 5 ∧ Lab1.solve 4 5 = Some (fibZ 5, fibZ 6) ∧ Lab1.solve 3 5 = None.
Proof.
  split; [lia|].
  split.
  - exact (proj1 (solve_pair_and_depth 3 5 ltac:(lia)) ltac:(by vm_compute)).
  - exact (proj1 (proj2 (solve_pair_and_depth 2 5 ltac:(lia))) ltac:(by vm_compute)).
Defined.

(** X4. [mat_pow p] is the [p]-th power of [[1, 1], [1, 0]], the matrix of
    the Fibonacci numbers around [p]; its loop runs once per binary digit of
    [p], and for [p <= 0] not at all, which leaves the identity matrix. *)
Theorem mat_pow_fibonacci (fuel : nat) (p : Z) :
  (p ≤ 0 → Lab1.mat_pow fuel p = Some (Lab1.Mat2 1 0 0 1)) ∧
  (1 ≤ p → p < 2 ^ Z.of_nat fuel →
     Lab1.mat_pow fuel p
     = Some (Lab1.Mat2 (fibZ (p + 1)) (fibZ p) (fibZ p) (fibZ (p - 1)))) ∧
  (2 ^ Z.of_nat fuel ≤ p → Lab1.mat_pow fuel p = None).
Proof.
  unfold Lab1.mat_pow. split; [apply mat_pow_loop_nonpositive|].
  split; [|apply mat_pow_loop_short].
  intros Hp Hlt.
  change (Lab1.Mat2 1 0 0 1) with (fib_mat 0).
  change (Lab1.Mat2 1 1 1 0) with (fib_mat 1).
  rewrite <- (Z2Nat.id p) at 1 by lia.
  rewrite mat_pow_loop_spec by lia. unfold fib_mat. cbn [Nat.add].
  rewrite Nat.mul_1_l.
  destruct (Z.to_nat p) as [|q] eqn:Hq; [lia|].
  assert (p = Z.of_nat (S q)) as -> by lia.
  rewrite fibZ_succ_of_nat, fibZ_of_nat.
  replace (Z.of_nat (S q) - 1) with (Z.of_nat q) by lia.
  rewrite fibZ_of_nat, (fib_SS q). do 2 f_equal. ring.
Qed.

Lemma mat_pow_fibonacci_witness :
  (1 ≤ 10 ∧ 10 < 2 ^ Z.of_nat 4) ∧
  Lab1.mat_pow 4 10 = Some (Lab1.Mat2 (fibZ 11) (fibZ 10) (fibZ 10) (fibZ 9)).
Proof.
  split; [by vm_compute|].
  apply (proj1 (proj2 (mat_pow_fibonacci 4 10))); [lia|by vm_compute].
Defined.

(** X5. [mat_mul] is associative and [[1, 0], [0, 1]] is neutral for it on
    both sides, which is what lets [mat_pow] square the base and multiply
    the powers in any grouping. *)
Theorem mat_mul_monoid (a b c : Lab1.mat2) :
  Lab1.mat_mul (Lab1.mat_mul a b) c = Lab1.mat_mul a (Lab1.mat_mul b c) ∧
  Lab1.mat_mul (Lab1.Mat2 1 0 0 1) a = a ∧
  Lab1.mat_mul a (Lab1.Mat2 1 0 0 1) = a.
Proof.
  destruct a, b, c. unfold Lab1.mat_mul.
  cbn [Lab1.m00 Lab1.m01 Lab1.m10 Lab1.m11].
  repeat split; f_equal; ring.
Qed.

(** X6. In the loop of [fib_binomial] for [n = N + 1], after [j] iterations
    [term] is the binomial coefficient [C(N - j, j)] and [total] the sum of
    the [j] coefficients before it; the floor division that updates [term]
    never divides by zero and is exact. *)
Theorem binomial_loop_state (N j : nat) :
  (j ≤ N / 2)%nat →
  let n := Z.of_nat (S N) in
  let k := Z.of_nat j in
  let numerator := (n - 2 * k - 1) * (n - 2 * k - 2) in
  let denominator := (k + 1) * (n - k - 1) in
  for_loop (Lab1.binomial_body n ((n - 1) / 2)) (1, 0) (seqZ 0 k)
    = Some (binom (N - j) j, diag_sum N j) ∧
  ((j < N / 2)%nat →
     0 < denominator ∧
     (binom (N - j) j * numerator) mod denominator = 0 ∧
     binom (N - j) j * numerator / denominator = binom (N - S j) (S j)).
Proof.
  intros Hj n k numerator denominator.
  pose proof (Nat.div_mod_eq N 2) as Hdiv.
  pose proof (Nat.mod_upper_bound N 2 ltac:(lia)) as Hmod.
  assert (Hmax : (n - 1) / 2 = Z.of_nat (N / 2)).
  { subst n. rewrite (Nat2Z.inj_div N 2). f_equal. lia. }
  assert (Hstep : ∀ i : nat, (i < N / 2)%nat →
            (Z.of_nat i + 1) * (n - Z.of_nat i - 1) ≠ 0 ∧
            binom (N - i) i
              * ((n - 2 * Z.of_nat i - 1) * (n - 2 * Z.of_nat i - 2))
            = binom (N - S i) (S i)
              * ((Z.of_nat i + 1) * (n - Z.of_nat i - 1))).
  { intros i Hi. subst n. split; [nia|].
    assert (Hm : (N - i = S (N - S i))%nat) by lia.
    rewrite Hm.
    replace ((Z.of_nat (S N) - 2 * Z.of_nat i - 1) * (Z.of_nat (S N) - 2 * Z.of_nat i - 2))
      with ((Z.of_nat (S (N - S i)) - Z.of_nat i) * (Z.of_nat (N - S i) - Z.of_nat i))
      by (f_equal; lia).
    rewrite binom_next. f_equal. lia. }
  split.
  - subst k. clear numerator denominator. rewrite Hmax.
    induction j as [|j IH]; [by rewrite binom_0_r|].
    rewrite seqZ_S.
    rewrite for_loop_app, IH by lia. cbn [mbind option_bind for_loop].
    rewrite Z.add_0_l. unfold Lab1.binomial_body.
    destruct (Z.ltb_spec (Z.of_nat j) (Z.of_nat (N / 2))); [|lia].
    destruct (Hstep j ltac:(lia)) as [Hden Heq].
    unfold floordiv. destruct (Z.eqb_spec ((Z.of_nat j + 1) * (n - Z.of_nat j - 1)) 0); [done|].
    rewrite Heq, Z.div_mul by done. reflexivity.
  - intros Hlt. destruct (Hstep j Hlt) as [Hden Heq].
    subst numerator denominator k. rewrite Heq.
    split; [apply Z.mul_pos_pos; lia|].
    split; [by apply Z.mod_mul|by apply Z.div_mul].
Qed.

Lemma binomial_loop_state_witness :
  (2 ≤ 9 / 2)%nat ∧
  for_loop (Lab1.binomial_body 10 ((10 - 1) / 2)) (1, 0) (seqZ 0 2)
    = Some (binom 7 2, diag_sum 9 2).
Proof.
  assert (Hj : (2 ≤ 9 / 2)%nat) by (vm_compute; lia).
  split; [exact Hj|].
  exact (proj1 (binomial_loop_state 9 2 Hj)).
Defined.

(** X7. When the stack loop of [fib_memoized] ends, the memo table holds the
    Fibonacci number of every index from 0 to [n] and no other key. *)
Theorem memo_table_complete (fuel : nat) (n : Z) :
  2 ≤ n → 2 * n ≤ Z.of_nat fuel →
  ∃ memo : gmap Z Z,
    Lab1.memo_loop fuel {[0 := 0; 1 := 1]} [n] = Some memo ∧
    ∀ i : Z, memo !! i = if decide (0 ≤ i ≤ n) then Some (fibZ i) else None.
Proof.
  intros Hn Hfuel.
  destruct (memo_loop_spec fuel n Hn Hfuel) as (memo & Hrun & Hmemo).
  exists memo. split; [done|]. intros i. rewrite (Hmemo i).
  by repeat case_decide; try lia.
Qed.

Lemma memo_table_complete_witness :
  (2 ≤ 6 ∧ 2 * 6 ≤ Z.of_nat 12) ∧
  ∃ memo : gmap Z Z,
    Lab1.memo_loop 12 {[0 := 0; 1 := 1]} [6] = Some memo ∧
    ∀ i : Z, memo !! i = if decide (0 ≤ i ≤ 6) then Some (fibZ i) else None.
Proof.
  split; [lia|]. apply (memo_table_complete 12 6); lia.
Defined.

(** X8. The stack loop of [fib_memoized] only ever adds entries to the memo
    table: whatever table and stack it starts from, every entry of the
    table it started with is in the table it ends with, unchanged. *)
Theorem memo_loop_keeps_entries (fuel : nat) (memo memo' : gmap Z Z) (stack : list Z) :
  Lab1.memo_loop fuel memo stack = Some memo' → memo ⊆ memo'.
Proof.
  revert memo stack. induction fuel as [|fuel IH]; intros memo stack Hrun.
  { destruct stack; [|done]. by injection Hrun as ->. }
  destruct stack as [|k stack]; [by injection Hrun as ->|].
  cbn [Lab1.memo_loop] in Hrun.
  destruct (decide (is_Some (memo !! k))) as [Hin|Hout]; [by apply IH in Hrun|].
  apply eq_None_not_Some in Hout.
  destruct (memo !! (k - 1)) as [v1|], (memo !! (k - 2)) as [v2|];
    apply IH in Hrun; try done.
  etrans; [|exact Hrun]. by apply insert_subseteq.
Qed.

Lemma memo_loop_keeps_entries_witness :
  Lab1.memo_loop 4 {[0 := 0; 1 := 1; 7 := 13]} [3]
    = Some {[0 := 0; 1 := 1; 2 := 1; 3 := 2; 7 := 13]} ∧
  ({[0 := 0; 1 := 1; 7 := 13]} : gmap Z Z)
    ⊆ {[0 := 0; 1 := 1; 2 := 1; 3 := 2; 7 := 13]}.
Proof.
  assert (Hrun : Lab1.memo_loop 4 {[0 := 0; 1 := 1; 7 := 13]} [3]
                 = Some {[0 := 0; 1 := 1; 2 := 1; 3 := 2; 7 := 13]}).
  { by vm_compute. }
  split; [exact Hrun|]. exact (memo_loop_keeps_entries _ _ _ _ Hrun).
Defined.
End fibonacci_properties.

Section sorting_properties.
Local Open Scope list_scope.
(** * Further properties of the sorting algorithms *)

(** ** Which object a sort returns *)







(** ** _merge *)

(** X10. [_merge] returns a list with exactly the elements of its two
    arguments; when both arguments are in non-decreasing order, so is the
    result.  The loop runs at most once per element, and not at all when
    one argument is empty: the other one is then the result. *)
Theorem merge_of_sorted_lists (fuel : nat) (left_ right_ : list Z) :
  length left_ + length right_ ≤ fuel →
  (∃ result,
     Lab2._merge fuel left_ right_ = Some result ∧
     result ≡ₚ left_ ++ right_ ∧
     length result = length left_ + length right_ ∧
     (Sorted Z.le left_ → Sorted Z.le right_ → Sorted Z.le result)) ∧
  Lab2._merge 0 [] right_ = Some right_ ∧
  Lab2._merge 0 left_ [] = Some left_.
Proof.
  intros Hfuel. split; [|split].
  - exists (list_merge Z.le left_ right_).
    split; [by apply _merge_spec|].
    split; [apply merge_Permutation|].
    split; [by rewrite merge_Permutation, length_app|].
    apply (Sorted_list_merge Z.le).
  - reflexivity.
  - unfold Lab2._merge. cbn [Lab2.merge_loop length].
    rewrite andb_false_r. cbn [mbind option_bind drop].
    by rewrite app_nil_l, app_nil_r.
Qed.

Lemma merge_of_sorted_lists_witness :
  length [1; 4; 4]%Z + length [2; 4]%Z ≤ 5 ∧
  ∃ result,
    Lab2._merge 5 [1; 4; 4]%Z [2; 4]%Z = Some result ∧
    result ≡ₚ [1; 4; 4]%Z ++ [2; 4]%Z ∧
    length result = length [1; 4; 4]%Z + length [2; 4]%Z ∧
    (Sorted Z.le [1; 4; 4]%Z → Sorted Z.le [2; 4]%Z → Sorted Z.le result).
Proof.
  assert (Hfuel : length [1; 4; 4]%Z + length [2; 4]%Z ≤ 5) by (cbn; lia).
  split; [exact Hfuel|].
  exact (proj1 (merge_of_sorted_lists 5 [1; 4; 4]%Z [2; 4]%Z Hfuel)).
Defined.

(** ** _heapify *)

Lemma heapify_prefix (fuel : nat) :
  ∀ (arr : list Z) (n i : nat) (arr' : list Z),
    Lab2._heapify fuel arr n i = Some arr' → take i arr' = take i arr.
Proof.
  induction fuel as [|fuel IH]; intros arr n i arr' Hrun; [done|].
  cbn [Lab2._heapify] in Hrun.
  assert (Htail : ∀ L, i ≤ L →
     (if (L =? i)%nat then Some arr
      else
        x ← list_get arr L;
        y ← list_get arr i;
        arr0 ← list_set arr i x;
        arr1 ← list_set arr0 L y;
        Lab2._heapify fuel arr1 n L) = Some arr' →
     take i arr' = take i arr).
  { intros L HL Ht. destruct (Nat.eqb_spec L i); [by injection Ht as <-|].
    destruct (list_get arr L) as [x|]; [|done]. cbn [mbind option_bind] in Ht.
    destruct (list_get arr i) as [y|]; [|done]. cbn [mbind option_bind] in Ht.
    unfold list_set in Ht.
    destruct (i <? length arr)%nat; [|done]. cbn [mbind option_bind] in Ht.
    destruct (L <? length (<[i:=x]> arr))%nat; [|done].
    cbn [mbind option_bind] in Ht.
    apply IH in Ht. apply (f_equal (take i)) in Ht.
    rewrite !take_take, !Nat.min_l in Ht by lia.
    by rewrite Ht, !take_insert_ge by lia. }
  destruct (2 * i + 1 <? n)%nat.
  - destruct (list_get arr (2 * i + 1)) as [x1|]; [|done].
    cbn [mbind option_bind] in Hrun.
    destruct (list_get arr i) as [y1|]; [|done].
    cbn [mbind option_bind] in Hrun.
    destruct (x1 >? y1)%Z.
    + destruct (2 * i + 2 <? n)%nat.
      * destruct (list_get arr (2 * i + 2)) as [x2|]; [|done].
        cbn [mbind option_bind] in Hrun.
        destruct (list_get arr (2 * i + 1)) as [y2|]; [|done].
        cbn [mbind option_bind] in Hrun.
        destruct (x2 >? y2)%Z; apply Htail in Hrun; (done || lia).
      * cbn [mbind option_bind] in Hrun. apply Htail in Hrun; (done || lia).
    + destruct (2 * i + 2 <? n)%nat.
      * destruct (list_get arr (2 * i + 2)) as [x2|]; [|done].
        cbn [mbind option_bind] in Hrun.
        destruct (list_get arr i) as [y2|]; [|done].
        cbn [mbind option_bind] in Hrun.
        destruct (x2 >? y2)%Z; apply Htail in Hrun; (done || lia).
      * cbn [mbind option_bind] in Hrun. apply Htail in Hrun; (done || lia).
  - cbn [mbind option_bind] in Hrun.
    destruct (2 * i + 2 <? n)%nat.
    + destruct (list_get arr (2 * i + 2)) as [x2|]; [|done].
      cbn [mbind option_bind] in Hrun.
      destruct (list_get arr i) as [y2|]; [|done].
      cbn [mbind option_bind] in Hrun.
      destruct (x2 >? y2)%Z; apply Htail in Hrun; (done || lia).
    + cbn [mbind option_bind] in Hrun. apply Htail in Hrun; (done || lia).
Qed.

(** X11. [_heapify(arr, n, i)] sifts the entry at [i] down: if every node
    after [i] is at least as large as its children (among the first [n]
    entries), then afterwards every node from [i] on is.  It rearranges the
    first [n] entries only, and of these only the ones from [i] on. *)
Theorem heapify_restores_heap (fuel : nat) (a : list Z) (n i : nat) :
  n ≤ length a → n - i < fuel → heap_from a n (S i) →
  ∃ a',
    Lab2._heapify fuel a n i = Some a' ∧
    heap_from a' n i ∧
    length a' = length a ∧ take n a' ≡ₚ take n a ∧
    take i a' = take i a ∧ drop n a' = drop n a.
Proof.
  intros Hn Hfuel Hheap.
  destruct (heapify_spec fuel a n i i Hn ltac:(lia) Hfuel)
    as (a' & Hrun & Hlen & Hpost & Hperm & Hdrop).
  { split.
    - intros k Hk Hne. apply Hheap. lia.
    - intros k c Hk Hparent. lia. }
  exists a'. split; [done|]. split; [done|]. split; [done|]. split; [done|].
  split; [exact (heapify_prefix fuel a n i a' Hrun)|done].
Qed.

Lemma heapify_restores_heap_witness :
  (5 ≤ length [1; 9; 8; 3; 4; 0]%Z ∧ 5 - 0 < 6 ∧
   heap_from [1; 9; 8; 3; 4; 0]%Z 5 1) ∧
  ∃ a',
    Lab2._heapify 6 [1; 9; 8; 3; 4; 0]%Z 5 0 = Some a' ∧
    heap_from a' 5 0.
Proof.
  assert (Hheap : heap_from [1; 9; 8; 3; 4; 0]%Z 5 1).
  { intros k Hk. split; intros Hc.
    - assert (k = 1) as -> by lia. cbn. lia.
    - assert (k = 1) as -> by lia. cbn. lia. }
  assert (Hn : 5 ≤ length [1; 9; 8; 3; 4; 0]%Z) by (cbn; lia).
  split; [split; [exact Hn|split; [lia|exact Hheap]]|].
  destruct (heapify_restores_heap 6 [1; 9; 8; 3; 4; 0]%Z 5 0 Hn ltac:(lia) Hheap)
    as (a' & Hrun & Hpost & _).
  exists a'. split; [exact Hrun|exact Hpost].
Defined.

(** X12. [_heapify] at a node without children among the first [n] entries
    returns at once and reads nothing; called with an [n] beyond the end of
    the list, it raises as soon as it looks at a child that is not there. *)
Theorem heapify_edge_cases (fuel : nat) (a : list Z) (n i : nat) :
  (n ≤ 2 * i + 1 → Lab2._heapify (S fuel) a n i = Some a) ∧
  (length a ≤ 2 * i + 1 → 2 * i + 1 < n → Lab2._heapify (S fuel) a n i = None).
Proof.
  split.
  - intros Hleaf. cbn [Lab2._heapify].
    destruct (Nat.ltb_spec (2 * i + 1) n); [lia|].
    destruct (Nat.ltb_spec (2 * i + 2) n); [lia|].
    cbn [mbind option_bind]. by rewrite Nat.eqb_refl.
  - intros Hlen Hn. cbn [Lab2._heapify].
    destruct (Nat.ltb_spec (2 * i + 1) n); [|lia].
    replace (list_get a (2 * i + 1)) with (@None Z)
      by (symmetry; apply lookup_ge_None_2; lia).
    reflexivity.
Qed.

Lemma heapify_edge_cases_witness :
  (3 ≤ 2 * 1 + 1 ∧ Lab2._heapify 1 [5; 6; 7]%Z 3 1 = Some [5; 6; 7]%Z) ∧
  (length [5; 6; 7]%Z ≤ 2 * 1 + 1 ∧ 2 * 1 + 1 < 4 ∧
   Lab2._heapify 1 [5; 6; 7]%Z 4 1 = None).
Proof.
  split.
  - split; [lia|]. apply (proj1 (heapify_edge_cases 0 [5; 6; 7]%Z 3 1)). lia.
  - split; [cbn; lia|]. split; [lia|].
    apply (proj2 (heapify_edge_cases 0 [5; 6; 7]%Z 4 1)); cbn; lia.
Defined.

(** ** heapsort *)

(** X13. The first loop of [heapsort] turns the list into a max-heap: the
    entries are the same, every entry is at least as large as its two
    children, and the largest entry is at index 0. *)
Theorem heapsort_build_makes_heap (fuel : nat) (a : list Z) :
  length a < fuel →
  ∃ a',
    Lab2.heapsort_build fuel (length a) a = Some a' ∧ a' ≡ₚ a ∧
    heap_from a' (length a) 0 ∧
    ∀ j, j < length a → Z.le (a' !!! j) (a' !!! 0).
Proof.
  intros Hfuel. unfold Lab2.heapsort_build.
  destruct (heapsort_build_loop fuel (length a) (length a / 2) a)
    as (a' & Hrun & Hlen & Hheap & Hperm & _); [done|done| |].
  { intros k Hk. pose proof (Nat.div_mod_eq (length a) 2).
    pose proof (Nat.mod_upper_bound (length a) 2). split; lia. }
  exists a'. split; [done|].
  split; [by rewrite <- (take_ge a' (length a)), Hperm, take_ge by lia|].
  split; [done|]. by apply heap_root_max.
Qed.

Lemma heapsort_build_makes_heap_witness :
  length [3; 1; 4; 1; 5; 9; 2; 6]%Z < 9 ∧
  ∃ a',
    Lab2.heapsort_build 9 (length [3; 1; 4; 1; 5; 9; 2; 6]%Z)
      [3; 1; 4; 1; 5; 9; 2; 6]%Z = Some a' ∧
    a' ≡ₚ [3; 1; 4; 1; 5; 9; 2; 6]%Z.
Proof.
  assert (Hfuel : length [3; 1; 4; 1; 5; 9; 2; 6]%Z < 9) by (cbn; lia).
  split; [exact Hfuel|].
  destruct (heapsort_build_makes_heap 9 [3; 1; 4; 1; 5; 9; 2; 6]%Z Hfuel)
    as (a' & Hrun & Hperm & _).
  exists a'. split; [exact Hrun|exact Hperm].
Defined.

(** ** shell_sort *)

Lemma shell_gaps_short (inner : nat) (fuel : nat) :
  ∀ (n gap : nat) (arr : list Z),
    2 ^ fuel ≤ gap → Lab2.shell_gaps fuel inner n gap arr = None.
Proof.
  induction fuel as [|fuel IH]; intros n gap arr Hgap.
  - cbn in Hgap. cbn [Lab2.shell_gaps]. by destruct (Nat.ltb_spec 0 gap); [|lia].
  - rewrite Nat.pow_succ_r' in Hgap. cbn [Lab2.shell_gaps].
    pose proof (Nat.pow_nonzero 2 fuel ltac:(lia)).
    destruct (Nat.ltb_spec 0 gap); [|lia].
    destruct (for_loop _ _ _) as [arr1|]; [|done]. cbn [mbind option_bind].
    apply IH. apply Nat.div_le_lower_bound; lia.
Qed.

Lemma shell_gaps_passes (inner : nat) (fuel : nat) :
  ∀ (gap : nat) (arr : list Z),
    gap < 2 ^ fuel → length arr ≤ inner →
    ∃ arr', Lab2.shell_gaps fuel inner (length arr) gap arr = Some arr' ∧
            arr' ≡ₚ arr ∧ (1 ≤ gap → sorted_upto (length arr) arr') ∧
            (gap = 0 → arr' = arr).
Proof.
  induction fuel as [|fuel IH]; intros gap arr Hgap Hinner.
  { assert (gap = 0) as -> by (cbn in Hgap; lia).
    exists arr. split; [done|]. split; [done|]. split; [lia|done]. }
  rewrite Nat.pow_succ_r' in Hgap.
  cbn [Lab2.shell_gaps].
  destruct (Nat.ltb_spec 0 gap) as [Hpos|Hz].
  2:{ exists arr. split; [done|]. split; [done|]. split; [lia|done]. }
  assert (Hhalf : gap / 2 < 2 ^ fuel) by (apply Nat.Div0.div_lt_upper_bound; lia).
  destruct (decide (gap = 1)) as [->|Hne].
  - change (1 / 2) with 0.
    destruct (decide (length arr = 0)) as [Hnil|Hcons].
    + rewrite Hnil. cbn [Nat.sub seq for_loop mbind option_bind].
      exists arr. split; [by destruct fuel|]. split; [done|].
      split; [|lia]. intros _ j k ??. lia.
    + destruct (shell_pass_sorted inner (length arr - 1) 1 arr)
        as (arr1 & -> & Hperm1 & Hsorted1); [lia|lia|lia| |].
      { intros j k ??. by assert (j = k) as -> by lia. }
      cbn [mbind option_bind].
      exists arr1. split; [by destruct fuel|]. split; [done|].
      split; [by intros _|lia].
  - destruct (shell_pass_perm inner gap (seq gap (length arr - gap)) arr)
      as (arr1 & -> & Hperm1); [lia| |].
    { apply Forall_forall. intros i Hi. apply elem_of_seq in Hi. lia. }
    cbn [mbind option_bind].
    pose proof (Permutation_length Hperm1) as Hlen1.
    destruct (IH (gap / 2) arr1 Hhalf ltac:(lia)) as (arr2 & Hrun & Hperm2 & Hsorted2 & _).
    rewrite Hlen1 in Hrun. rewrite Hrun.
    exists arr2. split; [done|]. split; [by rewrite Hperm2|].
    split; [|lia]. intros _. rewrite <- Hlen1. apply Hsorted2.
    apply Nat.div_le_lower_bound; lia.
Qed.

(** X14. The gap loop of [shell_sort], started with any gap, makes one pass
    per binary digit of that gap and returns the entries in non-decreasing
    order; every pass only rearranges the list, and the pass with gap 1
    sorts whatever the earlier passes left.  Started with gap 0, as for a
    list of fewer than two entries, it returns the list as it is. *)
Theorem shell_gap_loop (fuel inner gap : nat) (arr : list Z) :
  length arr ≤ inner →
  (gap < 2 ^ fuel →
     ∃ arr', Lab2.shell_gaps fuel inner (length arr) gap arr = Some arr' ∧
             arr' ≡ₚ arr ∧ (1 ≤ gap → Sorted Z.le arr') ∧ (gap = 0 → arr' = arr)) ∧
  (2 ^ fuel ≤ gap → Lab2.shell_gaps fuel inner (length arr) gap arr = None) ∧
  (1 ≤ gap →
     ∃ arr', for_loop (Lab2.shell_insert inner gap) arr (seq gap (length arr - gap))
             = Some arr' ∧ arr' ≡ₚ arr ∧ (gap = 1 → Sorted Z.le arr')).
Proof.
  intros Hinner. split; [|split; [apply shell_gaps_short|]].
  - intros Hgap.
    destruct (shell_gaps_passes inner fuel gap arr Hgap Hinner)
      as (arr' & Hrun & Hperm & Hsorted & Hzero).
    exists arr'. split; [done|]. split; [done|]. split; [|done].
    intros Hpos. apply sorted_upto_Sorted.
    rewrite (Permutation_length Hperm). by apply Hsorted.
  - intros Hpos. destruct (decide (gap = 1)) as [->|Hne].
    + destruct (decide (length arr = 0)) as [Hnil|Hcons].
      * rewrite Hnil. exists arr. split; [done|]. split; [done|].
        intros _. destruct arr; [constructor|done].
      * destruct (shell_pass_sorted inner (length arr - 1) 1 arr)
          as (arr1 & Hrun & Hperm1 & Hsorted1); [lia|lia|lia| |].
        { intros j k ??. by assert (j = k) as -> by lia. }
        exists arr1. split; [done|]. split; [done|]. intros _.
        apply sorted_upto_Sorted. by rewrite (Permutation_length Hperm1).
    + destruct (shell_pass_perm inner gap (seq gap (length arr - gap)) arr)
        as (arr1 & Hrun & Hperm1); [lia| |].
      { apply Forall_forall. intros i Hi. apply elem_of_seq in Hi. lia. }
      exists arr1. split; [done|]. split; [done|]. intros ->. lia.
Qed.

Lemma shell_gap_loop_witness :
  (length [5; 2; 9; 1; 7]%Z ≤ 5 ∧ 2 < 2 ^ 2) ∧
  ∃ arr', Lab2.shell_gaps 2 5 (length [5; 2; 9; 1; 7]%Z) 2 [5; 2; 9; 1; 7]%Z
          = Some arr' ∧ arr' ≡ₚ [5; 2; 9; 1; 7]%Z.
Proof.
  assert (Hinner : length [5; 2; 9; 1; 7]%Z ≤ 5) by (cbn; lia).
  assert (Hgap : 2 < 2 ^ 2) by (cbn; lia).
  split; [split; [exact Hinner|exact Hgap]|].
  destruct (proj1 (shell_gap_loop 2 5 2 [5; 2; 9; 1; 7]%Z Hinner) Hgap)
    as (arr' & Hrun & Hperm & _).
  exists arr'. split; [exact Hrun|exact Hperm].
Defined.

(** ** The four algorithms together *)

Lemma sorted_result_content (σ : store) (l : list Z) (res : option (loc * store)) :
  sorted_result σ l res →
  ∃ r σ', res = Some (r, σ') ∧ σ' !! r = Some (merge_sort Z.le l).
Proof.
  intros (r & σ' & a' & -> & _ & Hr & Hsorted & Hperm).
  exists r, σ'. split; [done|]. rewrite Hr. f_equal.
  apply (Sorted_unique Z.le); [done|apply (Sorted_merge_sort Z.le)|].
  by rewrite Hperm, merge_sort_Permutation.
Qed.

(** X15. On every list the four sorting algorithms return the same list,
    entry for entry: the one non-decreasing arrangement of the entries.  A
    list that is already in order is returned with the same content. *)
Theorem sorting_algorithms_agree (l : list Z) (fuel : nat) (arr : loc) (σ : store) :
  σ !! arr = Some l → length l < fuel →
  Forall
    (λ sort : nat → loc → store → option (loc * store),
       ∃ r σ', sort fuel arr σ = Some (r, σ') ∧ σ' !! r = Some (merge_sort Z.le l))
    [Lab2.quicksort; Lab2.merge_sort; Lab2.heapsort; Lab2.shell_sort] ∧
  Sorted Z.le (merge_sort Z.le l) ∧ merge_sort Z.le l ≡ₚ l ∧
  (Sorted Z.le l → merge_sort Z.le l = l).
Proof.
  intros Ha Hfuel. split; [|split; [|split]].
  - apply Forall_cons. split.
    { apply (sorted_result_content σ). by apply quicksort_spec. }
    apply Forall_cons. split.
    { apply (sorted_result_content σ). by apply merge_sort_spec. }
    apply Forall_cons. split.
    { apply (sorted_result_content σ). by apply heapsort_spec. }
    apply Forall_cons. split.
    { apply (sorted_result_content σ). by apply shell_sort_spec. }
    apply Forall_nil_2.
  - apply (Sorted_merge_sort Z.le).
  - apply merge_sort_Permutation.
  - intros Hsorted. apply (Sorted_unique Z.le); [|done|].
    + apply (Sorted_merge_sort Z.le).
    + apply merge_sort_Permutation.
Qed.

Lemma sorting_algorithms_agree_witness :
  (({[0 := [3; 1; 2]%Z]} : store) !! 0 = Some [3; 1; 2]%Z ∧
   length [3; 1; 2]%Z < 4) ∧
  ∃ r σ', Lab2.heapsort 4 0 {[0 := [3; 1; 2]%Z]} = Some (r, σ') ∧
          σ' !! r = Some (merge_sort Z.le [3; 1; 2]%Z).
Proof.
  assert (Ha : ({[0 := [3; 1; 2]%Z]} : store) !! 0 = Some [3; 1; 2]%Z) by reflexivity.
  assert (Hfuel : length [3; 1; 2]%Z < 4) by (cbn; lia).
  split; [split; [exact Ha|exact Hfuel]|].
  pose proof (proj1 (sorting_algorithms_agree [3; 1; 2]%Z 4 0 {[0 := [3; 1; 2]%Z]}
                       Ha Hfuel)) as Hall.
  apply Forall_cons in Hall as [_ Hall].
  apply Forall_cons in Hall as [_ Hall].
  apply Forall_cons in Hall as [Hheap _].
  exact Hheap.
Defined.
End sorting_properties.

Section export_further.
Local Open Scope string_scope.
Local Open Scope list_scope.
(** * Further properties of the export functions *)

(** ** Strings *)

Lemma str_length_app (s1 s2 : string) :
  String.length (s1 +:+ s2) = String.length s1 + String.length s2.
Proof.
  induction s1 as [|c s1 IH]; [done|].
  rewrite str_app_cons. cbn [String.length]. by rewrite IH.
Qed.

Lemma str_app_inv_tail (t : string) :
  ∀ s1 s2 : string, s1 +:+ t = s2 +:+ t → s1 = s2.
Proof.
  induction s1 as [|c1 s1 IH]; intros [|c2 s2] Heq.
  - done.
  - apply (f_equal String.length) in Heq.
    rewrite str_app_nil_l, str_length_app in Heq. cbn [String.length] in Heq. lia.
  - apply (f_equal String.length) in Heq.
    rewrite str_app_nil_l, str_length_app in Heq. cbn [String.length] in Heq. lia.
  - rewrite !str_app_cons in Heq. injection Heq as -> Heq. f_equal. by apply IH.
Qed.

Lemma ends_with_app (c : ascii) (s t : string) :
  t ≠ EmptyString → ends_with c (s +:+ t) = ends_with c t.
Proof.
  intros Ht. induction s as [|c' s IH]; [done|].
  rewrite str_app_cons. cbn [ends_with]. rewrite IH.
  destruct (s +:+ t) eqn:E; [|done].
  destruct s; [|done]. by rewrite str_app_nil_l in E.
Qed.

Lemma lf_lines_app (l rest : string) :
  no_lf l → lf_lines (l +:+ LF +:+ rest) = l :: lf_lines rest.
Proof.
  unfold no_lf. induction l as [|c l IH]; intros Hl.
  - rewrite str_app_nil_l. reflexivity.
  - cbn [str_exists] in Hl. apply orb_false_iff in Hl as [Hc Hl].
    rewrite str_app_cons. cbn [lf_lines]. rewrite Hc. by rewrite (IH Hl).
Qed.

Lemma no_lf_app (s1 s2 : string) : no_lf s1 → no_lf s2 → no_lf (s1 +:+ s2).
Proof. unfold no_lf. intros H1 H2. by rewrite str_exists_app, H1, H2. Qed.

Lemma plain_no_lf (s : string) : plain s → no_lf s.
Proof.
  unfold plain, no_lf. induction s as [|c s IH]; [done|].
  cbn [str_exists]. intros [Hc Hs]%orb_false_iff.
  rewrite (IH Hs), orb_false_r.
  unfold csv_special in Hc. by apply orb_false_iff in Hc as [_ Hc].
Qed.

Lemma replace_underscores_clean (s : string) :
  str_exists (λ c, Ascii.eqb c "_") (replace_underscores s) = false ∧
  String.length (replace_underscores s) = String.length s.
Proof.
  induction s as [|c s [IH1 IH2]]; [done|].
  cbn [replace_underscores str_exists String.length]. rewrite IH1, IH2.
  split; [|done]. rewrite orb_false_r.
  destruct (Ascii.eqb c "_") eqn:E; [reflexivity|exact E].
Qed.

(** ** The paths of the output files *)

Lemma csv_path_plain (name : string) :
  no_slash name → csv_path name = "results/" +:+ name +:+ ".csv".
Proof.
  intros Hn. unfold csv_path. rewrite path_join_plain; [done| |done|done].
  by apply no_slash_app.
Qed.

Lemma table_path_plain (name : string) :
  no_slash name → table_path name = "results/" +:+ name +:+ "_table.tex".
Proof.
  intros Hn. unfold table_path. rewrite path_join_plain; [done| |done|done].
  by apply no_slash_app.
Qed.

Lemma figure_path_plain (name : string) :
  no_slash name → figure_path name = "figures/" +:+ name +:+ ".png".
Proof.
  intros Hn. unfold figure_path. rewrite path_join_plain; [done| |done|done].
  by apply no_slash_app.
Qed.

Lemma csv_path_inj (k1 k2 : string) :
  no_slash k1 → no_slash k2 → csv_path k1 = csv_path k2 → k1 = k2.
Proof.
  intros H1 H2. rewrite !csv_path_plain by done. intros Heq.
  apply (inj (String.append "results/")) in Heq.
  by apply str_app_inv_tail in Heq.
Qed.

Lemma table_path_inj (k1 k2 : string) :
  no_slash k1 → no_slash k2 → table_path k1 = table_path k2 → k1 = k2.
Proof.
  intros H1 H2. rewrite !table_path_plain by done. intros Heq.
  apply (inj (String.append "results/")) in Heq.
  by apply str_app_inv_tail in Heq.
Qed.

Lemma figure_path_inj (k1 k2 : string) :
  no_slash k1 → no_slash k2 → figure_path k1 = figure_path k2 → k1 = k2.
Proof.
  intros H1 H2. rewrite !figure_path_plain by done. intros Heq.
  apply (inj (String.append "figures/")) in Heq.
  by apply str_app_inv_tail in Heq.
Qed.

Lemma csv_path_not_table (k1 k2 : string) :
  no_slash k1 → no_slash k2 → csv_path k1 ≠ table_path k2.
Proof.
  intros H1 H2. rewrite csv_path_plain, table_path_plain by done. intros Heq.
  apply (inj (String.append "results/")) in Heq.
  apply (f_equal (ends_with "v")) in Heq.
  by rewrite !ends_with_app in Heq.
Qed.

Lemma results_not_figures (s1 s2 : string) : "results/" +:+ s1 ≠ "figures/" +:+ s2.
Proof. rewrite !str_app_cons. discriminate. Qed.

Section export_properties.
Context `{Runtime}.

Lemma put_file_frame (path content : string) (fs fs' : fsys) :
  put_file path content fs = Some fs' →
  dirs fs' = dirs fs ∧ files fs' !! path = Some content ∧
  ∀ p, p ≠ path → files fs' !! p = files fs !! p.
Proof.
  unfold put_file. case_decide; [|done]. intros [= <-]. cbn [dirs files].
  split; [done|]. split; [apply lookup_insert_eq|].
  intros p Hp. by apply lookup_insert_ne.
Qed.

Lemma put_file_closed (path content : string) (fs : fsys) :
  ¬ can_open path fs → put_file path content fs = None.
Proof. intros Hno. unfold put_file. by rewrite decide_False. Qed.

Lemma plot_single_put (xlabel name title : string) (rows : list (Z * pyfloat))
    (fs : fsys) :
  plot_single xlabel name title rows fs
  = put_file (figure_path name) (png_single xlabel title rows) fs.
Proof. unfold plot_single. by rewrite savefig_put. Qed.

Lemma plot_comparison_put (heading : string)
    (all_results : list (string * string * list (Z * pyfloat))) (fs : fsys) :
  plot_comparison heading all_results fs
  = put_file comparison_path
      (png_comparison heading ((λ '(_, title, rows), (title, rows)) <$> all_results)) fs.
Proof. unfold plot_comparison. by rewrite savefig_put. Qed.

Lemma ensure_dirs_raises (fs : fsys) :
  ensure_dirs fs = None ↔
    is_Some (files fs !! "results") ∨ is_Some (files fs !! "figures").
Proof.
  unfold ensure_dirs, makedirs.
  destruct (decide (is_Some (files fs !! "results"))) as [Hr|Hr].
  { cbn [mbind option_bind]. split; [by left|done]. }
  cbn [mbind option_bind files].
  destruct (decide (is_Some (files fs !! "figures"))) as [Hf|Hf].
  { split; [by right|done]. }
  split; [done|]. by intros [?|?].
Qed.

Lemma ensure_dirs_effect (fs fs' : fsys) :
  ensure_dirs fs = Some fs' →
  dirs fs' = {["results"; "figures"]} ∪ dirs fs ∧ files fs' = files fs ∧
  ensure_dirs fs' = Some fs'.
Proof.
  unfold ensure_dirs, makedirs. intros Hrun.
  destruct (decide (is_Some (files fs !! "results"))) as [Hr|Hr]; [done|].
  cbn [mbind option_bind files dirs] in Hrun.
  destruct (decide (is_Some (files fs !! "figures"))) as [Hf|Hf]; [done|].
  injection Hrun as <-. cbn [dirs files].
  split.
  { apply set_eq. intros x. rewrite !elem_of_union, !elem_of_singleton. tauto. }
  split; [done|].
  rewrite decide_False by done. cbn [mbind option_bind files dirs].
  rewrite decide_False by done. do 2 f_equal.
  apply set_eq. intros x. rewrite !elem_of_union, !elem_of_singleton. tauto.
Qed.

(** X16. [ensure_dirs] raises exactly when a regular file is in the place
    of one of the two directories.  Otherwise it adds the directories
    [results] and [figures] to the ones that exist, leaves every file as it
    is, and can be run again with no further effect. *)
Theorem ensure_dirs_outcome (fs : fsys) :
  (ensure_dirs fs = None ↔
     is_Some (files fs !! "results") ∨ is_Some (files fs !! "figures")) ∧
  (∀ fs', ensure_dirs fs = Some fs' →
     dirs fs' = {["results"; "figures"]} ∪ dirs fs ∧ files fs' = files fs ∧
     ensure_dirs fs' = Some fs').
Proof.
  split; [apply ensure_dirs_raises|].
  intros fs' Hrun. by apply ensure_dirs_effect.
Qed.

Lemma ensure_dirs_outcome_witness :
  ensure_dirs (Fsys ∅ {["results" := "x"]}) = None ∧
  ∃ fs', ensure_dirs (Fsys {["figures"]} {["notes.txt" := "x"]}) = Some fs' ∧
         files fs' = {["notes.txt" := "x"]} ∧ ensure_dirs fs' = Some fs'.
Proof.
  split.
  - apply (proj1 (ensure_dirs_outcome (Fsys ∅ {["results" := "x"]}))).
    left. by eexists.
  - assert (Hrun : ∃ fs', ensure_dirs (Fsys {["figures"]} {["notes.txt" := "x"]})
                          = Some fs') by (by eexists).
    destruct Hrun as [fs' Hrun]. exists fs'. split; [exact Hrun|].
    destruct (proj2 (ensure_dirs_outcome _) fs' Hrun) as (_ & Hfiles & Hagain).
    split; [exact Hfiles|exact Hagain].
Defined.

(** X17. None of the export functions creates a directory: without the
    directory [results], [write_csv] and [write_table] raise, and without
    the directory [figures], [plot_single] and [plot_comparison] raise. *)
Theorem exports_need_directories (name xlabel title heading : string)
    (rows : list (Z * pyfloat))
    (all_results : list (string * string * list (Z * pyfloat))) (fs : fsys) :
  no_slash name →
  ("results" ∉ dirs fs →
     write_csv name rows fs = None ∧ write_table name rows fs = None) ∧
  ("figures" ∉ dirs fs →
     plot_single xlabel name title rows fs = None ∧
     plot_comparison heading all_results fs = None).
Proof.
  intros Hn. split; intros Hdir.
  - rewrite write_csv_put, write_table_put. split; apply put_file_closed.
    + rewrite csv_path_plain by done. intros [[Hd|Hd] _].
      * rewrite dirname_results in Hd; [done|by apply no_slash_app].
      * rewrite dirname_results in Hd; [done|by apply no_slash_app].
    + rewrite table_path_plain by done. intros [[Hd|Hd] _].
      * rewrite dirname_results in Hd; [done|by apply no_slash_app].
      * rewrite dirname_results in Hd; [done|by apply no_slash_app].
  - rewrite plot_single_put, plot_comparison_put. split; apply put_file_closed.
    + rewrite figure_path_plain by done. intros [[Hd|Hd] _].
      * rewrite dirname_figures in Hd; [done|by apply no_slash_app].
      * rewrite dirname_figures in Hd; [done|by apply no_slash_app].
    + intros [[Hd|Hd] _]; [by vm_compute in Hd|].
      by change (dirname comparison_path) with "figures" in Hd.
Qed.

(** X18. [write_table] puts into [results/<key>_table.tex], whatever that
    file held, seven fixed lines, one line [n & t\\] per row in the order of
    the rows, and three closing lines; the caption is made from the key with
    its underscores replaced by spaces.  Nothing else is changed. *)
Theorem write_table_contents (name : string) (rows : list (Z * pyfloat)) (fs : fsys) :
  no_slash name → can_open (table_path name) fs →
  table_path name = "results/" +:+ name +:+ "_table.tex" ∧
  write_table name rows fs
    = Some (Fsys (dirs fs) (<[table_path name := table_content name rows]> (files fs))) ∧
  str_exists (λ c, Ascii.eqb c "_") (replace_underscores name) = false ∧
  ((∀ s, no_lf (str_title s)) → (∀ t, no_lf (format_6f t)) →
   lf_lines (table_content name rows)
   = ["\begin{table}[H]"; "\centering";
      "\caption{" +:+ str_title (replace_underscores name) +:+ " Results}";
      "\begin{tabular}{rr}"; "\toprule"; "n & time (s)\\"; "\midrule"]
     ++ ((λ row, pretty row.1 +:+ " & " +:+ format_6f row.2 +:+ "\\") <$> rows)
     ++ ["\bottomrule"; "\end{tabular}"; "\end{table}"]).
Proof.
  intros Hn Hopen. split; [by apply table_path_plain|].
  split; [rewrite write_table_put; unfold put_file; by rewrite decide_True|].
  split; [apply replace_underscores_clean|].
  intros Htitle Hfmt. unfold table_content.
  rewrite !str_app_assoc.
  rewrite (lf_lines_app "\begin{table}[H]") by done.
  rewrite (lf_lines_app "\centering") by done.
  rewrite <- (str_app_assoc _ " Results}"), <- (str_app_assoc "\caption{").
  rewrite (lf_lines_app ("\caption{" +:+ str_title (replace_underscores name) +:+ " Results}")).
  2:{ apply no_lf_app; [done|]. by apply no_lf_app. }
  rewrite (lf_lines_app "\begin{tabular}{rr}") by done.
  rewrite (lf_lines_app "\toprule") by done.
  rewrite (lf_lines_app "n & time (s)\\") by done.
  rewrite (lf_lines_app "\midrule") by done.
  cbn [app]. do 7 f_equal.
  induction rows as [|[n t] rows IH].
  - cbn [fmap list_fmap str_concat foldr app]. rewrite str_app_nil_l.
    rewrite (lf_lines_app "\bottomrule") by done.
    rewrite (lf_lines_app "\end{tabular}") by done.
    rewrite <- (str_app_nil_r LF) at 1.
    by rewrite (lf_lines_app "\end{table}") by done.
  - cbn [fmap list_fmap str_concat foldr app]. unfold table_line at 1. cbn [fst snd].
    rewrite !str_app_assoc.
    rewrite <- (str_app_assoc (format_6f t) "\\"), <- (str_app_assoc " & "),
      <- (str_app_assoc (pretty n)).
    rewrite lf_lines_app.
    2:{ apply no_lf_app; [apply plain_no_lf, pretty_Z_plain|].
        apply no_lf_app; [done|]. by apply no_lf_app. }
    f_equal. exact IH.
Qed.

(** X19. The figure of [plot_comparison] goes to the file that [plot_single]
    uses for a key named [comparison]: the figure of such a key is replaced
    by the comparison figure, as if it had never been drawn. *)
Theorem comparison_figure_overwrites (xlabel title heading : string)
    (rows : list (Z * pyfloat))
    (all_results : list (string * string * list (Z * pyfloat))) (fs fs1 fs2 : fsys) :
  plot_single xlabel "comparison" title rows fs = Some fs1 →
  plot_comparison heading all_results fs1 = Some fs2 →
  plot_comparison heading all_results fs = Some fs2 ∧
  files fs2 !! "figures/comparison.png"
    = Some (png_comparison heading
              ((λ '(_, title, rows), (title, rows)) <$> all_results)).
Proof.
  rewrite plot_single_put, !plot_comparison_put.
  change (figure_path "comparison") with "figures/comparison.png".
  change comparison_path with "figures/comparison.png".
  unfold put_file. intros H1 H2.
  destruct (decide (can_open "figures/comparison.png" fs)) as [Hopen|]; [|done].
  injection H1 as <-.
  destruct (decide (can_open "figures/comparison.png" _)) as [Hopen1|]; [|done].
  injection H2 as <-. cbn [dirs files].
  split; [by rewrite insert_insert_eq|apply lookup_insert_eq].
Qed.

(** X20. The files written for two different keys are six different files,
    and none of them is the comparison figure unless the key is
    [comparison]; so writing the three files of one key leaves the files of
    every other key, and the comparison figure, as they are. *)
Theorem outputs_of_other_keys_kept (xlabel k1 k2 title : string)
    (rows : list (Z * pyfloat)) (fs fs1 fs2 fs3 : fsys) :
  no_slash k1 → no_slash k2 → k1 ≠ k2 →
  write_csv k2 rows fs = Some fs1 → write_table k2 rows fs1 = Some fs2 →
  plot_single xlabel k2 title rows fs2 = Some fs3 →
  NoDup [csv_path k1; table_path k1; figure_path k1;
         csv_path k2; table_path k2; figure_path k2] ∧
  files fs3 !! csv_path k1 = files fs !! csv_path k1 ∧
  files fs3 !! table_path k1 = files fs !! table_path k1 ∧
  files fs3 !! figure_path k1 = files fs !! figure_path k1 ∧
  (k2 ≠ "comparison" → files fs3 !! comparison_path = files fs !! comparison_path).
Proof.
  intros H1 H2 Hne.
  rewrite write_csv_put, write_table_put, plot_single_put.
  intros (_ & _ & F1)%put_file_frame (_ & _ & F2)%put_file_frame
         (_ & _ & F3)%put_file_frame.
  assert (Hct : ∀ a b, no_slash a → no_slash b → csv_path a ≠ figure_path b).
  { intros a b Ha Hb. rewrite csv_path_plain, figure_path_plain by done.
    apply results_not_figures. }
  assert (Htf : ∀ a b, no_slash a → no_slash b → table_path a ≠ figure_path b).
  { intros a b Ha Hb. rewrite table_path_plain, figure_path_plain by done.
    apply results_not_figures. }
  assert (Hcc : csv_path k1 ≠ csv_path k2) by (by intros ?%csv_path_inj).
  assert (Htt : table_path k1 ≠ table_path k2) by (by intros ?%table_path_inj).
  assert (Hff : figure_path k1 ≠ figure_path k2) by (by intros ?%figure_path_inj).
  pose proof (csv_path_not_table k1 k2 H1 H2) as Hc12.
  pose proof (csv_path_not_table k2 k1 H2 H1) as Hc21.
  pose proof (csv_path_not_table k1 k1 H1 H1) as Hc11.
  pose proof (csv_path_not_table k2 k2 H2 H2) as Hc22.
  pose proof (Hct k1 k1 H1 H1) as Hcf11. pose proof (Hct k1 k2 H1 H2) as Hcf12.
  pose proof (Hct k2 k1 H2 H1) as Hcf21. pose proof (Hct k2 k2 H2 H2) as Hcf22.
  pose proof (Htf k1 k1 H1 H1) as Htf11. pose proof (Htf k1 k2 H1 H2) as Htf12.
  pose proof (Htf k2 k1 H2 H1) as Htf21. pose proof (Htf k2 k2 H2 H2) as Htf22.
  split; [|split; [|split; [|split]]].
  - repeat (apply NoDup_cons; split;
            [rewrite ?elem_of_cons, elem_of_nil; intros Hin;
             decompose [or] Hin; congruence|]).
    apply NoDup_nil_2.
  - rewrite F3 by congruence. rewrite F2 by congruence. by rewrite F1 by congruence.
  - rewrite F3 by congruence. rewrite F2 by congruence. by rewrite F1 by congruence.
  - rewrite F3 by congruence. rewrite F2 by congruence. by rewrite F1 by congruence.
  - intros Hk. change comparison_path with (figure_path "comparison").
    assert (Hc : no_slash "comparison") by reflexivity.
    pose proof (Hct k2 "comparison" H2 Hc). pose proof (Htf k2 "comparison" H2 Hc).
    assert (figure_path "comparison" ≠ figure_path k2).
    { intros Heq%figure_path_inj; [|done|done]. by symmetry in Heq. }
    rewrite F3 by congruence. rewrite F2 by congruence. by rewrite F1 by congruence.
Qed.

End export_properties.

Lemma exports_need_directories_witness :
  no_slash "iterative" ∧
  @write_csv tick_runtime "iterative" [(5, 1)%Z] (Fsys ∅ ∅) = None ∧
  @write_table tick_runtime "iterative" [(5, 1)%Z] (Fsys ∅ ∅) = None.
Proof.
  assert (Hn : no_slash "iterative") by reflexivity.
  split; [exact Hn|].
  apply (proj1 (@exports_need_directories tick_runtime "iterative" "n" "Iterative"
                  "Comparison" [(5, 1)%Z] [] (Fsys ∅ ∅) Hn)).
  apply not_elem_of_empty.
Defined.

Lemma write_table_contents_witness :
  (no_slash "fast_doubling" ∧
   can_open (table_path "fast_doubling") (Fsys {["results"]} ∅)) ∧
  @write_table tick_runtime "fast_doubling" [(5, 1)%Z] (Fsys {["results"]} ∅)
    = Some (Fsys {["results"]}
              (<[table_path "fast_doubling" :=
                   @table_content tick_runtime "fast_doubling" [(5, 1)%Z]]> ∅)).
Proof.
  assert (Hn : no_slash "fast_doubling") by reflexivity.
  assert (Hopen : can_open (table_path "fast_doubling") (Fsys {["results"]} ∅)).
  { assert (Hd : dirname (table_path "fast_doubling") ∈ ({["results"]} : gset string))
      by (by apply elem_of_singleton).
    split; [right; exact Hd|].
    cbn [dirs]. intros Hin%elem_of_singleton. by vm_compute in Hin. }
  split; [split; [exact Hn|exact Hopen]|].
  exact (proj1 (proj2 (@write_table_contents tick_runtime "fast_doubling"
                         [(5, 1)%Z] (Fsys {["results"]} ∅) Hn Hopen))).
Defined.

Lemma comparison_figure_overwrites_witness :
  ∃ fs1 fs2,
    (@plot_single tick_runtime "n" "comparison" "T" [] (Fsys {["figures"]} ∅) = Some fs1 ∧
     @plot_comparison tick_runtime "H" [] fs1 = Some fs2) ∧
    @plot_comparison tick_runtime "H" [] (Fsys {["figures"]} ∅) = Some fs2.
Proof.
  assert (Hopen : can_open "figures/comparison.png" (Fsys {["figures"]} ∅)).
  { assert (Hd : dirname "figures/comparison.png" ∈ ({["figures"]} : gset string))
      by (by apply elem_of_singleton).
    split; [right; exact Hd|].
    cbn [dirs]. intros Hin%elem_of_singleton. by vm_compute in Hin. }
  assert (H1 : @plot_single tick_runtime "n" "comparison" "T" [] (Fsys {["figures"]} ∅)
               = Some (Fsys {["figures"]} (<["figures/comparison.png" := EmptyString]> ∅))).
  { rewrite plot_single_put. unfold put_file.
    change (figure_path "comparison") with "figures/comparison.png".
    by rewrite decide_True by exact Hopen. }
  assert (H2 : @plot_comparison tick_runtime "H" []
                 (Fsys {["figures"]} (<["figures/comparison.png" := EmptyString]> ∅))
               = Some (Fsys {["figures"]} (<["figures/comparison.png" := EmptyString]> ∅))).
  { rewrite plot_comparison_put. unfold put_file.
    change comparison_path with "figures/comparison.png".
    rewrite decide_True by exact Hopen. cbn [dirs files]. by rewrite insert_insert_eq. }
  eexists _, _. split; [split; [exact H1|exact H2]|].
  exact (proj1 (@comparison_figure_overwrites tick_runtime "n" "T" "H" [] [] _ _ _ H1 H2)).
Defined.

Lemma outputs_of_other_keys_kept_witness :
  ∃ fs1 fs2 fs3,
    (no_slash "heapsort" ∧ no_slash "quicksort" ∧ "heapsort" ≠ "quicksort" ∧
     @write_csv tick_runtime "quicksort" [] (Fsys {["results"; "figures"]} ∅) = Some fs1 ∧
     @write_table tick_runtime "quicksort" [] fs1 = Some fs2 ∧
     @plot_single tick_runtime "n" "quicksort" "QuickSort" [] fs2 = Some fs3) ∧
    files fs3 !! csv_path "heapsort" = (∅ : gmap string string) !! csv_path "heapsort".
Proof.
  assert (Hready : out_ready (Fsys {["results"; "figures"]} ∅)).
  { split; [set_solver|]. split; [set_solver|].
    intros p [->%elem_of_singleton| ->%elem_of_singleton]%elem_of_union;
      by vm_compute. }
  destruct (@outputs_written tick_runtime "n" "quicksort" "QuickSort" []
              (Fsys {["results"; "figures"]} ∅) Hready eq_refl)
    as (fs1 & fs2 & fs3 & E1 & E2 & E3 & _).
  exists fs1, fs2, fs3.
  assert (Hne : "heapsort" ≠ "quicksort") by discriminate.
  split; [by repeat split|].
  exact (proj1 (proj2 (@outputs_of_other_keys_kept tick_runtime "n" "heapsort" "quicksort"
                         "QuickSort" [] _ fs1 fs2 fs3 eq_refl eq_refl Hne E1 E2 E3))).
Defined.
End export_further.

Section harness_further.
Local Open Scope string_scope.
Local Open Scope list_scope.
(** * Further properties of the timing harness *)

Section harness_properties.
Context `{Runtime}.


(** X22. [generate_random_array(n)] makes a new list object of [n] entries
    (none for [n <= 0]), the next [n] draws of the generator in the order
    drawn; when [randint] keeps within the bounds it is given, every entry
    lies between 0 and [10 * n].  No existing object is changed. *)
Theorem generate_random_array_result (n : Z) (w : Lab2.world) :
  (∀ k lo hi, lo ≤ hi → lo ≤ randint k lo hi ≤ hi)%Z →
  ∃ (arr : loc) (l : list Z) (w' : Lab2.world),
    Lab2.generate_random_array n w = (arr, w') ∧
    Lab2.objs w !! arr = None ∧ Lab2.objs w' = <[arr := l]> (Lab2.objs w) ∧
    length l = Z.to_nat n ∧
    (∀ i, i < Z.to_nat n → l !! i = Some (randint (Lab2.rng w + i) 0 (10 * n))) ∧
    Forall (λ x, 0 ≤ x ≤ 10 * n)%Z l ∧
    Lab2.rng w' = Lab2.rng w + Z.to_nat n.
Proof.
  intros Hrand. unfold Lab2.generate_random_array.
  set (l := (λ i, randint (Lab2.rng w + i) 0 (10 * n)) <$> seq 0 (Z.to_nat n)).
  destruct (alloc l (Lab2.objs w)) as [arr σ] eqn:E.
  pose proof E as (Hfresh & _ & _)%alloc_spec.
  unfold alloc in E. injection E as Harr <-.
  exists arr, l, (Lab2.World (<[arr := l]> (Lab2.objs w)) (Lab2.clock w)
                    (Lab2.rng w + Z.to_nat n) (Lab2.calls w) (Lab2.fs w)
                    (Lab2.stdout w)).
  split; [by rewrite Harr|]. split; [done|]. split; [done|].
  split; [by subst l; rewrite length_fmap, length_seq|].
  split.
  - intros i Hi. subst l. rewrite list_lookup_fmap, lookup_seq_lt by done.
    reflexivity.
  - split; [|done]. subst l. apply Forall_fmap, Forall_forall.
    intros i Hi%elem_of_seq. apply Hrand. lia.
Qed.

(** X23. [time_run] hands the algorithm a copy in every trial, so an
    algorithm that works in place, changing the list it is given, can be
    timed too: the array passed to [time_run] holds afterwards what it held
    before, and all three trials have seen that same content. *)
Theorem time_run_shields_array (fn : loc → store → option (loc * store))
    (arr : loc) (a : list Z) (best : option pyfloat) (w w' : Lab2.world) :
  frames fn → Lab2.objs w !! arr = Some a →
  Lab2.time_run fn arr w = Some (best, w') →
  Lab2.objs w' !! arr = Some a ∧ Lab2.objs w ⊆ Lab2.objs w' ∧
  ∃ d1 d2 d3,
    Lab2.objs w !! d1 = None ∧ Lab2.objs w !! d2 = None ∧ Lab2.objs w !! d3 = None ∧
    Lab2.calls w' = Lab2.calls w ++ [(d1, a); (d2, a); (d3, a)].
Proof.
  intros Hfr Ha Hrun.
  destruct (lab2_time_run_effect fn arr a best w w' Hfr Ha Hrun)
    as ((Hsub & _ & _ & _ & _ & Hcalls) & _).
  split; [by eapply lookup_weaken|]. by split.
Qed.


End harness_properties.


Lemma generate_random_array_result_witness :
  (∀ k lo hi, lo ≤ hi → lo ≤ @randint tick_runtime k lo hi ≤ hi)%Z ∧
  ∃ (arr : loc) (l : list Z) (w' : Lab2.world),
    @Lab2.generate_random_array tick_runtime 4
      (Lab2.World ∅ 0 0 [] (Fsys ∅ ∅) []) = (arr, w') ∧
    length l = Z.to_nat 4 ∧ Forall (λ x, 0 ≤ x ≤ 10 * 4)%Z l.
Proof.
  assert (Hrand : (∀ k lo hi, lo ≤ hi → lo ≤ @randint tick_runtime k lo hi ≤ hi)%Z).
  { intros k lo hi Hle. cbn. lia. }
  split; [exact Hrand|].
  destruct (@generate_random_array_result tick_runtime 4
              (Lab2.World ∅ 0 0 [] (Fsys ∅ ∅) []) Hrand)
    as (arr & l & w' & Hrun & _ & _ & Hlen & _ & Hall & _).
  exists arr, l, w'. split; [exact Hrun|]. split; [exact Hlen|exact Hall].
Defined.

Lemma time_run_shields_array_witness :
  ∃ (best : option Z) (w' : Lab2.world),
    (frames (λ d σ, Some (d, <[d := []]> σ)) ∧
     ({[0 := [3; 1; 2]%Z]} : store) !! 0 = Some [3; 1; 2]%Z ∧
     @Lab2.time_run tick_runtime (λ d σ, Some (d, <[d := []]> σ)) 0
       (Lab2.World {[0 := [3; 1; 2]%Z]} 0 0 [] (Fsys ∅ ∅) []) = Some (best, w')) ∧
    Lab2.objs w' !! 0 = Some [3; 1; 2]%Z.
Proof.
  assert (Hfr : frames (λ d σ, Some (d, <[d := []]> σ))).
  { intros d σ r σ' [= <- <-] l x Hne Hl. by rewrite lookup_insert_ne. }
  assert (Ha : ({[0 := [3; 1; 2]%Z]} : store) !! 0 = Some [3; 1; 2]%Z) by reflexivity.
  destruct (@lab2_time_run_runs tick_runtime (λ d σ, Some (d, <[d := []]> σ)) 0
              [3; 1; 2]%Z (Lab2.World {[0 := [3; 1; 2]%Z]} 0 0 [] (Fsys ∅ ∅) []) Hfr)
    as [[best w'] Hrun]; [by eexists|exact Ha|].
  exists best, w'. split; [by repeat split|].
  exact (proj1 (@time_run_shields_array tick_runtime _ 0 [3; 1; 2]%Z best
                  (Lab2.World {[0 := [3; 1; 2]%Z]} 0 0 [] (Fsys ∅ ∅) []) w'
                  Hfr Ha Hrun)).
Defined.

End harness_further.

Section main_lab1.
Local Open Scope string_scope.
Local Open Scope list_scope.
(** * What a run of [main] leaves behind *)

Lemma put_all_cons (p c : string) (l : list (string * string)) (m : gmap string string) :
  put_all ((p, c) :: l) m = put_all l (<[p := c]> m).
Proof. reflexivity. Qed.

Lemma put_all_app (l1 l2 : list (string * string)) (m : gmap string string) :
  put_all (l1 ++ l2) m = put_all l2 (put_all l1 m).
Proof. apply foldl_app. Qed.

Lemma put_all_frame (l : list (string * string)) :
  ∀ (m : gmap string string) (p : string),
    p ∉ l.*1 → put_all l m !! p = m !! p.
Proof.
  induction l as [|[q c] l IH]; intros m p Hp; [done|].
  rewrite put_all_cons. cbn [fmap list_fmap fst] in Hp.
  apply not_elem_of_cons in Hp as [Hne Hp].
  rewrite IH by done. by apply lookup_insert_ne.
Qed.

Lemma put_all_lookup (l : list (string * string)) :
  ∀ (m : gmap string string) (p c : string),
    NoDup l.*1 → (p, c) ∈ l → put_all l m !! p = Some c.
Proof.
  induction l as [|[q c'] l IH]; intros m p c Hnd Hin.
  { by apply elem_of_nil in Hin. }
  cbn [fmap list_fmap fst] in Hnd. apply NoDup_cons in Hnd as [Hq Hnd].
  rewrite put_all_cons. apply elem_of_cons in Hin as [[= -> ->]|Hin].
  - rewrite put_all_frame by done. apply lookup_insert_eq.
  - by apply IH.
Qed.

Section results.
Context `{Runtime}.

Lemma timed_rows_sizes (sizes : list Z) : ∀ c, (timed_rows c sizes).*1 = sizes.
Proof.
  induction sizes as [|n sizes IH]; intros c; [done|].
  cbn [timed_rows fmap list_fmap fst]. f_equal. apply IH.
Qed.

Lemma timed_results_keys {F : Type} (sizes : list Z)
    (entries : list (string * (string * F))) :
  ∀ c, (λ r, r.1.1) <$> timed_results sizes c entries = entries.*1.
Proof.
  induction entries as [|e entries IH]; intros c; [done|].
  cbn [timed_results fmap list_fmap fst]. f_equal. apply IH.
Qed.

Lemma written_paths (xlabel heading : string)
    (all_results : list (string * string * list (Z * pyfloat))) :
  (written_files xlabel heading all_results).*1
  = output_paths ((λ r, r.1.1) <$> all_results).
Proof.
  unfold written_files, output_paths. rewrite fmap_app. f_equal.
  induction all_results as [|r rs IH]; [done|].
  cbn [fmap list_fmap concat app fst output_files]. do 3 f_equal. exact IH.
Qed.

Lemma out_ready_files (d : gset string) (m m' : gmap string string) :
  out_ready (Fsys d m) → out_ready (Fsys d m').
Proof. done. Qed.

Lemma put_file_open (path content : string) (fs : fsys) :
  can_open path fs →
  put_file path content fs
  = Some (Fsys (dirs fs) (<[path := content]> (files fs))).
Proof. intros Hopen. unfold put_file. by rewrite decide_True. Qed.

(** ** Lab1 *)

Lemma lab1_rows_exact (fn : Z → option Z) (sizes : list Z) :
  ∀ (rows0 : list (Z * pyfloat)) (c : nat) (calls : list Z) (fs : fsys),
    (∀ n, n ∈ sizes → is_Some (fn n)) →
    for_loop (Lab1.measure_sizes fn) (rows0, Lab1.World c calls fs) sizes
    = Some (rows0 ++ timed_rows c sizes,
            Lab1.World (6 * length sizes + c) (calls ++ repeated_calls sizes) fs).
Proof.
  induction sizes as [|n sizes IH]; intros rows0 c calls fs Hfn.
  { cbn [for_loop timed_rows length repeated_calls fmap list_fmap concat].
    by rewrite !app_nil_r. }
  cbn [for_loop]. unfold Lab1.measure_sizes at 1.
  rewrite lab1_time_run_spec by (apply Hfn; by left).
  cbn [mbind option_bind Lab1.clock Lab1.calls Lab1.fs].
  rewrite IH by (intros m Hm; apply Hfn; by right).
  cbn [timed_rows length]. unfold repeated_calls.
  cbn [fmap list_fmap concat]. rewrite <- !app_assoc. cbn [app].
  do 3 f_equal. lia.
Qed.

Lemma lab1_main_body_exact (fuel : nat) (key title : string)
    (fn : nat → Z → option Z)
    (res0 : list (string * string * list (Z * pyfloat)))
    (c : nat) (calls : list Z) (d : gset string) (m : gmap string string) :
  (31699 ≤ Z.of_nat fuel)%Z → (key, (title, fn)) ∈ Lab1.ALGORITHMS →
  out_ready (Fsys d m) →
  Lab1.main_body fuel (res0, Lab1.World c calls (Fsys d m)) (key, (title, fn))
  = Some (res0 ++ [(key, title, timed_rows c Lab1.INPUT_SIZES)],
          Lab1.World (6 * length Lab1.INPUT_SIZES + c)
            (calls ++ repeated_calls Lab1.INPUT_SIZES)
            (Fsys d (put_all (output_files "n" (key, title, timed_rows c Lab1.INPUT_SIZES)) m))).
Proof.
  intros Hfuel Hin Hready. unfold Lab1.main_body.
  rewrite lab1_rows_exact.
  2:{ intros n Hn. pose proof lab1_sizes_bounded as Hb.
      rewrite Forall_forall in Hb. specialize (Hb n Hn).
      rewrite (lab1_registered_correct key title fn fuel n Hin); [done|lia|lia]. }
  cbn [mbind option_bind app]. unfold Lab1.with_fs.
  pose proof lab1_keys_no_slash as Hns. rewrite Forall_forall in Hns.
  specialize (Hns _ Hin). cbn [fst] in Hns.
  set (rows := timed_rows c Lab1.INPUT_SIZES).
  cbn [Lab1.fs Lab1.clock Lab1.calls].
  rewrite write_csv_put, put_file_open.
  2:{ apply can_open_results; [done|by apply no_slash_app]. }
  cbn [mbind option_bind Lab1.fs Lab1.clock Lab1.calls dirs files].
  rewrite write_table_put, put_file_open.
  2:{ apply can_open_results; [done|by apply no_slash_app]. }
  cbn [mbind option_bind Lab1.fs Lab1.clock Lab1.calls dirs files].
  rewrite plot_single_put, put_file_open.
  2:{ apply can_open_figures; [done|by apply no_slash_app]. }
  cbn [mbind option_bind Lab1.fs Lab1.clock Lab1.calls dirs files].
  reflexivity.
Qed.

Lemma lab1_main_loop_exact (fuel : nat) (d : gset string)
    (entries : list (string * (string * (nat → Z → option Z)))) :
  (31699 ≤ Z.of_nat fuel)%Z →
  ∀ (res0 : list (string * string * list (Z * pyfloat)))
    (c : nat) (calls : list Z) (m : gmap string string),
    (∀ e, e ∈ entries → e ∈ Lab1.ALGORITHMS) → out_ready (Fsys d m) →
    for_loop (Lab1.main_body fuel) (res0, Lab1.World c calls (Fsys d m)) entries
    = Some (res0 ++ timed_results Lab1.INPUT_SIZES c entries,
            Lab1.World (6 * length Lab1.INPUT_SIZES * length entries + c)
              (calls ++ concat ((λ _, repeated_calls Lab1.INPUT_SIZES) <$> entries))
              (Fsys d (put_all
                         (concat (output_files "n"
                                    <$> timed_results Lab1.INPUT_SIZES c entries))
                         m))).
Proof.
  intros Hfuel. induction entries as [|[key [title fn]] entries IH];
    intros res0 c calls m Hin Hready.
  { cbn [for_loop timed_results length fmap list_fmap concat put_all foldl].
    by rewrite !app_nil_r, Nat.mul_0_r. }
  cbn [for_loop].
  rewrite lab1_main_body_exact; [|done|apply Hin; by left|done].
  rewrite IH; [|intros e He; apply Hin; by right|by eapply out_ready_files].
  cbn [timed_results fst snd fmap list_fmap concat length].
  rewrite put_all_app, <- !app_assoc. cbn [app].
  do 3 f_equal. lia.
Qed.

(** X25. [main] of the Fibonacci script returns, for every registered
    algorithm in turn, the rows timed for it: the results depend on the
    clock alone, not on what the algorithms return.  It calls each algorithm
    three times on each size, reads the clock 990 times, writes the three
    files of every algorithm and the comparison figure, each holding what
    the returned rows say, and changes no other file. *)
Theorem lab1_main_outputs (fuel : nat) (w : Lab1.world) :
  (31699 ≤ Z.of_nat fuel)%Z → fs_ready (Lab1.fs w) →
  ∃ w' : Lab1.world,
    let all_results :=
      timed_results Lab1.INPUT_SIZES (Lab1.clock w) Lab1.ALGORITHMS in
    let written :=
      written_files "n" "Fibonacci Algorithm Comparison" all_results in
    Lab1.main fuel w = Some (all_results, w') ∧
    Lab1.clock w' = 990 + Lab1.clock w ∧
    Lab1.calls w'
      = Lab1.calls w
        ++ concat ((λ _, repeated_calls Lab1.INPUT_SIZES) <$> Lab1.ALGORITHMS) ∧
    dirs (Lab1.fs w') = {["results"; "figures"]} ∪ dirs (Lab1.fs w) ∧
    written.*1 = output_paths Lab1.ALGORITHMS.*1 ∧ NoDup written.*1 ∧
    (∀ p content, (p, content) ∈ written →
       files (Lab1.fs w') !! p = Some content) ∧
    (∀ p, p ∉ written.*1 → files (Lab1.fs w') !! p = files (Lab1.fs w) !! p).
Proof.
  intros Hfuel Hready. unfold Lab1.main, Lab1.with_fs.
  destruct (ensure_dirs_spec _ Hready) as (fs1 & Hdirs & Hout & Hfiles).
  pose proof (ensure_dirs_effect (Lab1.fs w) fs1 Hdirs) as (Hd1 & _ & _).
  rewrite Hdirs. cbn [mbind option_bind].
  destruct fs1 as [d1 m1]. cbn [dirs files] in Hd1, Hfiles. subst m1.
  rewrite lab1_main_loop_exact by done.
  cbn [mbind option_bind app Lab1.fs Lab1.clock Lab1.calls].
  set (all_results := timed_results Lab1.INPUT_SIZES (Lab1.clock w) Lab1.ALGORITHMS).
  rewrite plot_comparison_put, put_file_open.
  2:{ apply (can_open_figures "comparison.png"); [by eapply out_ready_files|done]. }
  cbn [mbind option_bind dirs files].
  eexists. cbv zeta. split; [reflexivity|].
  cbn [Lab1.clock Lab1.calls Lab1.fs dirs files].
  assert (Hpaths : (written_files "n" "Fibonacci Algorithm Comparison" all_results).*1
                   = output_paths Lab1.ALGORITHMS.*1).
  { rewrite written_paths. unfold all_results. by rewrite timed_results_keys. }
  assert (Hnd : NoDup (written_files "n" "Fibonacci Algorithm Comparison" all_results).*1).
  { rewrite Hpaths. apply (bool_decide_unpack _). by vm_compute. }
  assert (Hmap : <[comparison_path :=
                     png_comparison "Fibonacci Algorithm Comparison"
                       ((λ '(_, title, rows), (title, rows)) <$> all_results)]>
                   (put_all (concat (output_files "n" <$> all_results))
                      (files (Lab1.fs w)))
                 = put_all (written_files "n" "Fibonacci Algorithm Comparison"
                              all_results) (files (Lab1.fs w))).
  { unfold written_files. by rewrite put_all_app. }
  rewrite Hmap.
  split; [reflexivity|]. split; [done|]. split; [done|].
  split; [done|]. split; [done|].
  split.
  - intros p content Hin. by apply put_all_lookup.
  - intros p Hp. by apply put_all_frame.
Qed.

End results.

Lemma lab1_main_outputs_witness :
  ((31699 ≤ Z.of_nat (Z.to_nat 31699))%Z ∧ fs_ready (Fsys ∅ ∅)) ∧
  ∃ w' : Lab1.world,
    @Lab1.main tick_runtime (Z.to_nat 31699) (Lab1.World 0 [] (Fsys ∅ ∅))
    = Some (@timed_results tick_runtime _ Lab1.INPUT_SIZES 0 Lab1.ALGORITHMS, w') ∧
    Lab1.clock w' = 990.
Proof.
  assert (Hfuel : (31699 ≤ Z.of_nat (Z.to_nat 31699))%Z) by lia.
  split; [split; [exact Hfuel|exact fs_ready_empty]|].
  destruct (@lab1_main_outputs tick_runtime (Z.to_nat 31699)
              (Lab1.World 0 [] (Fsys ∅ ∅)) Hfuel fs_ready_empty)
    as (w' & Hrun & Hclock & _).
  exists w'. split; [exact Hrun|exact Hclock].
Defined.
End main_lab1.

Section main_lab2.
Local Open Scope string_scope.
Local Open Scope list_scope.
(** ** Lab2 *)

Section lab2_results.
Context `{Runtime}.

Lemma drawn_length (k : nat) (n : Z) : length (drawn k n) = Z.to_nat n.
Proof. unfold drawn. by rewrite length_fmap, length_seq. Qed.

Lemma drawn_arrays_length (sizes : list Z) (n : Z) :
  ∀ k, n ∈ sizes → length (drawn_arrays k sizes n) = Z.to_nat n.
Proof.
  induction sizes as [|m sizes IH]; intros k Hn.
  { by apply elem_of_nil in Hn. }
  cbn [drawn_arrays]. destruct (decide (m = n)) as [->|Hne].
  - apply drawn_length.
  - apply IH. by apply elem_of_cons in Hn as [->|Hn].
Qed.

Lemma drawn_arrays_bounds (sizes : list Z) (n : Z) :
  (∀ k lo hi, lo ≤ hi → lo ≤ randint k lo hi ≤ hi)%Z →
  ∀ k, Forall (λ x, 0 ≤ x ≤ 10 * n)%Z (drawn_arrays k sizes n).
Proof.
  intros Hrand. induction sizes as [|m sizes IH]; intros k; [constructor|].
  cbn [drawn_arrays]. destruct (decide (m = n)) as [->|Hne]; [|apply IH].
  unfold drawn. apply Forall_fmap, Forall_forall.
  intros i Hi%elem_of_seq. apply Hrand. lia.
Qed.

Lemma drawn_arrays_offset (sizes : list Z) :
  NoDup sizes →
  ∀ (k i : nat) (n : Z), sizes !! i = Some n →
    drawn_arrays k sizes n = drawn (k + sum_list_with Z.to_nat (take i sizes)) n.
Proof.
  induction sizes as [|m sizes IH]; intros Hnd k i n Hi; [done|].
  apply NoDup_cons in Hnd as [Hm Hnd]. cbn [drawn_arrays].
  destruct i as [|i]; cbn [lookup list_lookup] in Hi.
  - injection Hi as ->. rewrite decide_True by done.
    cbn [take sum_list_with]. by rewrite Nat.add_0_r.
  - rewrite decide_False.
    2:{ intros ->. apply Hm. by eapply list_elem_of_lookup_2. }
    rewrite (IH Hnd _ i n Hi). cbn [take sum_list_with]. f_equal. lia.
Qed.

Lemma make_arrays_exact (sizes : list Z) :
  ∀ (arrays : gmap Z loc) (w : Lab2.world),
    NoDup sizes →
    ∃ arrays' w',
      for_loop Lab2.make_arrays (arrays, w) sizes = Some (arrays', w') ∧
      Lab2.objs w ⊆ Lab2.objs w' ∧ Lab2.clock w' = Lab2.clock w ∧
      Lab2.rng w' = Lab2.rng w + sum_list_with Z.to_nat sizes ∧
      Lab2.calls w' = Lab2.calls w ∧ Lab2.fs w' = Lab2.fs w ∧
      Lab2.stdout w' = Lab2.stdout w ∧
      (∀ n, n ∉ sizes → arrays' !! n = arrays !! n) ∧
      (∀ n, n ∈ sizes →
         arrays_in arrays' (Lab2.objs w') n (drawn_arrays (Lab2.rng w) sizes n)).
Proof.
  induction sizes as [|m sizes IH]; intros arrays w Hnd.
  { exists arrays, w. cbn [for_loop sum_list_with]. rewrite Nat.add_0_r.
    repeat (split; [done|]). intros n Hn. by apply elem_of_nil in Hn. }
  apply NoDup_cons in Hnd as [Hm Hnd].
  cbn [for_loop]. unfold Lab2.make_arrays at 1, Lab2.generate_random_array.
  fold (drawn (Lab2.rng w) m).
  destruct (alloc (drawn (Lab2.rng w) m) (Lab2.objs w)) as [a σ1] eqn:E1.
  apply alloc_spec in E1 as (Hfresh & Ha & S1).
  destruct (IH (<[m := a]> arrays)
              (Lab2.World σ1 (Lab2.clock w) (Lab2.rng w + Z.to_nat m) (Lab2.calls w)
                 (Lab2.fs w) (Lab2.stdout w)) Hnd)
    as (arrays' & w' & Hrun & S2 & C2 & R2 & L2 & F2 & O2 & Hframe & Hin).
  cbn [Lab2.objs Lab2.clock Lab2.rng Lab2.calls Lab2.fs Lab2.stdout] in *.
  exists arrays', w'. split; [exact Hrun|].
  split; [by etrans|]. split; [done|].
  split; [cbn [sum_list_with]; lia|]. split; [done|]. split; [done|].
  split; [done|]. split.
  - intros n Hn. apply not_elem_of_cons in Hn as [Hne Hn].
    rewrite Hframe by done. by apply lookup_insert_ne.
  - intros n Hn. cbn [drawn_arrays]. destruct (decide (m = n)) as [<-|Hne].
    + exists a. split; [by rewrite Hframe, lookup_insert_eq|].
      by eapply lookup_weaken.
    + apply Hin. by apply elem_of_cons in Hn as [->|Hn].
Qed.

Lemma lab2_rows_exact (title : string) (fn : loc → store → option (loc * store))
    (arrays : gmap Z loc) (σ : store) (contents : Z → list Z) (sizes : list Z) :
  frames fn →
  (∀ n, n ∈ sizes → arrays_in arrays σ n (contents n) ∧ runs_on (contents n) fn) →
  ∀ (rows0 : list (Z * pyfloat)) (w : Lab2.world),
    σ ⊆ Lab2.objs w →
    ∃ w',
      for_loop (Lab2.measure_sizes title fn arrays) (rows0, w) sizes
        = Some (rows0 ++ timed_rows (Lab2.clock w) sizes, w') ∧
      σ ⊆ Lab2.objs w' ∧ Lab2.objs w ⊆ Lab2.objs w' ∧
      Lab2.clock w' = 6 * length sizes + Lab2.clock w ∧
      Lab2.rng w' = Lab2.rng w ∧ Lab2.fs w' = Lab2.fs w ∧
      Lab2.stdout w'
        = Lab2.stdout w ++ progress_lines title (timed_rows (Lab2.clock w) sizes) ∧
      (Lab2.calls w').*2 = (Lab2.calls w).*2 ++ expected_calls contents sizes.
Proof.
  intros Hfr. induction sizes as [|n sizes IH]; intros Harr rows0 w Hσ.
  { exists w. cbn [for_loop timed_rows length progress_lines fmap list_fmap].
    unfold expected_calls. cbn [fmap list_fmap concat]. rewrite !app_nil_r.
    by repeat split. }
  destruct (Harr n ltac:(by left)) as [(a & Ha1 & Ha2) Hruns].
  assert (Ha : Lab2.objs w !! a = Some (contents n)) by (by eapply lookup_weaken).
  destruct (lab2_time_run_runs fn a (contents n) w Hfr Hruns Ha) as [[b w1] Hrun].
  destruct (lab2_time_run_effect fn a (contents n) b w w1 Hfr Ha Hrun)
    as ((S1 & C1 & R1 & F1 & O1 & d1 & d2 & d3 & _ & _ & _ & L1) & ->).
  destruct (IH ltac:(intros m Hm; apply Harr; by right)
              (rows0 ++ [(n, best_at (Lab2.clock w))])
              (Lab2.print (format_progress title n (best_at (Lab2.clock w))) w1))
    as (w' & Hloop & S2 & S2' & C2 & R2 & F2 & O2 & L2).
  { cbn [Lab2.print Lab2.objs]. by etrans. }
  cbn [Lab2.print Lab2.objs Lab2.clock Lab2.rng Lab2.calls Lab2.fs Lab2.stdout] in *.
  exists w'. split.
  - cbn [for_loop]. unfold Lab2.measure_sizes at 1. rewrite Ha1, bind_Some, Hrun.
    cbn [mbind option_bind]. rewrite Hloop, C1.
    cbn [timed_rows]. by rewrite <- app_assoc.
  - split; [done|]. split; [by etrans|]. split; [cbn [length]; lia|].
    split; [congruence|]. split; [congruence|].
    split.
    + rewrite O2, O1, C1. cbn [timed_rows progress_lines fmap list_fmap fst snd].
      by rewrite <- app_assoc.
    + rewrite L2, L1. unfold expected_calls.
      rewrite fmap_app. cbn [fmap list_fmap concat snd replicate].
      by rewrite <- !app_assoc.
Qed.

Lemma out_ready_dirs (fs fs' : fsys) : dirs fs' = dirs fs → out_ready fs → out_ready fs'.
Proof. unfold out_ready. by intros ->. Qed.

Lemma lab2_main_body_exact (fuel : nat) (arrays : gmap Z loc) (σ : store)
    (contents : Z → list Z) (key title : string)
    (fn : nat → loc → store → option (loc * store))
    (res0 : list (string * string * list (Z * pyfloat))) (w : Lab2.world) :
  (100000 < Z.of_nat fuel)%Z →
  (∀ n, n ∈ Lab2.INPUT_SIZES →
     arrays_in arrays σ n (contents n) ∧ length (contents n) = Z.to_nat n) →
  (key, (title, fn)) ∈ Lab2.ALGORITHMS →
  σ ⊆ Lab2.objs w → out_ready (Lab2.fs w) →
  ∃ w',
    Lab2.main_body fuel arrays (res0, w) (key, (title, fn))
      = Some (res0 ++ [(key, title, timed_rows (Lab2.clock w) Lab2.INPUT_SIZES)], w') ∧
    σ ⊆ Lab2.objs w' ∧ Lab2.objs w ⊆ Lab2.objs w' ∧
    Lab2.clock w' = 6 * length Lab2.INPUT_SIZES + Lab2.clock w ∧
    Lab2.rng w' = Lab2.rng w ∧
    dirs (Lab2.fs w') = dirs (Lab2.fs w) ∧
    files (Lab2.fs w')
      = put_all (output_files "n (array size)"
                   (key, title, timed_rows (Lab2.clock w) Lab2.INPUT_SIZES))
          (files (Lab2.fs w)) ∧
    Lab2.stdout w'
      = Lab2.stdout w
        ++ progress_lines title (timed_rows (Lab2.clock w) Lab2.INPUT_SIZES) ∧
    (Lab2.calls w').*2
      = (Lab2.calls w).*2 ++ expected_calls contents Lab2.INPUT_SIZES.
Proof.
  intros Hfuel Harr Hin Hσ Hready. unfold Lab2.main_body.
  destruct (lab2_registered key title fn Hin) as [Hsorts Hpres].
  destruct (lab2_rows_exact title (fn fuel) arrays σ contents Lab2.INPUT_SIZES
              (preserves_frames fn fuel Hpres)) with (rows0 := @nil (Z * pyfloat)) (w := w)
    as (w1 & Hrun & S1 & S1' & C1 & R1 & F1 & O1 & L1).
  { intros n Hn. destruct (Harr n Hn) as [Hl Hlen]. split; [exact Hl|].
    apply sorts_runs_on; [exact Hsorts|].
    pose proof lab2_sizes_bounded as Hb. rewrite Forall_forall in Hb.
    specialize (Hb n Hn). lia. }
  { exact Hσ. }
  rewrite Hrun, bind_Some. cbv beta iota.
  pose proof lab2_keys_no_slash as Hns. rewrite Forall_forall in Hns.
  specialize (Hns _ Hin). cbn [fst] in Hns.
  set (rows := timed_rows (Lab2.clock w) Lab2.INPUT_SIZES) in *.
  cbn [app].
  assert (Hready1 : out_ready (Lab2.fs w1)) by (by rewrite F1).
  destruct (Lab2.fs w1) as [d m] eqn:Hfs1.
  assert (E1 : write_csv key rows (Lab2.fs w1)
               = Some (Fsys d (<[csv_path key := csv_content rows]> m))).
  { rewrite Hfs1, write_csv_put, put_file_open; [done|].
    apply can_open_results; [done|by apply no_slash_app]. }
  rewrite (lab2_with_fs_Some _ w1 _ E1), bind_Some.
  match goal with
  | |- context [Lab2.with_fs (write_table key rows) ?w2] =>
      assert (E2 : write_table key rows (Lab2.fs w2)
                   = Some (Fsys d (<[table_path key := table_content key rows]>
                                     (<[csv_path key := csv_content rows]> m))));
      [|rewrite (lab2_with_fs_Some _ w2 _ E2), bind_Some]
  end.
  { cbn [Lab2.fs]. rewrite write_table_put, put_file_open; [done|].
    apply can_open_results; [by eapply out_ready_files|by apply no_slash_app]. }
  match goal with
  | |- context [Lab2.with_fs (plot_single ?x key title rows) ?w3] =>
      assert (E3 : plot_single x key title rows (Lab2.fs w3)
                   = Some (Fsys d (put_all (output_files x (key, title, rows)) m)));
      [|rewrite (lab2_with_fs_Some _ w3 _ E3), bind_Some]
  end.
  { cbn [Lab2.fs]. rewrite plot_single_put, put_file_open; [done|].
    apply can_open_figures; [by eapply out_ready_files|by apply no_slash_app]. }
  eexists. split; [reflexivity|].
  cbn [Lab2.objs Lab2.clock Lab2.rng Lab2.calls Lab2.fs Lab2.stdout dirs files].
  rewrite <- F1. cbn [dirs files].
  split; [exact S1|]. split; [exact S1'|]. split; [exact C1|].
  split; [exact R1|]. split; [reflexivity|]. split; [reflexivity|].
  split; [exact O1|exact L1].
Qed.

Lemma lab2_main_loop_exact (fuel : nat) (arrays : gmap Z loc) (σ : store)
    (contents : Z → list Z)
    (entries : list (string * (string * (nat → loc → store → option (loc * store))))) :
  (100000 < Z.of_nat fuel)%Z →
  (∀ n, n ∈ Lab2.INPUT_SIZES →
     arrays_in arrays σ n (contents n) ∧ length (contents n) = Z.to_nat n) →
  ∀ (res0 : list (string * string * list (Z * pyfloat))) (w : Lab2.world),
    (∀ e, e ∈ entries → e ∈ Lab2.ALGORITHMS) →
    σ ⊆ Lab2.objs w → out_ready (Lab2.fs w) →
    ∃ w',
      for_loop (Lab2.main_body fuel arrays) (res0, w) entries
        = Some (res0 ++ timed_results Lab2.INPUT_SIZES (Lab2.clock w) entries, w') ∧
      Lab2.objs w ⊆ Lab2.objs w' ∧
      Lab2.clock w' = 6 * length Lab2.INPUT_SIZES * length entries + Lab2.clock w ∧
      Lab2.rng w' = Lab2.rng w ∧
      dirs (Lab2.fs w') = dirs (Lab2.fs w) ∧
      files (Lab2.fs w')
        = put_all (concat (output_files "n (array size)"
                             <$> timed_results Lab2.INPUT_SIZES (Lab2.clock w) entries))
            (files (Lab2.fs w)) ∧
      Lab2.stdout w'
        = Lab2.stdout w
          ++ concat ((λ r, progress_lines r.1.2 r.2)
                       <$> timed_results Lab2.INPUT_SIZES (Lab2.clock w) entries) ∧
      (Lab2.calls w').*2
        = (Lab2.calls w).*2
          ++ concat ((λ _, expected_calls contents Lab2.INPUT_SIZES) <$> entries).
Proof.
  intros Hfuel Harr. induction entries as [|[key [title fn]] entries IH];
    intros res0 w Hin Hσ Hready.
  { exists w. cbn [for_loop timed_results length fmap list_fmap concat put_all foldl].
    rewrite !app_nil_r, Nat.mul_0_r. by repeat split. }
  destruct (lab2_main_body_exact fuel arrays σ contents key title fn res0 w Hfuel Harr)
    as (w1 & Hrun & S1 & S1' & C1 & R1 & D1 & F1 & O1 & L1);
    [apply Hin; by left|exact Hσ|exact Hready|].
  destruct (IH (res0 ++ [(key, title, timed_rows (Lab2.clock w) Lab2.INPUT_SIZES)]) w1)
    as (w' & Hloop & S2' & C2 & R2 & D2 & F2 & O2 & L2);
    [intros e He; apply Hin; by right|exact S1|by eapply out_ready_dirs|].
  exists w'. split.
  - cbn [for_loop]. rewrite Hrun, Hloop, C1. cbn [timed_results fst snd].
    by rewrite <- app_assoc.
  - split; [by etrans|]. split; [cbn [length]; lia|]. split; [congruence|].
    split; [congruence|]. split.
    + rewrite F2, F1, C1. cbn [timed_results fst snd fmap list_fmap concat].
      by rewrite put_all_app.
    + split.
      * rewrite O2, O1, C1. cbn [timed_results fst snd fmap list_fmap concat].
        by rewrite <- app_assoc.
      * rewrite L2, L1. cbn [fmap list_fmap concat]. by rewrite <- app_assoc.
Qed.

(** Everything a run of [main] of the sorting script does. *)
Lemma lab2_main_exact (fuel : nat) (w : Lab2.world) :
  (100000 < Z.of_nat fuel)%Z → fs_ready (Lab2.fs w) →
  ∃ w' : Lab2.world,
    Lab2.main fuel w
      = Some (timed_results Lab2.INPUT_SIZES (Lab2.clock w) Lab2.ALGORITHMS, w') ∧
    Lab2.objs w ⊆ Lab2.objs w' ∧
    Lab2.clock w'
      = 6 * length Lab2.INPUT_SIZES * length Lab2.ALGORITHMS + Lab2.clock w ∧
    Lab2.rng w' = sum_list_with Z.to_nat Lab2.INPUT_SIZES ∧
    dirs (Lab2.fs w') = {["results"; "figures"]} ∪ dirs (Lab2.fs w) ∧
    files (Lab2.fs w')
      = put_all (written_files "n (array size)" "Sorting Algorithm Comparison"
                   (timed_results Lab2.INPUT_SIZES (Lab2.clock w) Lab2.ALGORITHMS))
          (files (Lab2.fs w)) ∧
    Lab2.stdout w'
      = Lab2.stdout w
        ++ concat ((λ r, progress_lines r.1.2 r.2)
                     <$> timed_results Lab2.INPUT_SIZES (Lab2.clock w) Lab2.ALGORITHMS)
        ++ ["Done."] ∧
    (Lab2.calls w').*2
      = (Lab2.calls w).*2
        ++ concat ((λ _, expected_calls (drawn_arrays 0 Lab2.INPUT_SIZES)
                           Lab2.INPUT_SIZES) <$> Lab2.ALGORITHMS).
Proof.
  intros Hfuel Hready.
  destruct (ensure_dirs_spec _ Hready) as (fs1 & Hdirs & Hout & Hfiles).
  pose proof (ensure_dirs_effect (Lab2.fs w) fs1 Hdirs) as (Hd1 & _ & _).
  unfold Lab2.main. cbv zeta.
  match goal with
  | |- context [Lab2.with_fs ensure_dirs ?w0] =>
      rewrite (lab2_with_fs_Some ensure_dirs w0 fs1 Hdirs), bind_Some
  end.
  assert (Hnd : NoDup Lab2.INPUT_SIZES).
  { apply (bool_decide_unpack _). by vm_compute. }
  match goal with
  | |- context [for_loop Lab2.make_arrays (∅, ?w1) _] =>
      destruct (make_arrays_exact Lab2.INPUT_SIZES ∅ w1 Hnd)
        as (arrays & w2 & Harrays & S2 & C2 & R2 & L2 & F2 & O2 & _ & Harr)
  end.
  cbn [Lab2.objs Lab2.clock Lab2.rng Lab2.calls Lab2.fs Lab2.stdout] in S2, C2, R2,
    L2, F2, O2, Harr.
  rewrite Harrays, bind_Some. cbv beta iota.
  destruct (lab2_main_loop_exact fuel arrays (Lab2.objs w2)
              (drawn_arrays 0 Lab2.INPUT_SIZES) Lab2.ALGORITHMS Hfuel)
    with (res0 := @nil (string * string * list (Z * pyfloat))) (w := w2)
    as (w3 & Hloop & S3 & C3 & R3 & D3 & F3 & O3 & L3).
  { intros n Hn. split; [by apply Harr|by apply drawn_arrays_length]. }
  { done. }
  { reflexivity. }
  { rewrite F2. exact Hout. }
  rewrite C2 in Hloop, C3, F3, O3.
  rewrite Hloop, bind_Some. cbv beta iota. cbn [app].
  assert (Hcmp : plot_comparison "Sorting Algorithm Comparison"
                   (timed_results Lab2.INPUT_SIZES (Lab2.clock w) Lab2.ALGORITHMS)
                   (Lab2.fs w3)
                 = Some (Fsys (dirs (Lab2.fs w3))
                           (put_all (written_files "n (array size)"
                                       "Sorting Algorithm Comparison"
                                       (timed_results Lab2.INPUT_SIZES (Lab2.clock w)
                                          Lab2.ALGORITHMS))
                              (files (Lab2.fs w))))).
  { rewrite plot_comparison_put, put_file_open.
    - unfold written_files. rewrite put_all_app, F3, F2, Hfiles. reflexivity.
    - apply (can_open_figures "comparison.png"); [|done].
      apply (out_ready_dirs fs1); [by rewrite D3, F2|exact Hout]. }
  rewrite (lab2_with_fs_Some _ w3 _ Hcmp), bind_Some.
  eexists. split; [reflexivity|].
  cbn [Lab2.print Lab2.objs Lab2.clock Lab2.rng Lab2.calls Lab2.fs Lab2.stdout
         dirs files].
  split; [by etrans|]. split; [exact C3|].
  split; [rewrite R3, R2; apply Nat.add_0_l|].
  split; [rewrite D3, F2; exact Hd1|]. split; [reflexivity|].
  split; [by rewrite O3, O2, <- app_assoc|].
  by rewrite L3, L2.
Qed.

(** X26. [main] of the sorting script returns the rows timed for the four
    algorithms in turn, reads the clock 264 times, prints one line per
    algorithm and size followed by [Done.], writes the three files of every
    algorithm and the comparison figure, each holding what the returned rows
    say, and changes no other file. *)
Theorem lab2_main_outputs (fuel : nat) (w : Lab2.world) :
  (100000 < Z.of_nat fuel)%Z → fs_ready (Lab2.fs w) →
  ∃ w' : Lab2.world,
    let all_results :=
      timed_results Lab2.INPUT_SIZES (Lab2.clock w) Lab2.ALGORITHMS in
    let written :=
      written_files "n (array size)" "Sorting Algorithm Comparison" all_results in
    Lab2.main fuel w = Some (all_results, w') ∧
    Lab2.clock w' = 264 + Lab2.clock w ∧
    Lab2.stdout w'
      = Lab2.stdout w
        ++ concat ((λ r, progress_lines r.1.2 r.2) <$> all_results) ++ ["Done."] ∧
    length (Lab2.stdout w') = length (Lab2.stdout w) + 45 ∧
    dirs (Lab2.fs w') = {["results"; "figures"]} ∪ dirs (Lab2.fs w) ∧
    written.*1 = output_paths Lab2.ALGORITHMS.*1 ∧ NoDup written.*1 ∧
    (∀ p content, (p, content) ∈ written →
       files (Lab2.fs w') !! p = Some content) ∧
    (∀ p, p ∉ written.*1 → files (Lab2.fs w') !! p = files (Lab2.fs w) !! p).
Proof.
  intros Hfuel Hready.
  destruct (lab2_main_exact fuel w Hfuel Hready)
    as (w' & Hrun & _ & Hclock & _ & Hdirs & Hfiles & Hout & _).
  exists w'. cbv zeta.
  set (all_results := timed_results Lab2.INPUT_SIZES (Lab2.clock w) Lab2.ALGORITHMS) in *.
  assert (Hpaths : (written_files "n (array size)" "Sorting Algorithm Comparison"
                      all_results).*1 = output_paths Lab2.ALGORITHMS.*1).
  { rewrite written_paths. unfold all_results. by rewrite timed_results_keys. }
  assert (Hnd : NoDup (written_files "n (array size)" "Sorting Algorithm Comparison"
                         all_results).*1).
  { rewrite Hpaths. apply (bool_decide_unpack _). by vm_compute. }
  split; [exact Hrun|]. split; [exact Hclock|]. split; [exact Hout|].
  split.
  { rewrite Hout, !length_app. f_equal. }
  split; [exact Hdirs|]. split; [exact Hpaths|]. split; [exact Hnd|].
  rewrite Hfiles. split.
  - intros p content Hin. by apply put_all_lookup.
  - intros p Hp. by apply put_all_frame.
Qed.

(** X27. The arrays that [main] of the sorting script sorts are drawn after
    [random.seed(42)]: whatever the state of the generator before, the array
    of each size is made of as many draws as its size, the arrays being
    drawn in the order of the sizes, 293600 draws in all.  Every algorithm
    is called three times on each of these arrays, and every list object
    that existed before the run is unchanged. *)
Theorem lab2_main_arrays (fuel : nat) (w : Lab2.world) :
  (100000 < Z.of_nat fuel)%Z → fs_ready (Lab2.fs w) →
  ∃ all_results w',
    Lab2.main fuel w = Some (all_results, w') ∧
    Lab2.rng w' = Z.to_nat 293600 ∧
    Lab2.objs w ⊆ Lab2.objs w' ∧
    (Lab2.calls w').*2
      = (Lab2.calls w).*2
        ++ concat ((λ _, expected_calls (drawn_arrays 0 Lab2.INPUT_SIZES)
                           Lab2.INPUT_SIZES) <$> Lab2.ALGORITHMS) ∧
    (∀ i n, Lab2.INPUT_SIZES !! i = Some n →
       drawn_arrays 0 Lab2.INPUT_SIZES n
       = drawn (sum_list_with Z.to_nat (take i Lab2.INPUT_SIZES)) n ∧
       length (drawn_arrays 0 Lab2.INPUT_SIZES n) = Z.to_nat n) ∧
    ((∀ k lo hi, lo ≤ hi → lo ≤ randint k lo hi ≤ hi)%Z →
     ∀ n, Forall (λ x, 0 ≤ x ≤ 10 * n)%Z (drawn_arrays 0 Lab2.INPUT_SIZES n)).
Proof.
  intros Hfuel Hready.
  destruct (lab2_main_exact fuel w Hfuel Hready)
    as (w' & Hrun & Hobjs & _ & Hrng & _ & _ & _ & Hcalls).
  eexists _, w'. split; [exact Hrun|].
  split.
  { rewrite Hrng. unfold Lab2.INPUT_SIZES, Lab2.SMALL_INPUTS, Lab2.LARGE_INPUTS.
    cbn [app sum_list_with]. lia. }
  split; [exact Hobjs|]. split; [exact Hcalls|].
  split.
  - intros i n Hi. split.
    + rewrite <- (Nat.add_0_l (sum_list_with _ _)).
      apply (drawn_arrays_offset Lab2.INPUT_SIZES); [|exact Hi].
      apply (bool_decide_unpack _). by vm_compute.
    + apply drawn_arrays_length. by eapply list_elem_of_lookup_2.
  - intros Hrand n. by apply drawn_arrays_bounds.
Qed.

End lab2_results.

Lemma lab2_main_outputs_witness :
  ((100000 < Z.of_nat (Z.to_nat 100001))%Z ∧ fs_ready (Fsys ∅ ∅)) ∧
  ∃ w' : Lab2.world,
    @Lab2.main tick_runtime (Z.to_nat 100001) (Lab2.World ∅ 0 0 [] (Fsys ∅ ∅) [])
    = Some (@timed_results tick_runtime _ Lab2.INPUT_SIZES 0 Lab2.ALGORITHMS, w') ∧
    Lab2.clock w' = 264.
Proof.
  assert (Hfuel : (100000 < Z.of_nat (Z.to_nat 100001))%Z) by lia.
  split; [split; [exact Hfuel|exact fs_ready_empty]|].
  destruct (@lab2_main_outputs tick_runtime (Z.to_nat 100001)
              (Lab2.World ∅ 0 0 [] (Fsys ∅ ∅) []) Hfuel fs_ready_empty)
    as (w' & Hrun & Hclock & _).
  exists w'. split; [exact Hrun|exact Hclock].
Defined.

Lemma lab2_main_arrays_witness :
  ((100000 < Z.of_nat (Z.to_nat 100001))%Z ∧ fs_ready (Fsys ∅ ∅)) ∧
  ∃ all_results w',
    @Lab2.main tick_runtime (Z.to_nat 100001) (Lab2.World ∅ 0 7 [] (Fsys ∅ ∅) [])
    = Some (all_results, w') ∧
    Lab2.rng w' = Z.to_nat 293600.
Proof.
  assert (Hfuel : (100000 < Z.of_nat (Z.to_nat 100001))%Z) by lia.
  split; [split; [exact Hfuel|exact fs_ready_empty]|].
  destruct (@lab2_main_arrays tick_runtime (Z.to_nat 100001)
              (Lab2.World ∅ 0 7 [] (Fsys ∅ ∅) []) Hfuel fs_ready_empty)
    as (all_results & w' & Hrun & Hrng & _).
  exists all_results, w'. split; [exact Hrun|exact Hrng].
Defined.
End main_lab2.

